(** * OpusOne API: the OCR metadata extractor, the annotation compositor
      and the routes around them

  A shallow embedding of [processSmartMetadata] and of the annotation loop
  of the [GET /api/sheets/:id/download] handler of [src/index.js], with the
  parts of the JavaScript runtime they rely on (UTF-16 strings, [split],
  [trim], [parseInt], backtracking regular expressions with the [i] flag),
  and of the OCR, sheet, deletion and admin routes and the authentication
  middleware, followed by the properties proved about them. *)

From Stdlib Require Import QArith Qcanon Ring_theory DecimalNat.
From Stdlib Require Import String Ascii ZArith List Bool Lia.
From Stdlib Require PrimFloat.
Import ListNotations.
Open Scope Z_scope.

Set Implicit Arguments.

(* ================================================================== *)
(** ** JavaScript values shared by both components *)

Module Js.

(** A completion of a JavaScript evaluation: a value, or a thrown
    exception (the handler never inspects the exception it catches). *)
Inductive completion (A : Type) : Type :=
| Normal (a : A)
| Throw.
Arguments Normal {A} a.
Arguments Throw {A}.

(** A JavaScript string is a sequence of UTF-16 code units; [length]
    counts code units, as [String.prototype.length] does. *)
Definition jsstring := list Z.

Definition str_eqb (a b : jsstring) : bool :=
  if list_eq_dec Z.eq_dec a b then true else false.

Definition byte (a : ascii) : Z := Z.of_N (N_of_ascii a).

(** Code units of a string literal of this file, which Rocq stores as
    UTF-8 bytes: one to three bytes give one code unit, four bytes a
    surrogate pair. *)
Fixpoint js (s : string) : jsstring :=
  match s with
  | EmptyString => []
  | String a s1 =>
    let b0 := byte a in
    if b0 <? 0x80 then b0 :: js s1
    else match s1 with
    | EmptyString => [b0]
    | String b s2 =>
      let b1 := Z.land (byte b) 0x3F in
      if b0 <? 0xE0 then (Z.land b0 0x1F * 64 + b1) :: js s2
      else match s2 with
      | EmptyString => [b0]
      | String c s3 =>
        let b2 := Z.land (byte c) 0x3F in
        if b0 <? 0xF0 then (Z.land b0 0x0F * 4096 + b1 * 64 + b2) :: js s3
        else match s3 with
        | EmptyString => [b0]
        | String d s4 =>
          let b3 := Z.land (byte d) 0x3F in
          let cp := Z.land b0 0x07 * 262144 + b1 * 4096 + b2 * 64 + b3 - 0x10000 in
          (0xD800 + cp / 1024) :: (0xDC00 + cp mod 1024) :: js s4
        end
      end
    end
  end.

(** A character class as the list of its inclusive ranges. *)
Definition charclass := list (Z * Z).

Definition in_class (cls : charclass) (c : Z) : bool :=
  existsb (fun r => (fst r <=? c) && (c <=? snd r)) cls.

(** ECMAScript WhiteSpace and LineTerminator code units: what [trim]
    strips and what [\s] matches. *)
Definition white_space : charclass :=
  [ (0x09, 0x0D); (0x20, 0x20); (0xA0, 0xA0); (0x1680, 0x1680);
    (0x2000, 0x200A); (0x2028, 0x2029); (0x202F, 0x202F);
    (0x205F, 0x205F); (0x3000, 0x3000); (0xFEFF, 0xFEFF) ].

Definition isWhiteSpace (c : Z) : bool := in_class white_space c.

Fixpoint trimStart (s : jsstring) : jsstring :=
  match s with
  | [] => []
  | c :: s' => if isWhiteSpace c then trimStart s' else s
  end.

Definition trimEnd (s : jsstring) : jsstring := rev (trimStart (rev s)).

(** [String.prototype.trim]. *)
Definition trim (s : jsstring) : jsstring := trimEnd (trimStart s).

(** [s.split(sep)] for a separator of one code unit: always at least one
    piece, [""] for the empty string. *)
Fixpoint split (sep : Z) (s : jsstring) : list jsstring :=
  match s with
  | [] => [[]]
  | c :: s' =>
    if c =? sep then [] :: split sep s'
    else match split sep s' with
         | piece :: pieces => (c :: piece) :: pieces
         | [] => [[c]]
         end
  end.

(** ToBoolean of a string: the empty string is the only falsy one. *)
Definition truthy_str (s : jsstring) : bool :=
  match s with [] => false | _ :: _ => true end.

End Js.

Import Js.

(* ================================================================== *)
(** ** Regular expressions, as [String.prototype.match] runs them *)

Module RegExp.

(** Canonicalize of the [i] flag without the [u] flag: the code unit of
    [toUpperCase] when that is a single code unit, except that a
    non-ASCII unit never folds to an ASCII one.  The table is the
    restriction of the Unicode upper-case mapping to Basic Latin and to
    every code unit that folds to a Greek capital; it is the identity
    elsewhere, which is exact for the patterns of this program: no other
    code unit folds to a character they mention. *)
Definition canonicalize (c : Z) : Z :=
  if (0x61 <=? c) && (c <=? 0x7A) then c - 0x20
  else if c =? 0xB5 then 0x39C
  else if c =? 0x345 then 0x399
  else if c =? 0x3AC then 0x386
  else if (0x3AD <=? c) && (c <=? 0x3AF) then c - 0x25
  else if (0x3B1 <=? c) && (c <=? 0x3C1) then c - 0x20
  else if c =? 0x3C2 then 0x3A3
  else if (0x3C3 <=? c) && (c <=? 0x3CB) then c - 0x20
  else if c =? 0x3CC then 0x38C
  else if (0x3CD <=? c) && (c <=? 0x3CE) then c - 0x3F
  else if c =? 0x3D0 then 0x392
  else if c =? 0x3D1 then 0x398
  else if c =? 0x3D5 then 0x3A6
  else if c =? 0x3D6 then 0x3A0
  else if c =? 0x3F0 then 0x39A
  else if c =? 0x3F1 then 0x3A1
  else if c =? 0x3F5 then 0x395
  else if c =? 0x1FBE then 0x399
  else c.

Definition members (cls : charclass) : list Z :=
  flat_map (fun r => map (fun i => fst r + Z.of_nat i)
                         (seq 0 (Z.to_nat (snd r - fst r + 1)))) cls.

(** A pattern character matches a code unit when both canonicalize to
    the same unit. *)
Definition char_matches (p c : Z) : bool :=
  canonicalize p =? canonicalize c.

(** A class matches a code unit when one of its members canonicalizes to
    the same unit (CharacterSetMatcher with IgnoreCase). *)
Definition class_matches (cls : charclass) (c : Z) : bool :=
  existsb (fun a => char_matches a c) (members cls).

(** The fragment of the pattern language the program uses.  The
    quantified atoms of the source are all character classes. *)
Inductive regex : Type :=
| Empty
| Char (c : Z)
| Seq (r1 r2 : regex)
| Alt (r1 r2 : regex)
| Plus (cls : charclass)        (* [cls]+  , greedy *)
| LazyPlus (cls : charclass)    (* [cls]+? , lazy   *)
| Group (r : regex)             (* ( r )   , the capture group *)
| Bol                           (* ^ *)
| Eol.                          (* $ *)

Fixpoint Lit (s : jsstring) : regex :=
  match s with
  | [] => Empty
  | c :: s' => Seq (Char c) (Lit s')
  end.

(** The matcher state: how many code units are consumed, what is left,
    and the capture of the group ([None] is [undefined]). *)
Definition capture := option jsstring.
Definition cont (R : Type) := nat -> jsstring -> capture -> option R.

Section Quantifiers.
Variable R : Type.
Variable cls : charclass.

(** [cls]+ : take as many as possible, give back one at a time. *)
Fixpoint plus_greedy (pos : nat) (s : jsstring) (k : nat -> jsstring -> option R)
  : option R :=
  match s with
  | [] => None
  | c :: s' =>
    if class_matches cls c then
      match plus_greedy (S pos) s' k with
      | Some r => Some r
      | None => k (S pos) s'
      end
    else None
  end.

(** [cls]+? : take one, then as few more as the rest allows. *)
Fixpoint plus_lazy (pos : nat) (s : jsstring) (k : nat -> jsstring -> option R)
  : option R :=
  match s with
  | [] => None
  | c :: s' =>
    if class_matches cls c then
      match k (S pos) s' with
      | Some r => Some r
      | None => plus_lazy (S pos) s' k
      end
    else None
  end.
End Quantifiers.

(** Backtracking matcher in continuation-passing style: alternatives
    are tried left to right, the first success wins. *)
Fixpoint rmatch (R : Type) (r : regex) (pos : nat) (s : jsstring) (cap : capture)
         (k : cont R) : option R :=
  match r with
  | Empty => k pos s cap
  | Char p =>
    match s with
    | c :: s' => if char_matches p c then k (S pos) s' cap else None
    | [] => None
    end
  | Seq r1 r2 =>
    rmatch r1 pos s cap (fun pos' s' cap' => rmatch r2 pos' s' cap' k)
  | Alt r1 r2 =>
    match rmatch r1 pos s cap k with
    | Some res => Some res
    | None => rmatch r2 pos s cap k
    end
  | Plus cls => plus_greedy cls pos s (fun pos' s' => k pos' s' cap)
  | LazyPlus cls => plus_lazy cls pos s (fun pos' s' => k pos' s' cap)
  | Group r1 =>
    rmatch r1 pos s cap
           (fun pos' s' _ => k pos' s' (Some (firstn (pos' - pos) s)))
  | Bol => match pos with O => k pos s cap | S _ => None end
  | Eol => match s with [] => k pos s cap | _ :: _ => None end
  end.

(** A match at the current position: the group's capture. *)
Definition match_here (r : regex) (pos : nat) (s : jsstring) : option capture :=
  rmatch r pos s None (fun _ _ cap => Some cap).

(** The leftmost match from position [pos] on. *)
Fixpoint exec_from (r : regex) (pos : nat) (s : jsstring) : option capture :=
  match match_here r pos s with
  | Some cap => Some cap
  | None =>
    match s with
    | [] => None
    | _ :: s' => exec_from r (S pos) s'
    end
  end.

(** [str.match(re)] for a pattern without the [g] flag: [None] is
    [null], [Some cap] the match array with [cap] as its element 1. *)
Definition exec (r : regex) (s : jsstring) : option capture := exec_from r 0 s.

(** [(str.match(re) || []).length] for a one-class pattern with the [g]
    flag and without the [i] flag: the code units of the class. *)
Definition count_matches (cls : charclass) (s : jsstring) : Z :=
  Z.of_nat (length (filter (in_class cls) s)).

End RegExp.

Import RegExp.


(* ================================================================== *)
(** ** The metadata extractor: [processSmartMetadata] *)

Module Extractor.

(** The record the extractor returns. *)
Record metadata : Type := Metadata {
  title : jsstring;
  composer : jsstring;
  rawText : jsstring
}.

(** [/[Α-Ωα-ωά-ώ]/g] *)
Definition greek_letters : charclass :=
  [ (0x391, 0x3A9); (0x3B1, 0x3C9); (0x3AC, 0x3CE) ].

(** [/[A-Za-z]/g] *)
Definition latin_letters : charclass :=
  [ (0x41, 0x5A); (0x61, 0x7A) ].

(** The class of the third pattern of [isCleanLine], every character of
    the source listed in its order (runs of consecutive code points as
    one range): combining marks, Greek breathings and accents, quotes,
    leaders, dashes, dots, bullets, geometric shapes U+25F0..U+25FF and
    the miscellaneous symbols U+2600..U+266F. *)
Definition noise_chars : charclass :=
  [ (0x313, 0x313); (0x300, 0x301); (0x308, 0x308); (0x342, 0x342);
    (0x345, 0x345); (0x1FBD, 0x1FBD); (0x1FFE, 0x1FFE); (0x1FBF, 0x1FBF);
    (0x1FCE, 0x1FCE); (0x1FCD, 0x1FCD); (0x1FCF, 0x1FCF); (0x1FDD, 0x1FDF);
    (0x1FED, 0x1FED); (0x385, 0x385); (0x60, 0x60); (0x384, 0x384);
    (0x27, 0x27); (0x201B, 0x201B); (0x22, 0x22); (0x201F, 0x201F);
    (0x2024, 0x2027); (0x2D, 0x2D); (0x2013, 0x2015); (0x2E, 0x2E);
    (0xB7, 0xB7); (0x2022, 0x2022); (0x25CB, 0x25CB); (0x25CF, 0x25CF);
    (0x25E6, 0x25E6); (0x25D8, 0x25D9); (0x25CC, 0x25CE); (0x25D0, 0x25D7);
    (0x25F0, 0x266F) ].

Definition isCleanLine (text : jsstring) : bool :=
  let greekLetters := count_matches greek_letters text in
  let latinLetters := count_matches latin_letters text in
  let totalLetters := greekLetters + latinLetters in
  let noiseChars := count_matches noise_chars text in
  (totalLetters >=? 3) && (totalLetters >? noiseChars).

(** [/^(Μουσική|Στίχοι|Music|Lyrics|Composer):/i] *)
Definition label_re : regex :=
  Seq Bol
      (Seq (Group (Alt (Lit (js "Μουσική"))
                  (Alt (Lit (js "Στίχοι"))
                  (Alt (Lit (js "Music"))
                  (Alt (Lit (js "Lyrics"))
                       (Lit (js "Composer")))))))
           (Char 0x3A)).

(** [[Α-Ωα-ωά-ώA-Za-z\s]] *)
Definition name_chars : charclass :=
  greek_letters ++ latin_letters ++ white_space.

(** [[:\s]] *)
Definition colon_or_space : charclass := (0x3A, 0x3A) :: white_space.

(** [/Μουσική[:\s]+([Α-Ωα-ωά-ώA-Za-z\s]+?)(?:\s+Στίχοι|\s+Lyrics|$)/i] *)
Definition music_re : regex :=
  Seq (Lit (js "Μουσική"))
      (Seq (Plus colon_or_space)
           (Seq (Group (LazyPlus name_chars))
                (Alt (Seq (Plus white_space) (Lit (js "Στίχοι")))
                (Alt (Seq (Plus white_space) (Lit (js "Lyrics")))
                     Eol)))).

(** [/Στίχοι[:\s]+([Α-Ωα-ωά-ώA-Za-z\s]+?)(?:\s+Μουσική|\s+Music|$)/i] *)
Definition lyrics_re : regex :=
  Seq (Lit (js "Στίχοι"))
      (Seq (Plus colon_or_space)
           (Seq (Group (LazyPlus name_chars))
                (Alt (Seq (Plus white_space) (Lit (js "Μουσική")))
                (Alt (Seq (Plus white_space) (Lit (js "Music")))
                     Eol)))).

(** The [length] property of a string or of an array. *)
Definition length_of (A : Type) (s : list A) : Z := Z.of_nat (length s).

(** [rawText.split('\n').map(l => l.trim()).filter(l => l.length > 0)] *)
Definition textLines (rawText : jsstring) : list jsstring :=
  filter (fun l => length_of l >? 0) (map trim (split 0x0A rawText)).

(** The first loop: [title] is still [""] when the loop runs out. *)
Fixpoint title_loop (lines : list jsstring) : jsstring :=
  match lines with
  | [] => []
  | line :: rest =>
    if negb (isCleanLine line) then title_loop rest
    else match exec label_re line with
         | Some _ => title_loop rest
         | None => if length_of line >=? 4 then line else title_loop rest
         end
  end.

(** [m[1].trim()]: calling [trim] on [undefined] throws a TypeError. *)
Definition trim_group (m : capture) : completion jsstring :=
  match m with
  | Some g => Normal (trim g)
  | None => Throw
  end.

(** The second loop, from the current value of [composer]. *)
Fixpoint label_loop (lines : list jsstring) (composer : jsstring)
  : completion jsstring :=
  match lines with
  | [] => Normal composer
  | line :: rest =>
    match exec music_re line with
    | Some musicMatch => trim_group musicMatch
    | None =>
      match exec lyrics_re line with
      | Some lyricsMatch =>
        if negb (truthy_str composer) then
          match trim_group lyricsMatch with
          | Normal c => label_loop rest c
          | Throw => Throw
          end
        else label_loop rest composer
      | None => label_loop rest composer
      end
    end
  end.

(** The third loop, run when [composer] is still falsy. *)
Fixpoint fallback_loop (lines : list jsstring) (title : jsstring)
         (foundTitle : bool) : jsstring :=
  match lines with
  | [] => []
  | line :: rest =>
    if negb (isCleanLine line) then fallback_loop rest title foundTitle
    else if negb foundTitle then fallback_loop rest title true
    else if negb (str_eqb line title) && (length_of line >=? 3) then line
    else fallback_loop rest title foundTitle
  end.

(** [processSmartMetadata(tesseractData)], as a function of
    [tesseractData.text || ""]. *)
Definition processSmartMetadata (rawText : jsstring) : completion metadata :=
  let lines := textLines rawText in
  if (length_of lines =? 0) then Normal (Metadata [] [] [])
  else
    let title := title_loop lines in
    match label_loop lines [] with
    | Throw => Throw
    | Normal composer =>
      let composer :=
        if negb (truthy_str composer) then fallback_loop lines title false
        else composer in
      Normal (Metadata title composer rawText)
    end.

(** The operation the specification calls [extract]. *)
Definition extract := processSmartMetadata.

End Extractor.

Import Extractor.

(* ================================================================== *)
(** ** The annotation compositor: the loop of the download handler *)

Module Compositor.

(** JavaScript numbers are kept abstract: the handler only multiplies,
    subtracts and adds them, tests them for truthiness, and writes
    literals.  IEEE doubles are one instance, exact rationals another. *)
Class JsNumber (num : Type) : Type := {
  mul : num -> num -> num;
  sub : num -> num -> num;
  add : num -> num -> num;
  lit : Q -> num;
  truthy : num -> bool
}.

(** What the handler looks at in the value [JSON.parse] returns for a
    colour: whether it is [null], and else its properties [r], [g] and
    [b], where they are numbers. *)
Inductive parsed (num : Type) : Type :=
| PNull                           (* null: reading a property of it throws *)
| PValue (r g b : option num).    (* its r, g, b; None: not a number *)
Arguments PNull {num}.
Arguments PValue {num} r g b.

(** A point [{x, y}]. *)
Record point (num : Type) : Type := Point { px : num; py : num }.

(** What [page.getSize()] returns. *)
Record page (num : Type) : Type := Page { width : num; height : num }.

(** The options the handler passes to [page.drawLine] and, with the
    embedded Helvetica font, to [page.drawText]. *)

Record line_options (num Color : Type) : Type := LineOptions {
  line_start : point num;
  line_end : point num;
  line_thickness : num;
  line_color : Color;
  line_opacity : num
}.

Record text_options (num Color : Type) : Type := TextOptions {
  text_x : num;
  text_y : num;
  text_size : num;
  text_color : Color
}.

(** What the handler calls outside this repository: [JSON.parse] and
    pdf-lib's [rgb], [page.drawLine] and [page.drawText].  Each can throw:
    [JSON.parse] on a text that is no JSON, the others when an argument
    fails their assertions. *)
Class PdfLib (num Color : Type) : Type := {
  JSON_parse : jsstring -> completion (parsed num);
  rgb : num -> num -> num -> completion Color;
  drawLine_accepts : line_options num Color -> bool;
  drawText_accepts : jsstring -> text_options num Color -> bool
}.

(** An element of a page's array, by its [type] field: the fields the
    handler reads, [None] where the field is [undefined]; a [null]
    entry of [points] is [None].  [OtherAnn] is an element of neither
    type; [Malformed] is one on which the [try] block throws before it
    draws: [null], whose [type] cannot be read, or a path whose
    [points] have no [map]. *)
Inductive annotation (num : Type) : Type :=
| PathAnn (points : list (option (point num))) (color : option jsstring)
          (opacity strokeWidth : option num)
| TextAnn (text : jsstring) (x y : num) (size : option num)
          (color : option jsstring)
| OtherAnn
| Malformed.
Arguments OtherAnn {num}.
Arguments Malformed {num}.

(** The value of a key of the annotation map, as the handler uses it in
    [(targetAnnotations[pageIndex] || []).forEach]: a falsy value
    ([null], [false], [0], the empty string), which [[]] replaces; an
    array; or any other value, which has no [forEach]. *)
Inductive page_value (num : Type) : Type :=
| Falsy
| Annotations (pageAnns : list (annotation num))
| NotArray.
Arguments Falsy {num}.
Arguments NotArray {num}.

(** A drawing call that went through, on the page of the given index. *)
Inductive drawing (num Color : Type) : Type :=
| DrawLine (pageIndex : nat) (o : line_options num Color)
| DrawText (pageIndex : nat) (text : jsstring) (o : text_options num Color).

(** [parseInt(string)] without a radix; [None] is NaN.  The integer is
    kept exact: the handler only compares it with [pages.length] and
    subtracts 1 when it is in range, which rounding does not change. *)
Definition digit_value (radix c : Z) : option Z :=
  let v := if (0x30 <=? c) && (c <=? 0x39) then c - 0x30
           else if (0x61 <=? c) && (c <=? 0x7A) then c - 0x61 + 10
           else if (0x41 <=? c) && (c <=? 0x5A) then c - 0x41 + 10
           else radix in
  if v <? radix then Some v else None.

Fixpoint parse_digits (radix : Z) (s : jsstring) (acc : option Z) : option Z :=
  match s with
  | [] => acc
  | c :: s' =>
    match digit_value radix c with
    | Some v =>
      parse_digits radix s'
                   (Some (match acc with Some a => a * radix + v | None => v end))
    | None => acc
    end
  end.

Definition parseInt (s : jsstring) : option Z :=
  let s0 := trimStart s in
  let signed :=
    match s0 with
    | c :: s1 => if c =? 0x2D then (-1, s1)
                 else if c =? 0x2B then (1, s1) else (1, s0)
    | [] => (1, s0)
    end in
  let prefixed :=
    match snd signed with
    | c :: d :: s2 =>
      if (c =? 0x30) && ((d =? 0x78) || (d =? 0x58)) then (16, s2)
      else (10, snd signed)
    | _ => (10, snd signed)
    end in
  match parse_digits (fst prefixed) (snd prefixed) None with
  | Some n => Some (fst signed * n)
  | None => None
  end.

Section Handler.
Context {num Color : Type} {N : JsNumber num} {L : PdfLib num Color}.

(** The document under construction: the drawing calls made so far. *)
Definition canvas : Type := list (drawing num Color).

(** Computations of the handler: they add drawings and may throw; what
    was drawn before an exception stays drawn. *)
Definition M (A : Type) : Type := canvas -> completion A * canvas.

Definition ret (A : Type) (a : A) : M A := fun cv => (Normal a, cv).

Definition throw (A : Type) : M A := fun cv => (Throw, cv).

Definition bind (A B : Type) (m : M A) (f : A -> M B) : M B :=
  fun cv => match m cv with
            | (Normal a, cv') => f a cv'
            | (Throw, cv') => (Throw, cv')
            end.

#[local] Notation "x <- m ;; k" := (bind m (fun x => k))
  (at level 61, m at next level, right associativity).

(** [try { m } catch (e) { console.error(...) }] *)
Definition try_catch (m : M unit) : M unit :=
  fun cv => match m cv with
            | (Normal a, cv') => (Normal a, cv')
            | (Throw, cv') => (Normal tt, cv')
            end.

Definition lift (A : Type) (c : completion A) : M A :=
  fun cv => (c, cv).

(** [array.forEach(f)]: an exception of [f] ends the iteration. *)
Fixpoint forEach (A : Type) (l : list A) (f : A -> M unit) : M unit :=
  match l with
  | [] => ret tt
  | a :: l' => _ <- f a ;; forEach l' f
  end.

Definition drawLine (pageIndex : nat) (o : line_options num Color) : M unit :=
  fun cv => if drawLine_accepts o then (Normal tt, cv ++ [DrawLine pageIndex o])
            else (Throw, cv).

Definition drawText (pageIndex : nat) (text : jsstring)
           (o : text_options num Color) : M unit :=
  fun cv => if drawText_accepts text o
            then (Normal tt, cv ++ [DrawText pageIndex text o])
            else (Throw, cv).

(** [let colorObj = dflt; try { colorObj = ann.color ? JSON.parse(ann.color)
    : colorObj; } catch (e) {}] *)
Definition parse_color (dflt : parsed num) (color : option jsstring) : parsed num :=
  match color with
  | Some c =>
    if truthy_str c then
      match JSON_parse c with
      | Normal v => v
      | Throw => dflt
      end
    else dflt
  | None => dflt
  end.

(** [rgb(colorObj.r, colorObj.g, colorObj.b)] *)
Definition rgb_of (colorObj : parsed num) : completion Color :=
  match colorObj with
  | PNull => Throw
  | PValue (Some r) (Some g) (Some b) => rgb r g b
  | PValue _ _ _ => Throw
  end.

(** [p => ({ x: p.x * width, y: height - (p.y * height) })] *)
Definition to_page (width height : num) (p : point num) : point num :=
  Point (mul (px p) width) (sub height (mul (py p) height)).

(** [ann.points.map(...)]: reading [p.x] of a null entry throws. *)
Fixpoint map_points (width height : num) (points : list (option (point num)))
  : completion (list (point num)) :=
  match points with
  | [] => Normal []
  | None :: _ => Throw
  | Some p :: rest =>
    match map_points width height rest with
    | Normal l => Normal (to_page width height p :: l)
    | Throw => Throw
    end
  end.

(** [for (let i = 0; i < pathPoints.length - 1; i++) page.drawLine(...)] *)
Fixpoint draw_segments (pageIndex : nat) (pathPoints : list (point num))
         (thickness : num) (colorObj : parsed num) (opacity : num) : M unit :=
  match pathPoints with
  | p :: (q :: _) as rest =>
    c <- lift (rgb_of colorObj) ;;
    _ <- drawLine pageIndex (LineOptions p q thickness c opacity) ;;
    draw_segments pageIndex rest thickness colorObj opacity
  | _ => ret tt
  end.

(** [v || dflt] *)
Definition or_default (v : option num) (dflt : num) : num :=
  match v with
  | Some n => if truthy n then n else dflt
  | None => dflt
  end.

(** The body of the [try] block for one annotation. *)
Definition draw_annotation (pageIndex : nat) (width height : num)
           (ann : annotation num) : M unit :=
  match ann with
  | PathAnn points color opacity strokeWidth =>
    if length_of points >? 1 then
      pathPoints <- lift (map_points width height points) ;;
      let colorObj :=
        parse_color (PValue (Some (lit 1)) (Some (lit 1)) (Some (lit 0))) color in
      let opacity := match opacity with Some o => o | None => lit (1#2) end in
      let thickness := or_default strokeWidth (lit 5) in
      draw_segments pageIndex pathPoints thickness colorObj opacity
    else ret tt
  | TextAnn text x y size color =>
    if truthy_str text then
      let fontSize := or_default size (lit 12) in
      let x := mul x width in
      let y := add (sub (sub height (mul y height)) fontSize) (lit 2) in
      let colorObj :=
        parse_color (PValue (Some (lit 0)) (Some (lit 0)) (Some (lit 0))) color in
      c <- lift (rgb_of colorObj) ;;
      drawText pageIndex text (TextOptions x y fontSize c)
    else ret tt
  | OtherAnn => ret tt
  | Malformed => throw unit
  end.

(** [pageNum >= 1 && pageNum <= pages.length] *)
Definition in_range (pages : list (page num)) (pageIndex : jsstring) : bool :=
  match parseInt pageIndex with
  | Some pageNum => (pageNum >=? 1) && (pageNum <=? length_of pages)
  | None => false
  end.

(** [targetAnnotations[pageIndex] || []], as far as [forEach] can be
    called on it: calling it on a value that is no array throws. *)
Definition annotations_of (value : page_value num)
  : completion (list (annotation num)) :=
  match value with
  | Falsy => Normal []
  | Annotations pageAnns => Normal pageAnns
  | NotArray => Throw
  end.

(** The callback of [Object.keys(targetAnnotations).forEach]: the
    annotation map is the list of its keys, in the order [Object.keys]
    gives them, each with its value.  [pageAnns.forEach] is outside the
    [try] of the annotations: its exception leaves the callback. *)
Definition annotate_page (pages : list (page num))
           (entry : jsstring * page_value num) : M unit :=
  let pageIndex := fst entry in
  match parseInt pageIndex with
  | Some pageNum =>
    if (pageNum >=? 1) && (pageNum <=? length_of pages) then
      match nth_error pages (Z.to_nat (pageNum - 1)) with
      | Some pg =>
        pageAnns <- lift (annotations_of (snd entry)) ;;
        forEach pageAnns (fun ann =>
          try_catch (draw_annotation (Z.to_nat (pageNum - 1))
                                     (width pg) (height pg) ann))
      | None => throw unit   (* page.getSize() of undefined *)
      end
    else ret tt
  | None => ret tt
  end.

Definition applyAnnotations (pages : list (page num))
           (targetAnnotations : list (jsstring * page_value num)) : M unit :=
  forEach targetAnnotations (annotate_page pages).

(** The [try] block of the handler from [PDFDocument.load] on: loading
    the document, embedding the font and [pdfDoc.save()] can throw; the
    exception reaches the handler's own [catch], which answers 500. *)
Definition annotated_pdf (A : Type) (load : completion (list (page num)))
           (embedFont : completion unit) (save : canvas -> completion A)
           (targetAnnotations : list (jsstring * page_value num))
  : completion A :=
  match load with
  | Throw => Throw
  | Normal pages =>
    match embedFont with
    | Throw => Throw
    | Normal _ =>
      match applyAnnotations pages targetAnnotations [] with
      | (Normal _, cv) => save cv
      | (Throw, _) => Throw
      end
    end
  end.

End Handler.

End Compositor.

Import Compositor.


(* ================================================================== *)
(** ** The text-layer strategy and the OCR route *)

Module Ocr.

(** [a || b] on strings, [None] being [undefined] or [null]. *)
Definition or_str (a : option jsstring) (b : jsstring) : jsstring :=
  match a with
  | Some s => if truthy_str s then s else b
  | None => b
  end.

(** [s.startsWith(prefix)] *)
Fixpoint startsWith (prefix s : jsstring) : bool :=
  match prefix, s with
  | [], _ => true
  | _ :: _, [] => false
  | a :: prefix', c :: s' => (a =? c) && startsWith prefix' s'
  end.

(** [extractMetadataFromPdf], as a function of [data.text]: the first
    two lines, whatever they are. *)
Definition extractMetadataFromPdf (text : jsstring) : metadata :=
  let lines := textLines text in
  Metadata (or_str (nth_error lines 0) []) (or_str (nth_error lines 1) []) text.

(** What [POST /api/ocr] answers. *)
Inductive ocr_response : Type :=
| NoFile                      (* 400, "No file uploaded" *)
| Warning (text : jsstring)   (* 200, empty title and composer, a warning *)
| Found (md : metadata)       (* 200, the metadata *)
| OcrFailed.                  (* 500 *)

Definition no_text_warning : jsstring :=
  js "No embedded text found in PDF. Please convert to image for OCR.".

Definition unsupported_warning : jsstring :=
  js "Unsupported file type for OCR".

(** The end of the [try] block: [fs.unlinkSync(req.file.path)], which
    can throw, then [res.json(metadata)].  The boolean tells whether the
    uploaded temporary file was removed. *)
Definition cleanup_and_answer (unlink : completion unit) (md : metadata)
  : ocr_response * bool :=
  match unlink with
  | Normal _ => (Found md, true)
  | Throw => (OcrFailed, false)
  end.

(** The route, given the MIME type of the uploaded file ([None]: no
    file), what [pdfParse] and Tesseract read from it and what
    [unlinkSync] does. *)
Definition ocr_route (mimetype : option jsstring)
           (pdfText ocrText : completion jsstring) (unlink : completion unit)
  : ocr_response * bool :=
  match mimetype with
  | None => (NoFile, false)
  | Some mimetype =>
    if str_eqb mimetype (js "application/pdf") then
      match pdfText with
      | Throw => (OcrFailed, false)
      | Normal text =>
        let metadata := extractMetadataFromPdf text in
        if negb (truthy_str (title metadata)) &&
           negb (truthy_str (composer metadata)) &&
           negb (truthy_str (rawText metadata))
        then (Warning no_text_warning, false)
        else cleanup_and_answer unlink metadata
      end
    else if startsWith (js "image/") mimetype then
      match ocrText with
      | Throw => (OcrFailed, false)
      | Normal text =>
        match processSmartMetadata text with
        | Throw => (OcrFailed, false)
        | Normal metadata => cleanup_and_answer unlink metadata
        end
      end
    else (Warning unsupported_warning, false)
  end.

End Ocr.

Import Ocr.

(* ================================================================== *)
(** ** The download handler around the compositor *)

Module Download.

(** [\w] *)
Definition word_chars : charclass :=
  [ (0x30, 0x39); (0x41, 0x5A); (0x5F, 0x5F); (0x61, 0x7A) ].

(** The characters [/[^\w\s.-]/g] leaves alone. *)
Definition kept_chars : charclass :=
  word_chars ++ white_space ++ [ (0x2E, 0x2E); (0x2D, 0x2D) ].

(** [s.replace(/[^\w\s.-]/g, '_')]: code unit by code unit. *)
Definition replace_unsafe (s : jsstring) : jsstring :=
  map (fun c => if in_class kept_chars c then c else 0x5F) s.

(** [s.substring(0, n)] *)
Definition substring_from_0 (n : nat) (s : jsstring) : jsstring := firstn n s.

(** [(sheet.title || 'sheet').replace(/[^\w\s.-]/g, '_').substring(0, 50)] *)
Definition safeTitle (title : option jsstring) : jsstring :=
  substring_from_0 50 (replace_unsafe (or_str title (js "sheet"))).

(** [`attachment; filename="${safeTitle}_annotated.pdf"`] *)
Definition content_disposition (safeTitle : jsstring) : jsstring :=
  js "attachment; filename=" ++ [0x22] ++ safeTitle ++ js "_annotated.pdf" ++ [0x22].

(** The code units that Node accepts in the value of a header: the
    tab, and those from 0x20 to 0x7E and from 0x80 to 0xFF;
    [res.setHeader] throws on a value that holds any other. *)
Definition header_chars : charclass :=
  [ (0x09, 0x09); (0x20, 0x7E); (0x80, 0xFF) ].

Definition valid_header_value (value : jsstring) : bool :=
  forallb (in_class header_chars) value.

(** The columns of the sheet row the handler reads; [None] is [null].
    The annotations are the keys of the stored value, in the order of
    [Object.keys], each with its value. *)
Record sheet_row (num : Type) : Type := SheetRow {
  sheet_file_url : option jsstring;
  sheet_title : option jsstring;
  sheet_annotations : option (list (jsstring * page_value num))
}.

(** What [GET /api/sheets/:id/download] answers. *)
Inductive download_response (A : Type) : Type :=
| NotFound                      (* 404, "File not found" *)
| Redirect (url : jsstring)     (* res.redirect(sheet.file_url) *)
| FetchFailed                   (* 500, "Failed to fetch original PDF" *)
| DownloadFailed                (* 500, from the handler's catch *)
| Attachment (disposition : jsstring) (body : A).
Arguments NotFound {A}.
Arguments Redirect {A} url.
Arguments FetchFailed {A}.
Arguments DownloadFailed {A}.

Section Handler.
Context {num Color : Type} {N : JsNumber num} {L : PdfLib num Color}.

(** The handler, given the rows of the query, the [annotated] query
    parameter, whether [fetch] answered [ok], and what loading the
    document, embedding the font and saving do.  An exception of the
    loop over the annotations or of [res.setHeader] ends in the
    handler's [catch], as the others do. *)
Definition download (A : Type) (rows : completion (list (sheet_row num)))
           (annotated : option jsstring) (fetched : completion bool)
           (load : completion (list (page num)))
           (embedFont : completion unit)
           (save : list (drawing num Color) -> completion A)
  : download_response A :=
  match rows with
  | Throw => DownloadFailed
  | Normal [] => NotFound
  | Normal (sheet :: _) =>
    let file_url := or_str (sheet_file_url sheet) [] in
    if negb (truthy_str file_url) then NotFound
    else
      let targetAnnotations :=
        match sheet_annotations sheet with Some m => m | None => [] end in
      let hasAnnotations := length_of targetAnnotations >? 0 in
      let wanted :=
        match annotated with Some a => str_eqb a (js "true") | None => false end in
      if negb wanted || negb hasAnnotations then Redirect file_url
      else
        match fetched with
        | Throw => DownloadFailed
        | Normal false => FetchFailed
        | Normal true =>
          match annotated_pdf load embedFont save targetAnnotations with
          | Throw => DownloadFailed
          | Normal pdfBytes =>
            let disposition :=
              content_disposition (safeTitle (sheet_title sheet)) in
            if valid_header_value disposition
            then Attachment disposition pdfBytes
            else DownloadFailed   (* res.setHeader throws *)
          end
        end
  end.

End Handler.

End Download.

Import Download.

(* ================================================================== *)
(** ** Form fields of the sheet routes *)

Module Sheets.

(** A pattern that matches nothing: the empty class, repeated. *)
Definition Never : regex := Plus [].

(** A class outside a quantifier, written as the alternation of its
    members; it matches the same code units as the class does. *)
Definition any_of (cls : charclass) : regex :=
  fold_right (fun a r => Alt (Char a) r) Never (members cls).

(** [r{n}] *)
Fixpoint Times (n : nat) (r : regex) : regex :=
  match n with
  | O => Empty
  | S n' => Seq r (Times n' r)
  end.

(** [re.test(str)] *)
Definition test (re : regex) (str : jsstring) : bool :=
  match exec re str with
  | Some _ => true
  | None => false
  end.

(** [[0-9a-f]] *)
Definition hex_digits : charclass := [ (0x30, 0x39); (0x61, 0x66) ].

(** [/^[0-9a-f]{8}-[0-9a-f]{4}-[0-9a-f]{4}-[0-9a-f]{4}-[0-9a-f]{12}$/i] *)
Definition uuid_re : regex :=
  let hex := any_of hex_digits in
  let dash := Char 0x2D in
  Seq Bol
 (Seq (Times 8 hex) (Seq dash
 (Seq (Times 4 hex) (Seq dash
 (Seq (Times 4 hex) (Seq dash
 (Seq (Times 4 hex) (Seq dash
 (Seq (Times 12 hex) Eol))))))))).

Definition isValidUUID (str : jsstring) : bool := test uuid_re str.

(** [array.join(sep)] *)
Fixpoint join (sep : jsstring) (l : list jsstring) : jsstring :=
  match l with
  | [] => []
  | [a] => a
  | a :: rest => a ++ sep ++ join sep rest
  end.

(** [tags ? tags.split(',').map(t => t.trim()).filter(t => t) : []],
    the tags of [POST /api/sheets]; [None] is an absent field. *)
Definition parseTags (tags : option jsstring) : list jsstring :=
  match tags with
  | Some t =>
    if truthy_str t
    then filter truthy_str (map trim (split 0x2C t))
    else []
  | None => []
  end.

(** A value of a request body or of a parsed JSON text, as the routes
    use it: a string, or any other value (a number, a boolean, [null],
    an array, an object), of which they take ToBoolean, and ToString
    through [RegExp.prototype.test]. *)
Inductive value : Type :=
| VString (s : jsstring)
| VOther (text : jsstring) (truthy : bool).

Definition to_string (v : value) : jsstring :=
  match v with
  | VString s => s
  | VOther text _ => text
  end.

Definition to_boolean (v : value) : bool :=
  match v with
  | VString s => truthy_str s
  | VOther _ truthy => truthy
  end.

(** [isValidUUID(v)] for any value: [test] converts its argument to a
    string. *)
Definition isValidUUID_of (v : value) : bool := isValidUUID (to_string v).

(** The field [folderIds]: absent, a string (multipart form), an array
    (JSON body), or any other value. *)
Inductive list_field : Type :=
| Absent
| Text (s : jsstring)
| Items (l : list value)
| Other.

Section FolderIds.

(** [JSON.parse] of a text, where it yields an array; [Throw] stands
    for a text that is no JSON and for a value without [filter], both
    of which end in the [catch]. *)
Variable JSON_parse_array : jsstring -> completion (list value).

(** The folder ids of [POST /api/sheets]: those of [folderIds] that
    pass [isValidUUID], else the legacy [folderId] if it does.  A value
    that is no array has no [filter]: the [catch] leaves no id. *)
Definition createFolderIds (folderIds : list_field) (folderId : option value)
  : list value :=
  let parsedFolderIds :=
    match folderIds with
    | Absent => []
    | Text s =>
      if truthy_str s then
        match JSON_parse_array s with
        | Normal l => filter isValidUUID_of l
        | Throw => []
        end
      else []
    | Items l => filter isValidUUID_of l
    | Other => []
    end in
  match folderId with
  | Some id =>
    if (length_of parsedFolderIds =? 0) && to_boolean id && isValidUUID_of id
    then [id]
    else parsedFolderIds
  | None => parsedFolderIds
  end.

(** The folder ids of [PUT /api/sheets/:id]; [None] is [null], "no
    change". *)
Definition updateFolderIds (folderIds : list_field) (folderId : option value)
  : option (list value) :=
  match folderIds with
  | Text s =>
    match JSON_parse_array s with
    | Normal l => Some (filter isValidUUID_of l)
    | Throw => Some []
    end
  | Items l => Some (filter isValidUUID_of l)
  | Other => Some []
  | Absent =>
    match folderId with
    | Some id =>
      Some (if to_boolean id && isValidUUID_of id then [id] else [])
    | None => None
    end
  end.

End FolderIds.

(** [String(n)] for a natural number: its decimal digits. *)
Fixpoint uint_units (d : Decimal.uint) : jsstring :=
  match d with
  | Decimal.Nil => []
  | Decimal.D0 d' => 0x30 :: uint_units d'
  | Decimal.D1 d' => 0x31 :: uint_units d'
  | Decimal.D2 d' => 0x32 :: uint_units d'
  | Decimal.D3 d' => 0x33 :: uint_units d'
  | Decimal.D4 d' => 0x34 :: uint_units d'
  | Decimal.D5 d' => 0x35 :: uint_units d'
  | Decimal.D6 d' => 0x36 :: uint_units d'
  | Decimal.D7 d' => 0x37 :: uint_units d'
  | Decimal.D8 d' => 0x38 :: uint_units d'
  | Decimal.D9 d' => 0x39 :: uint_units d'
  end.

Definition decimal (n : nat) : jsstring := uint_units (Nat.to_uint n).

(** [validFolderIds.map((fid, i) => `($1, $${i + 2})`).join(', ')] *)
Definition folderValues (validFolderIds : list jsstring) : jsstring :=
  join (js ", ")
       (map (fun i => js "($1, $" ++ decimal (i + 2) ++ js ")")
            (seq 0 (length validFolderIds))).

(** The statement that links a sheet to its folders, and its
    parameters [[sheetId, ...validFolderIds]]. *)
Definition insert_sheet_folders (sheetId : jsstring)
           (validFolderIds : list jsstring) : jsstring * list jsstring :=
  (js "INSERT INTO sheet_folders (sheet_id, folder_id) VALUES "
     ++ folderValues validFolderIds,
   sheetId :: validFolderIds).

End Sheets.

Import Sheets.

(* ================================================================== *)
(** ** The query of [GET /api/sheets] *)

Module Listing.

(** A value of [req.query]: a string for a key given once; an array or
    an object for a repeated or bracketed key, kept here with the text
    that [String] gives for it.  An absent key is [None]. *)
Inductive qvalue : Type :=
| QString (s : jsstring)
| QObject (text : jsstring).

(** ToBoolean: arrays and objects are truthy. *)
Definition truthy_q (v : qvalue) : bool :=
  match v with
  | QString s => truthy_str s
  | QObject _ => true
  end.

(** The value inside a template literal. *)
Definition text_of (v : qvalue) : jsstring :=
  match v with
  | QString s => s
  | QObject text => text
  end.

(** [`%${v}%`] *)
Definition like (v : qvalue) : qvalue :=
  QString (js "%" ++ text_of v ++ js "%").

Record query_string : Type := QueryString {
  q : option qvalue;
  composer : option qvalue;
  instrument : option qvalue;
  genre : option qvalue;
  difficulty : option qvalue;
  key_signature : option qvalue;
  time_signature : option qvalue;
  tempo : option qvalue;
  publisher : option qvalue;
  sort_by : option qvalue;
  order : option qvalue;
  folder_id : option qvalue
}.

(** The three variables the handler updates: [query], [params] and
    [paramIndex]. *)
Record builder : Type := Builder {
  query : jsstring;
  params : list qvalue;
  paramIndex : nat
}.

Definition select_sheets : jsstring :=
  js "
            SELECT s.*, g.name as genre_name,
                   COALESCE(
                       (SELECT array_agg(sf.folder_id)
                        FROM sheet_folders sf
                        WHERE sf.sheet_id = s.id),
                       ARRAY[]::uuid[]
                   ) as folder_ids,
                   (SELECT i.name FROM sheet_instruments si
                    JOIN instruments i ON si.instrument_id = i.id
                    WHERE si.sheet_id = s.id AND si.is_primary = true
                    LIMIT 1) as instrument,
                   CASE WHEN s.user_id = $1 THEN true ELSE false END as is_owner,
                   CASE WHEN s.user_id != $1 THEN u.display_name ELSE null END as shared_by,
                   COALESCE(
                       ss.permission, 
                       (SELECT fs.permission 
                        FROM folder_shares fs
                        JOIN sheet_folders sf ON fs.folder_id = sf.folder_id
                        WHERE sf.sheet_id = s.id AND fs.shared_with_user_id = $1
                        LIMIT 1)
                   ) as share_permission
            FROM sheets s
            LEFT JOIN genres g ON s.genre_id = g.id
            LEFT JOIN sheet_shares ss ON s.id = ss.sheet_id AND ss.shared_with_user_id = $1
            LEFT JOIN users u ON s.user_id = u.id
            WHERE (s.user_id = $1 
               OR ss.shared_with_user_id = $1
               OR EXISTS (
                   SELECT 1 FROM sheet_folders sf
                   JOIN folder_shares fs ON sf.folder_id = fs.folder_id
                   WHERE sf.sheet_id = s.id AND fs.shared_with_user_id = $1
               ))
        ".

(** [if (v) { ... }] *)
Definition when (v : option qvalue) (body : qvalue -> builder -> builder)
           (b : builder) : builder :=
  match v with
  | Some x => if truthy_q x then body x b else b
  | None => b
  end.

(** The body of [if (q)]: one condition on two new parameters. *)
Definition search (v : qvalue) (b : builder) : builder :=
  let i := paramIndex b in
  Builder
    (query b
       ++ js " AND (s.search_vector @@ plainto_tsquery('english', $"
       ++ decimal i
       ++ js ") OR s.title ILIKE $" ++ decimal (i + 1)
       ++ js " OR s.composer ILIKE $" ++ decimal (i + 1)
       ++ js " OR array_to_string(s.tags, ',') ILIKE $" ++ decimal (i + 1)
       ++ js ")")
    (params b ++ [v; like v])
    (i + 2).

(** The body of the other filters:
    [query += `${before}${paramIndex}${after}`; params.push(value);
    paramIndex++]. *)
Definition condition (before after : jsstring) (value : qvalue) (b : builder)
  : builder :=
  Builder (query b ++ before ++ decimal (paramIndex b) ++ after)
          (params b ++ [value])
          (paramIndex b + 1).

Definition instrument_before : jsstring :=
  js " AND EXISTS (
                SELECT 1 FROM sheet_instruments si 
                JOIN instruments i ON si.instrument_id = i.id 
                WHERE si.sheet_id = s.id AND i.name ILIKE $".

Definition instrument_after : jsstring :=
  js "
            )".

Definition allowedSorts : list jsstring :=
  [ js "title"; js "composer"; js "created_at"; js "updated_at";
    js "difficulty"; js "genre_name"; js "instrument" ].

(** [allowedSorts.includes(sort_by) ? sort_by : 'created_at'], with the
    default ['created_at'] of an absent [sort_by]; an array or an object
    is equal to no string. *)
Definition sortColumn (sort_by : option qvalue) : jsstring :=
  match sort_by with
  | Some (QString s) =>
    if existsb (str_eqb s) allowedSorts then s else js "created_at"
  | Some (QObject _) => js "created_at"
  | None => js "created_at"
  end.

(** [String.prototype.toLowerCase], exact on the letters A-Z and on the
    only two other code units whose lower case holds an ASCII letter
    (U+0130 and the Kelvin sign); any other code unit stands for its
    lower case, which is not ASCII either, so that comparing the result
    with an ASCII text is exact. *)
Definition lower_unit (c : Z) : jsstring :=
  if (0x41 <=? c) && (c <=? 0x5A) then [c + 32]
  else if c =? 0x130 then [0x69; 0x307]
  else if c =? 0x212A then [0x6B]
  else [c].

Definition toLowerCase (s : jsstring) : jsstring := flat_map lower_unit s.

(** [order.toLowerCase() === 'asc' ? 'ASC' : 'DESC'], with the default
    ['desc'] of an absent [order]; an array or an object has no
    [toLowerCase], and the call throws. *)
Definition sortOrder (order : option qvalue) : completion jsstring :=
  match order with
  | Some (QString s) =>
    Normal (if str_eqb (toLowerCase s) (js "asc") then js "ASC" else js "DESC")
  | Some (QObject _) => Throw
  | None => Normal (js "DESC")
  end.

(** The filters, in the order of the handler. *)
Definition filters (r : query_string) (b : builder) : builder :=
  let b := when (q r) search b in
  let b := when (composer r)
             (fun v => condition (js " AND s.composer ILIKE $") [] (like v)) b in
  let b := when (instrument r)
             (fun v => condition instrument_before instrument_after (like v)) b in
  let b := when (genre r)
             (fun v => condition (js " AND g.name ILIKE $") [] (like v)) b in
  let b := when (difficulty r)
             (fun v => condition (js " AND s.difficulty = $") [] v) b in
  let b := when (key_signature r)
             (fun v => condition (js " AND s.key_signature = $") [] v) b in
  let b := when (time_signature r)
             (fun v => condition (js " AND s.time_signature = $") [] v) b in
  let b := when (tempo r)
             (fun v => condition (js " AND s.tempo ILIKE $") [] (like v)) b in
  let b := when (publisher r)
             (fun v => condition (js " AND s.publisher ILIKE $") [] (like v)) b in
  when (folder_id r)
       (fun v => condition
          (js " AND EXISTS (SELECT 1 FROM sheet_folders sf WHERE sf.sheet_id = s.id AND sf.folder_id = $")
          (js ")") v) b.

(** The statement and the parameters that the handler passes to
    [db.query], for the user [req.user.id]; [Throw] ends in the [catch],
    with status 500 and no query. *)
Definition sheets_query (user_id : qvalue) (r : query_string)
  : completion (jsstring * list qvalue) :=
  let b := filters r (Builder select_sheets [user_id] 2) in
  match sortOrder (order r) with
  | Normal o =>
    Normal (query b ++ js " ORDER BY " ++ sortColumn (sort_by r)
                    ++ js " " ++ o,
            params b)
  | Throw => Throw
  end.

End Listing.

(* ================================================================== *)
(** ** Deleting sheets *)

Module Deletion.

(** A row of the access check: the sheet, whether the user owns it,
    and the permission of the share, if any. *)
Record access_row : Type := AccessRow {
  id : jsstring;
  storage_key : option jsstring;
  is_owner : bool;
  permission : option jsstring
}.

(** What the routes do to the storage and to the database. *)
Inductive action : Type :=
| DeleteFile (key : jsstring)
| DeleteRow (sheet_id : jsstring).

(** What was attempted so far, oldest first, and whether it succeeded. *)
Definition history : Type := list (action * bool).

Inductive response : Type :=
| Status204
| Status400
| Status403
| Status404
| Status500
| Report (deleted notFound noPermission errors : list jsstring)
         (message : jsstring).

(** [permission === 'full'] *)
Definition is_full (permission : option jsstring) : bool :=
  match permission with
  | Some p => str_eqb p (js "full")
  | None => false
  end.

Section Routes.

(** The storage and the database: whether an action succeeds, which
    may depend on all that was attempted before. *)
Variable succeeds : history -> action -> bool.

Definition perform (a : action) (h : history) : completion unit * history :=
  let ok := succeeds h a in
  (if ok then Normal tt else Throw, h ++ [(a, ok)]).

(** [if (storage_key) { await deleteFile(storage_key); }
    await db.query('DELETE FROM sheets WHERE id = $1', [id]);] *)
Definition delete_stored (key : option jsstring) (sheet_id : jsstring)
           (h : history) : completion unit * history :=
  let stored :=
    match key with
    | Some k => if truthy_str k then perform (DeleteFile k) h else (Normal tt, h)
    | None => (Normal tt, h)
    end in
  match fst stored with
  | Normal _ => perform (DeleteRow sheet_id) (snd stored)
  | Throw => (Throw, snd stored)
  end.

(** [DELETE /api/sheets/:id], given what the access check answers. *)
Definition delete_sheet (sheet_id : jsstring)
           (accessCheck : completion (list access_row)) (h : history)
  : response * history :=
  match accessCheck with
  | Normal [] => (Status404, h)
  | Normal (row :: _) =>
    if negb (is_owner row) && negb (is_full (permission row))
    then (Status403, h)
    else
      let deleted := delete_stored (storage_key row) sheet_id h in
      match fst deleted with
      | Normal _ => (Status204, snd deleted)
      | Throw => (Status500, snd deleted)
      end
  | Throw => (Status500, h)
  end.

(** The loop over [deletableSheets], with [deletedIds] and [errors]
    (of which the ids are kept). *)
Fixpoint delete_all (sheets : list access_row)
         (deletedIds errors : list jsstring) (h : history)
  : list jsstring * list jsstring * history :=
  match sheets with
  | [] => (deletedIds, errors, h)
  | sheet :: rest =>
    let deleted := delete_stored (storage_key sheet) (id sheet) h in
    match fst deleted with
    | Normal _ => delete_all rest (deletedIds ++ [id sheet]) errors (snd deleted)
    | Throw => delete_all rest deletedIds (errors ++ [id sheet]) (snd deleted)
    end
  end.

(** [POST /api/sheets/batch-delete]; [ids] is [None] when the body has
    no array of that name. *)
Definition batch_delete (ids : option (list jsstring))
           (accessCheck : completion (list access_row)) (h : history)
  : response * history :=
  match ids with
  | None => (Status400, h)
  | Some [] => (Status400, h)
  | Some ids =>
    match accessCheck with
    | Normal accessibleSheets =>
      let deletableSheets :=
        filter (fun sheet => is_owner sheet || is_full (permission sheet))
               accessibleSheets in
      if length_of deletableSheets =? 0 then (Status403, h)
      else
        let done := delete_all deletableSheets [] [] h in
        let deletedIds := fst (fst done) in
        let errors := snd (fst done) in
        let notFoundIds :=
          filter (fun i => negb (existsb (fun s => str_eqb (id s) i)
                                         accessibleSheets)) ids in
        let noPermissionIds :=
          map id (filter (fun s => negb (is_owner s)
                                   && negb (is_full (permission s)))
                         accessibleSheets) in
        (Report deletedIds notFoundIds noPermissionIds errors
                (js "Successfully deleted " ++ decimal (length deletedIds)
                    ++ js " of " ++ decimal (length ids) ++ js " sheets"),
         snd done)
    | Throw => (Status500, h)
    end
  end.

End Routes.

End Deletion.

(* ================================================================== *)
(** ** The admin key and the log buffer *)

Module Admin.

Import Listing.

(** [process.env.ADMIN_KEY || 'admin123'] *)
Definition ADMIN_KEY (env : option jsstring) : jsstring :=
  or_str env (js "admin123").

(** [a || b] on values of the request. *)
Definition or_value (a b : option qvalue) : option qvalue :=
  match a with
  | Some v => if truthy_q v then a else b
  | None => b
  end.

(** ToBoolean of a value that may be [undefined]. *)
Definition truthy_value (key : option qvalue) : bool :=
  match key with
  | Some v => truthy_q v
  | None => false
  end.

(** [key === s] for a string [s]. *)
Definition strict_eq (key : option qvalue) (s : jsstring) : bool :=
  match key with
  | Some (QString k) => str_eqb k s
  | Some (QObject _) => false
  | None => false
  end.

(** [requireAdmin]: [true] is [next()], [false] the status 401.  The
    key is [req.query.key || req.headers['x-admin-key']]. *)
Definition requireAdmin (env : option jsstring) (query_key : option qvalue)
           (header : option jsstring) : bool :=
  let key := or_value query_key (option_map QString header) in
  truthy_value key && strict_eq key (ADMIN_KEY env).

(** [GET /]: [true] is the dashboard, [false] the login form
    ([!key || key !== ADMIN_KEY]). *)
Definition dashboard (env : option jsstring) (query_key : option qvalue)
  : bool :=
  negb (negb (truthy_value query_key)
        || negb (strict_eq query_key (ADMIN_KEY env))).

Definition LOG_BUFFER_SIZE : nat := 1000.

(** [logBuffer.unshift(logEntry);
    if (logBuffer.length > LOG_BUFFER_SIZE) logBuffer.pop();] *)
Definition pushLog (entry : Type) (logBuffer : list entry) (logEntry : entry)
  : list entry :=
  let logBuffer := logEntry :: logBuffer in
  if (LOG_BUFFER_SIZE <? length logBuffer)%nat
  then removelast logBuffer
  else logBuffer.

End Admin.

(* ================================================================== *)
(** ** The authentication middleware *)

Module Auth.

(** What [jwt.verify(token, JWT_SECRET)] does: it returns the payload,
    of which the middleware reads [userId] and [email], or throws. *)
Inductive verification : Type :=
| Verified (userId email : jsstring)
| TokenExpiredError
| OtherError.

Record user : Type := User { user_id : jsstring; user_email : jsstring }.

Inductive outcome : Type :=
| Next (u : user)
| Status401 (error : jsstring).

Section Middleware.

(** The token is [None] when it is [undefined]. *)
Variable verify : option jsstring -> verification.

Definition authenticate (authHeader : option jsstring) : outcome :=
  match authHeader with
  | Some h =>
    if negb (truthy_str h) || negb (startsWith (js "Bearer ") h)
    then Status401 (js "Authentication required")
    else
      let token := nth_error (split 0x20 h) 1 in
      match verify token with
      | Verified userId email => Next (User userId email)
      | TokenExpiredError => Status401 (js "Token expired")
      | OtherError => Status401 (js "Invalid token")
      end
  | None => Status401 (js "Authentication required")
  end.

(** [optionalAuth] always calls [next()]; the result is [req.user]. *)
Definition optionalAuth (authHeader : option jsstring) : option user :=
  match authHeader with
  | Some h =>
    if negb (truthy_str h) || negb (startsWith (js "Bearer ") h)
    then None
    else
      let token := nth_error (split 0x20 h) 1 in
      match verify token with
      | Verified userId email => Some (User userId email)
      | TokenExpiredError => None
      | OtherError => None
      end
  | None => None
  end.

End Middleware.

End Auth.
(* ================================================================== *)
(** ** The vocabulary of the specification *)

(** The declarative reading of the pattern language: [matches r pos s cap
    pos' s' cap'] when [r] can consume a prefix of [s] from position
    [pos], leaving [s'] at position [pos'] and the capture [cap']. *)
Inductive matches : regex -> nat -> jsstring -> capture ->
                    nat -> jsstring -> capture -> Prop :=
| M_Empty pos s cap : matches Empty pos s cap pos s cap
| M_Char p c pos s cap :
    char_matches p c = true ->
    matches (Char p) pos (c :: s) cap (S pos) s cap
| M_Seq r1 r2 pos s cap pos1 s1 cap1 pos2 s2 cap2 :
    matches r1 pos s cap pos1 s1 cap1 ->
    matches r2 pos1 s1 cap1 pos2 s2 cap2 ->
    matches (Seq r1 r2) pos s cap pos2 s2 cap2
| M_AltL r1 r2 pos s cap pos' s' cap' :
    matches r1 pos s cap pos' s' cap' ->
    matches (Alt r1 r2) pos s cap pos' s' cap'
| M_AltR r1 r2 pos s cap pos' s' cap' :
    matches r2 pos s cap pos' s' cap' ->
    matches (Alt r1 r2) pos s cap pos' s' cap'
| M_Plus cls pos w s' cap :
    w <> [] -> Forall (fun c => class_matches cls c = true) w ->
    matches (Plus cls) pos (w ++ s') cap (pos + length w)%nat s' cap
| M_LazyPlus cls pos w s' cap :
    w <> [] -> Forall (fun c => class_matches cls c = true) w ->
    matches (LazyPlus cls) pos (w ++ s') cap (pos + length w)%nat s' cap
| M_Group r pos s cap pos' s' cap' :
    matches r pos s cap pos' s' cap' ->
    matches (Group r) pos s cap pos' s' (Some (firstn (pos' - pos) s))
| M_Bol s cap : matches Bol 0 s cap 0 s cap
| M_Eol pos cap : matches Eol pos [] cap pos [] cap.

Create HintDb regex.
#[local] Hint Constructors matches : regex.

Fixpoint groupless (r : regex) : bool :=
  match r with
  | Seq r1 r2 | Alt r1 r2 => groupless r1 && groupless r2
  | Group _ => false
  | _ => true
  end.


(** The label prefixes the specification lists for title selection. *)
Definition label_prefixes : list jsstring :=
  [ js "Μουσική:"; js "Στίχοι:"; js "Music:"; js "Lyrics:"; js "Composer:" ].

(** [s] starts with [prefix], case-insensitively. *)
Fixpoint starts_with_ci (prefix s : jsstring) : bool :=
  match prefix, s with
  | [], _ => true
  | _ :: _, [] => false
  | a :: prefix', c :: s' => char_matches a c && starts_with_ci prefix' s'
  end.

Definition starts_with_label (line : jsstring) : bool :=
  existsb (fun p => starts_with_ci p line) label_prefixes.

(** A title candidate in the words of the specification: a clean line
    that carries no label prefix and has at least 4 code units. *)
Definition title_candidate (line : jsstring) : bool :=
  isCleanLine line && negb (starts_with_label line) && (length_of line >=? 4).

(** A composer candidate of the positional fallback: a line other than
    the title, of at least 3 code units. *)
Definition composer_candidate (title line : jsstring) : bool :=
  negb (str_eqb line title) && (length_of line >=? 3).

(** [x] is the first element of [l] that passes [P], or the empty string
    when no element does. *)
Definition first_or_empty (P : jsstring -> bool) (l : list jsstring)
           (x : jsstring) : Prop :=
  (exists pre post, l = pre ++ x :: post /\
                    Forall (fun y => P y = false) pre /\ P x = true)
  \/ (Forall (fun y => P y = false) l /\ x = []).

(** [hay.includes(needle)] *)
Fixpoint starts_with (prefix s : jsstring) : bool :=
  match prefix, s with
  | [], _ => true
  | _ :: _, [] => false
  | a :: prefix', c :: s' => (a =? c) && starts_with prefix' s'
  end.

Fixpoint includes (needle hay : jsstring) : bool :=
  starts_with needle hay ||
  match hay with
  | [] => false
  | _ :: hay' => includes needle hay'
  end.

(** Dashes, underline characters and bullets: hyphen-minus, low line,
    middle dot, the dashes U+2010..U+2015, double low line, bullet and
    triangular bullet, hyphen bullet, bullet operator, small squares,
    white and black circle, white bullet. *)
Definition ornaments : charclass :=
  [ (0x2D, 0x2D); (0x5F, 0x5F); (0xB7, 0xB7); (0x2010, 0x2015);
    (0x2017, 0x2017); (0x2022, 0x2023); (0x2043, 0x2043); (0x2219, 0x2219);
    (0x25AA, 0x25AB); (0x25CB, 0x25CB); (0x25CF, 0x25CF); (0x25E6, 0x25E6) ].

Definition only_ornaments (line : jsstring) : bool :=
  forallb (in_class ornaments) line.

Definition is_some (A : Type) (o : option A) : bool :=
  match o with Some _ => true | None => false end.

(** What follows the group of the label pattern: the colon. *)
Definition after_label (line : jsstring) : cont capture :=
  fun pos' s' _ =>
    rmatch (Char 0x3A) pos' s' (Some (firstn (pos' - 0) line))
           (fun _ _ cap => Some cap).


(** A string made of code units of the name class only. *)
Definition name_only (s : jsstring) : Prop :=
  Forall (fun c => class_matches name_chars c = true) s.


(** The example page of the specification, and a page whose Μουσική
    label is followed by no name. *)
Definition beethoven_page : jsstring :=
  js "Symphony No. 5" ++ [0x0A] ++ js "Ludwig van Beethoven" ++ [0x0A] ++
  js "Music: L. Beethoven".



Definition ruled_page : jsstring :=
  js "Song of Songs" ++ [0x0A] ++ js "-----" ++ [0x0A] ++ js "Anonymous".


Section CompositorVocabulary.
Context {num Color : Type} {N : JsNumber num} {L : PdfLib num Color}.

(** What one annotation adds to a page, taken on its own: the drawings
    of its [try] block on an empty canvas. *)
Definition annotation_drawings (pageIndex : nat) (width height : num)
           (ann : annotation num) : list (drawing num Color) :=
  snd (draw_annotation pageIndex width height ann []).

(** What one key of the annotation map adds: nothing when its page
    number is out of range or its value is no array, else what each of
    its annotations adds. *)
Definition page_drawings (pages : list (page num))
           (entry : jsstring * page_value num) : list (drawing num Color) :=
  match parseInt (fst entry) with
  | Some pageNum =>
    if in_range pages (fst entry) then
      match nth_error pages (Z.to_nat (pageNum - 1)), snd entry with
      | Some pg, Annotations pageAnns =>
        flat_map (annotation_drawings (Z.to_nat (pageNum - 1))
                                      (width pg) (height pg)) pageAnns
      | _, _ => []
      end
    else []
  | None => []
  end.

(** A key that ends the loop: it is in range and its value is neither
    falsy nor an array. *)
Definition breaks (pages : list (page num))
           (entry : jsstring * page_value num) : bool :=
  in_range pages (fst entry) &&
  match snd entry with
  | NotArray => true
  | Falsy => false
  | Annotations _ => false
  end.

(** The keys the loop gets to: those before the first that ends it. *)
Fixpoint reached (pages : list (page num))
         (m : list (jsstring * page_value num))
  : list (jsstring * page_value num) :=
  match m with
  | [] => []
  | entry :: m' =>
    if breaks pages entry then [] else entry :: reached pages m'
  end.

(** The segments between adjacent points of a stroke, each point
    [(x, y)] taken to [(x * width, height - y * height)]. *)
Definition polyline (width height : num) (pts : list (point num))
           (thickness : num) (c : Color) (opacity : num)
  : list (line_options num Color) :=
  map (fun pq =>
         LineOptions
           (Point (mul (px (fst pq)) width) (sub height (mul (py (fst pq)) height)))
           (Point (mul (px (snd pq)) width) (sub height (mul (py (snd pq)) height)))
           thickness c opacity)
      (combine pts (tl pts)).

(** A computation that only adds to the canvas. *)
Definition appends (A : Type) (m : @M num Color A) : Prop :=
  forall cv, m cv = (fst (m []), cv ++ snd (m [])).

(** The path rule as the specification states it: a stroke is drawn as
    the segments between the adjacent points of its point list (a list
    as long as it, with its points), in some thickness, colour and
    opacity. *)
Definition path_drawn_as_claimed (pageIndex : nat) (width height : num)
           (points : list (option (point num))) (color : option jsstring)
           (opacity strokeWidth : option num) : Prop :=
  exists pts thickness c o,
    length pts = length points /\
    (forall k p, nth_error points k = Some (Some p) -> nth_error pts k = Some p) /\
    annotation_drawings pageIndex width height
                        (PathAnn points color opacity strokeWidth)
    = map (DrawLine pageIndex) (polyline width height pts thickness c o).


(** The containment rule as the specification states it: the loop never
    raises, and every annotation of every page in range adds what it
    draws. *)
Definition failures_contained (pages : list (page num))
           (m : list (jsstring * page_value num)) : Prop :=
  forall cv : list (drawing num Color),
    applyAnnotations pages m cv
    = (Normal tt, cv ++ flat_map (page_drawings pages) m).

End CompositorVocabulary.

(** An exact instance for the examples: rational numbers, colours as
    triples accepted when every component is in [0, 1], lines accepted
    when their opacity is, texts accepted when they hold no code unit
    beyond 0xFF (the standard fonts encode no other), and a
    [JSON.parse] that knows [null] and one colour object and rejects
    every other text. *)
Definition in_unit (q : Qc) : bool :=
  Qle_bool 0 (this q) && Qle_bool (this q) 1.

#[local] Instance exact_number : JsNumber Qc :=
  {| mul := Qcmult; sub := Qcminus; add := Qcplus; lit := Q2Qc;
     truthy := fun q => negb (Qeq_bool (this q) 0) |}.

Definition quoted (s : string) : jsstring := [0x22] ++ js s ++ [0x22].

Definition red_json : jsstring :=
  js "{" ++ quoted "r" ++ js ":1," ++ quoted "g" ++ js ":0," ++
  quoted "b" ++ js ":0}".

#[local] Instance exact_pdf : PdfLib Qc (Qc * Qc * Qc) :=
  {| JSON_parse := fun s =>
       if str_eqb s (js "null") then Normal PNull
       else if str_eqb s red_json
            then Normal (PValue (Some (Q2Qc 1)) (Some (Q2Qc 0)) (Some (Q2Qc 0)))
            else Throw;
     rgb := fun r g b =>
       if in_unit r && in_unit g && in_unit b then Normal (r, g, b) else Throw;
     drawLine_accepts := fun o => in_unit (line_opacity o);
     drawText_accepts := fun text _ => forallb (fun c => c <? 0x100) text |}.

(** An A4 page, in points. *)
Definition a4 : page Qc := Page (Q2Qc 595) (Q2Qc 842).

(** A stroke of three points, a short text, and an annotation map with
    keys 1, 0 and 7 for a document of one page. *)
Definition sample_stroke : list (point Qc) :=
  [ Point (Q2Qc (1#10)) (Q2Qc (1#5)); Point (Q2Qc (1#2)) (Q2Qc (1#2));
    Point (Q2Qc 1) (Q2Qc 1) ].

Definition yellow : Qc * Qc * Qc := (Q2Qc 1, Q2Qc 1, Q2Qc 0).

Definition black : Qc * Qc * Qc := (Q2Qc 0, Q2Qc 0, Q2Qc 0).

(** Two strokes of two points: one in a colour that is the JSON text
    [null], one of opacity 3/2. *)
Definition short_stroke : list (point Qc) :=
  [ Point (Q2Qc (1#10)) (Q2Qc (1#5)); Point (Q2Qc (1#2)) (Q2Qc (1#2)) ].

Definition null_colour_path : annotation Qc :=
  PathAnn (map Some short_stroke) (Some (js "null")) None None.

Definition opaque_path : annotation Qc :=
  PathAnn (map Some short_stroke) None (Some (Q2Qc (3#2))) None.

(** A stroke of three entries, the second of them [null]. *)
Definition broken_path : annotation Qc :=
  PathAnn [ Some (Point (Q2Qc (1#10)) (Q2Qc (1#5))); None;
            Some (Point (Q2Qc 1) (Q2Qc 1)) ] None None None.



Definition sample_note : annotation Qc :=
  TextAnn (js "rit.") (Q2Qc 0) (Q2Qc 0) None None.

Definition sample_path : annotation Qc :=
  PathAnn (map Some sample_stroke) None None None.


(** JavaScript's own numbers: IEEE 754 binary64, with the operations of
    the kernel.  An integer is built by doubling, which is exact below
    2^53; a literal is the quotient of two integers, which is the
    nearest double. *)
Fixpoint double_of_positive (p : positive) : PrimFloat.float :=
  match p with
  | xH => PrimFloat.one
  | xO p' => PrimFloat.mul PrimFloat.two (double_of_positive p')
  | xI p' => PrimFloat.add (PrimFloat.mul PrimFloat.two (double_of_positive p'))
                           PrimFloat.one
  end.

Definition double_of_Z (z : Z) : PrimFloat.float :=
  match z with
  | Z0 => PrimFloat.zero
  | Zpos p => double_of_positive p
  | Zneg p => PrimFloat.opp (double_of_positive p)
  end.

Definition double (q : Q) : PrimFloat.float :=
  PrimFloat.div (double_of_Z (Qnum q)) (double_of_Z (Zpos (Qden q))).





Definition small_note : annotation PrimFloat.float :=
  TextAnn (js "rit.") (double (1#2)) (double (381#1000))
          (Some (double (97#10))) None.




(** *** Vocabulary for the form fields and the SQL statements *)

(** The white space that [\s] keeps in a title and that a header value
    may not hold: the line breaks LF, VT, FF and CR, and the white space
    beyond Latin-1. *)
Definition header_breaking : charclass :=
  [ (0x0A, 0x0D); (0x1680, 0x1680); (0x2000, 0x200A); (0x2028, 0x2029);
    (0x202F, 0x202F); (0x205F, 0x205F); (0x3000, 0x3000); (0xFEFF, 0xFEFF) ].

(** A sheet with a file, key 1 of whose annotations holds a text, and
    whose title has a line break. *)
Definition two_line_title_sheet : sheet_row Qc :=
  SheetRow (Some (js "https://x/y.pdf"))
           (Some (js "Etude" ++ [0x0A] ++ js "No. 1"))
           (Some [(js "1", Annotations [sample_note])]).

(** A hexadecimal digit, in either case. *)
Definition is_hex (c : Z) : bool :=
  in_class [ (0x30, 0x39); (0x41, 0x46); (0x61, 0x66) ] c.

(** [s] is made of groups of hexadecimal digits of the given sizes,
    separated by single hyphens, and of nothing else. *)
Fixpoint hex_groups (sizes : list nat) (s : jsstring) : bool :=
  match sizes with
  | [] => match s with [] => true | _ :: _ => false end
  | n :: sizes' =>
    (n <=? length s)%nat && forallb is_hex (firstn n s) &&
    match sizes', skipn n s with
    | [], [] => true
    | _ :: _, c :: s' => (c =? 0x2D) && hex_groups sizes' s'
    | _, _ => false
    end
  end.

(** The placeholders [$n] of an SQL text, in order. *)
Fixpoint placeholders (sql : jsstring) : list Z :=
  match sql with
  | [] => []
  | c :: sql' =>
    if c =? 0x24 then
      match parse_digits 10 sql' None with
      | Some n => n :: placeholders sql'
      | None => placeholders sql'
      end
    else placeholders sql'
  end.

(** A tag as the tag parser returns it: not empty, trimmed, without a
    comma. *)
Definition well_formed_tag (t : jsstring) : Prop :=
  t <> [] /\ trim t = t /\ ~ In 0x2C t.

(** The pattern for groups of hexadecimal digits separated by hyphens,
    up to the end of the string; [uuid_re] is [^] followed by it for
    the sizes 8, 4, 4, 4 and 12. *)
Fixpoint hex_groups_re (sizes : list nat) : regex :=
  match sizes with
  | [] => Eol
  | n :: sizes' =>
    Seq (Times n (any_of hex_digits))
        match sizes' with
        | [] => Eol
        | _ :: _ => Seq (Char 0x2D) (hex_groups_re sizes')
        end
  end.

(** A text that does not go on with a decimal digit. *)
Definition starts_without_digit (s : jsstring) : Prop :=
  match s with
  | [] => True
  | c :: _ => digit_value 10 c = None
  end.


(** *** Vocabulary for the query of the sheet list *)

(** Whether a filter of the request is set: [if (v)]. *)
Definition is_set (v : option Listing.qvalue) : bool :=
  match v with
  | Some x => Listing.truthy_q x
  | None => false
  end.

(** Which of the ten filters a request sets, in the order of the
    handler. *)
Definition set_filters (r : Listing.query_string) : list bool :=
  map is_set
      [ Listing.q r; Listing.composer r; Listing.instrument r;
        Listing.genre r; Listing.difficulty r; Listing.key_signature r;
        Listing.time_signature r; Listing.tempo r; Listing.publisher r;
        Listing.folder_id r ].

(** The SQL text of a query, if one is made. *)
Definition statement (A : Type) (c : completion (jsstring * A))
  : option jsstring :=
  match c with
  | Normal (sql, _) => Some sql
  | Throw => None
  end.

(** A piece of a template that ends with its only [$]. *)
Definition one_dollar_last (t : jsstring) : bool :=
  match rev t with
  | c :: before => (c =? 0x24) && forallb (fun x => negb (x =? 0x24)) before
  | [] => false
  end.

(** [starts_without_digit], decided. *)
Definition plain_start (t : jsstring) : bool :=
  match t with
  | [] => true
  | c :: _ => match digit_value 10 c with Some _ => false | None => true end
  end.

(** A text whose last code unit is neither [$] nor a digit: what
    follows it cannot change its placeholders. *)
Definition closed_text (t : jsstring) : bool :=
  match rev t with
  | c :: _ => negb (c =? 0x24) && plain_start [c]
  | [] => false
  end.

(** The state of the query builder is consistent: [paramIndex] is the
    number of the next parameter, and the placeholders of the text so
    far, whatever plain text follows, are [l], which names the
    parameters so far and nothing else. *)
Definition numbered (b : Listing.builder) : Prop :=
  Listing.paramIndex b = S (length (Listing.params b)) /\
  exists l,
    (forall tail, starts_without_digit tail ->
       placeholders (Listing.query b ++ tail) = l ++ placeholders tail) /\
    (forall k, In k l <-> 1 <= k <= Z.of_nat (length (Listing.params b))).

(** Two states of the builder with the same text and the same next
    number. *)
Definition same_text (b b' : Listing.builder) : Prop :=
  Listing.query b = Listing.query b' /\
  Listing.paramIndex b = Listing.paramIndex b'.

(** A later state of the builder: text and parameters were appended,
    and the appended text does not start with a digit. *)
Definition extends (b b' : Listing.builder) : Prop :=
  exists text more,
    Listing.query b' = Listing.query b ++ text /\
    Listing.params b' = Listing.params b ++ more /\
    starts_without_digit text.

(** The statement holds the condition [before], a placeholder, [after],
    and the parameter that the placeholder names is [value]. *)
Definition bound (sql : jsstring) (ps : list Listing.qvalue)
           (before after : jsstring) (value : Listing.qvalue) : Prop :=
  exists k pre post,
    sql = pre ++ before ++ decimal (S k) ++ after ++ post /\
    starts_without_digit (after ++ post) /\
    nth_error ps k = Some value.

(** The nine filters with one parameter: the field of the request, the
    text before and after the placeholder, and the parameter made of
    the field's value. *)
Definition single_conditions (r : Listing.query_string)
  : list (option Listing.qvalue * jsstring * jsstring
          * (Listing.qvalue -> Listing.qvalue)) :=
  [ (Listing.composer r, js " AND s.composer ILIKE $", [], Listing.like);
    (Listing.instrument r, Listing.instrument_before,
     Listing.instrument_after, Listing.like);
    (Listing.genre r, js " AND g.name ILIKE $", [], Listing.like);
    (Listing.difficulty r, js " AND s.difficulty = $", [], fun v => v);
    (Listing.key_signature r, js " AND s.key_signature = $", [],
     fun v => v);
    (Listing.time_signature r, js " AND s.time_signature = $", [],
     fun v => v);
    (Listing.tempo r, js " AND s.tempo ILIKE $", [], Listing.like);
    (Listing.publisher r, js " AND s.publisher ILIKE $", [], Listing.like);
    (Listing.folder_id r,
     js " AND EXISTS (SELECT 1 FROM sheet_folders sf WHERE sf.sheet_id = s.id AND sf.folder_id = $",
     js ")", fun v => v) ].

(** A request for the nocturnes of Chopin of difficulty 3, by title. *)
Definition sample_user : Listing.qvalue :=
  Listing.QString (js "6f1c2a9e-0b7d-4c3a-9e55-2d1f8a7b6c40").

Definition sample_request : Listing.query_string :=
  Listing.QueryString
    (Some (Listing.QString (js "nocturne")))
    (Some (Listing.QString (js "Chopin")))
    None None
    (Some (Listing.QString (js "3")))
    None None None None
    (Some (Listing.QString (js "title")))
    (Some (Listing.QString (js "Asc")))
    None.

(** *** Vocabulary for the deletion routes *)

(** An action on a sheet that the user may delete: the row of a sheet
    of the access check that the user owns or has in full, or the file
    of such a sheet. *)
Definition permitted (rows : list Deletion.access_row)
           (a : Deletion.action) : Prop :=
  exists sheet,
    In sheet rows /\
    (Deletion.is_owner sheet = true \/
     Deletion.permission sheet = Some (js "full")) /\
    match a with
    | Deletion.DeleteRow i => i = Deletion.id sheet
    | Deletion.DeleteFile k => Deletion.storage_key sheet = Some k
    end.

(** An event of the history that concerns one of the sheets: its row,
    or its file. *)
Definition concerns (sheets : list Deletion.access_row)
           (ev : Deletion.action * bool) : Prop :=
  exists sheet,
    In sheet sheets /\
    match fst ev with
    | Deletion.DeleteRow i => i = Deletion.id sheet
    | Deletion.DeleteFile k => Deletion.storage_key sheet = Some k
    end.

(** A storage and a database where everything succeeds. *)
Definition all_succeed (h : Deletion.history) (a : Deletion.action) : bool :=
  true.

(** A sheet of the user, with a file; a sheet shared for reading. *)
Definition own_sheet : Deletion.access_row :=
  Deletion.AccessRow (js "6f1c2a9e-0b7d-4c3a-9e55-2d1f8a7b6c40")
                     (Some (js "sheets/nocturne.pdf")) true None.

Definition shared_sheet : Deletion.access_row :=
  Deletion.AccessRow (js "0a5b7c1d-3e2f-4a6b-8c9d-1e0f2a3b4c5d")
                     (Some (js "sheets/etude.pdf")) false (Some (js "view")).

(** *** Vocabulary for the admin key and the middleware *)

(** The text up to the first space. *)
Fixpoint before_space (s : jsstring) : jsstring :=
  match s with
  | [] => []
  | c :: s' => if c =? 0x20 then [] else c :: before_space s'
  end.

(* ================================================================== *)
(** ** The runtime functions on small inputs *)

Example js_greek : js "Μουσική:" = [0x39C; 0x3BF; 0x3C5; 0x3C3; 0x3B9; 0x3BA; 0x3AE; 0x3A] .
Proof. reflexivity. Qed.

Example split_lines :
  split 0x0A (js "a" ++ [0x0A] ++ js " b" ++ [0x0A]) = [js "a"; js " b"; []].
Proof. reflexivity. Qed.

Example trim_both_ends : trim ([0x09; 0xA0] ++ js "Opus  1" ++ [0x0D; 0x20]) = js "Opus  1".
Proof. reflexivity. Qed.

Example textLines_drops_blank :
  textLines (js " Aria " ++ [0x0D; 0x0A; 0x20; 0x0A] ++ js "Bach") = [js "Aria"; js "Bach"].
Proof. reflexivity. Qed.

Example clean_initials : isCleanLine (js "J.S. Bach") = true.
Proof. reflexivity. Qed.

Example dirty_leaders : isCleanLine (js "ab ....") = false.
Proof. reflexivity. Qed.

Example label_any_case : is_some (exec label_re (js "cOMPOSER: Bach")) = true.
Proof. vm_compute. reflexivity. Qed.

Example label_needs_colon : is_some (exec label_re (js "Musical offering")) = false.
Proof. vm_compute. reflexivity. Qed.

Example label_at_start_only : is_some (exec label_re (js "The Music: x")) = false.
Proof. vm_compute. reflexivity. Qed.

Example music_name_before_lyricist :
  exec music_re (js "ΜΟΥΣΙΚΉ: Μάνος Χατζιδάκις  στίχοι: Νίκος Γκάτσος")
  = Some (Some (js "Μάνος Χατζιδάκις")).
Proof. vm_compute. reflexivity. Qed.

Example music_name_to_end :
  exec music_re (js "x Μουσική Mikis Theodorakis") = Some (Some (js "Mikis Theodorakis")).
Proof. vm_compute. reflexivity. Qed.

Example music_name_stops_at_digit :
  exec music_re (js "Μουσική: Bach 1685") = None.
Proof. vm_compute. reflexivity. Qed.

Example music_blank_name :
  exec music_re (js "Μουσική:  Στίχοι: Νίκος") = Some (Some [0x20]).
Proof. vm_compute. reflexivity. Qed.

Example music_unaccented_label :
  exec music_re (js "Μουσικη: Μάνος") = None.
Proof. vm_compute. reflexivity. Qed.

Example lyrics_name :
  exec lyrics_re (js "Μουσική:  Στίχοι: Νίκος") = Some (Some (js "Νίκος")).
Proof. vm_compute. reflexivity. Qed.

Example parseInt_decimal : parseInt (js "12") = Some 12.
Proof. reflexivity. Qed.

Example parseInt_prefix : parseInt (js " 3.7px") = Some 3.
Proof. reflexivity. Qed.

Example parseInt_hex : parseInt (js "0x1f") = Some 31.
Proof. reflexivity. Qed.

Example parseInt_negative : parseInt (js "-1") = Some (-1).
Proof. reflexivity. Qed.

Example parseInt_nan : parseInt (js "page") = None.
Proof. reflexivity. Qed.
(* ================================================================== *)
(** ** Soundness of the matcher *)

Lemma plus_greedy_sound (R : Type) cls s : forall pos (k : nat -> jsstring -> option R) res,
  plus_greedy cls pos s k = Some res ->
  exists w s', s = w ++ s' /\ w <> [] /\
               Forall (fun c => class_matches cls c = true) w /\
               k (pos + length w)%nat s' = Some res.
Proof.
  induction s as [|c s IH]; intros pos k res H; simpl in H; [discriminate|].
  destruct (class_matches cls c) eqn:Hc; [|discriminate].
  destruct (plus_greedy cls (S pos) s k) eqn:Hrec.
  - injection H as <-.
    destruct (IH _ _ _ Hrec) as (w & s' & -> & _ & Hw & Hk).
    exists (c :: w), s'. repeat split; auto; try discriminate.
    simpl. now replace (pos + S (length w))%nat with (S pos + length w)%nat by lia.
  - exists [c], s. repeat split; auto; try discriminate.
    simpl. now replace (pos + 1)%nat with (S pos) by lia.
Qed.

Lemma plus_lazy_sound (R : Type) cls s : forall pos (k : nat -> jsstring -> option R) res,
  plus_lazy cls pos s k = Some res ->
  exists w s', s = w ++ s' /\ w <> [] /\
               Forall (fun c => class_matches cls c = true) w /\
               k (pos + length w)%nat s' = Some res.
Proof.
  induction s as [|c s IH]; intros pos k res H; simpl in H; [discriminate|].
  destruct (class_matches cls c) eqn:Hc; [|discriminate].
  destruct (k (S pos) s) eqn:Hk.
  - injection H as <-.
    exists [c], s. repeat split; auto; try discriminate.
    simpl. now replace (pos + 1)%nat with (S pos) by lia.
  - destruct (IH _ _ _ H) as (w & s' & -> & _ & Hw & Hk').
    exists (c :: w), s'. repeat split; auto; try discriminate.
    simpl. now replace (pos + S (length w))%nat with (S pos + length w)%nat by lia.
Qed.

(** Whatever the matcher answers came from its continuation, called on a
    state the pattern leads to. *)
Lemma rmatch_sound (R : Type) r : forall pos s cap (k : cont R) res,
  rmatch r pos s cap k = Some res ->
  exists pos' s' cap',
    matches r pos s cap pos' s' cap' /\ k pos' s' cap' = Some res.
Proof.
  induction r; intros pos s cap k res H; simpl in H.
  - eauto 6 with regex.
  - destruct s as [|c0 s]; [discriminate|].
    destruct (char_matches c c0) eqn:Hc; [|discriminate].
    eauto 6 with regex.
  - apply IHr1 in H. destruct H as (p1 & s1 & c1 & Hm1 & H).
    apply IHr2 in H. destruct H as (p2 & s2 & c2 & Hm2 & H).
    eauto 6 with regex.
  - destruct (rmatch r1 pos s cap k) eqn:H1.
    + injection H as <-. apply IHr1 in H1.
      destruct H1 as (p1 & s1 & c1 & Hm1 & H1). eauto 6 with regex.
    + apply IHr2 in H. destruct H as (p2 & s2 & c2 & Hm2 & H).
      eauto 6 with regex.
  - apply plus_greedy_sound in H.
    destruct H as (w & s' & -> & Hne & Hw & Hk). eauto 6 with regex.
  - apply plus_lazy_sound in H.
    destruct H as (w & s' & -> & Hne & Hw & Hk). eauto 6 with regex.
  - apply IHr in H. destruct H as (p1 & s1 & c1 & Hm1 & H).
    eauto 6 with regex.
  - destruct pos; [|discriminate]. eauto 6 with regex.
  - destruct s; [|discriminate]. eauto 6 with regex.
Qed.

Lemma matches_groupless r pos s cap pos' s' cap' :
  matches r pos s cap pos' s' cap' -> groupless r = true -> cap' = cap.
Proof.
  induction 1; simpl; intros G; try reflexivity;
    try (apply andb_prop in G; destruct G as [G1 G2]); try discriminate.
  - rewrite IHmatches2, IHmatches1; auto.
  - auto.
  - auto.
Qed.

(** Patterns of the shape [p1 p2 ( [cls]+? ) suffix] with no group in
    the suffix, the shape of both composer patterns: the capture is set,
    non-empty and made of code units of the class. *)
Lemma matches_labelled p1 p2 cls suffix pos s cap pos' s' cap' :
  groupless suffix = true ->
  matches (Seq p1 (Seq p2 (Seq (Group (LazyPlus cls)) suffix)))
          pos s cap pos' s' cap' ->
  exists w, cap' = Some w /\ w <> [] /\
            Forall (fun c => class_matches cls c = true) w.
Proof.
  intros G H.
  inversion H as [| |? ? ? ? ? ? ? ? ? ? ? _ H1| | | | | | |]; subst; clear H.
  inversion H1 as [| |? ? ? ? ? ? ? ? ? ? ? _ H2| | | | | | |]; subst; clear H1.
  inversion H2 as [| |? ? ? ? ? pg sg cg ? ? ? Hg Hs| | | | | | |]; subst; clear H2.
  apply matches_groupless in Hs; [|assumption]. subst cap'.
  inversion Hg as [| | | | | | |? ? ? ? ? ? ? Hl| |]; subst; clear Hg.
  inversion Hl as [| | | | | |? ? w ? ? Hne Hw| | |]; subst; clear Hl.
  exists w. repeat split; auto.
  f_equal.
  match goal with |- firstn ?n _ = _ => replace n with (length w) by lia end.
  rewrite firstn_app, Nat.sub_diag, firstn_all. simpl. apply app_nil_r.
Qed.

Lemma exec_from_sound r s : forall pos cap,
  exec_from r pos s = Some cap ->
  exists pos0 s0 pos' s', matches r pos0 s0 None pos' s' cap.
Proof.
  induction s as [|c s IH]; intros pos cap H; simpl in H.
  - destruct (match_here r pos []) eqn:Hm; [|discriminate].
    injection H as <-. apply rmatch_sound in Hm.
    destruct Hm as (p & s' & c' & Hm & Hk). injection Hk as ->. eauto.
  - destruct (match_here r pos (c :: s)) eqn:Hm.
    + injection H as <-. apply rmatch_sound in Hm.
      destruct Hm as (p & s' & c' & Hm & Hk). injection Hk as ->. eauto.
    + eauto.
Qed.

(* ================================================================== *)
(** ** The loops of the extractor *)

Lemma rmatch_Lit (R : Type) p : forall pos s cap (k : cont R),
  rmatch (Lit p) pos s cap k =
  if starts_with_ci p s
  then k (pos + length p)%nat (skipn (length p) s) cap
  else None.
Proof.
  induction p as [|a p IH]; intros pos s cap k; simpl.
  - now rewrite Nat.add_0_r.
  - destruct s as [|c s]; [reflexivity|].
    destruct (char_matches a c); simpl; [|reflexivity].
    rewrite IH. now replace (S pos + length p)%nat with (pos + S (length p))%nat by lia.
Qed.

Lemma starts_with_ci_snoc p a : forall s,
  starts_with_ci (p ++ [a]) s =
  starts_with_ci p s &&
  match skipn (length p) s with
  | c :: _ => char_matches a c
  | [] => false
  end.
Proof.
  induction p as [|b p IH]; intros [|c s]; simpl; try reflexivity.
  - now rewrite andb_true_r.
  - rewrite IH. now rewrite andb_assoc.
Qed.

Lemma exec_from_bol r s : forall n, exec_from (Seq Bol r) (S n) s = None.
Proof.
  induction s as [|c s IH]; intros n; [reflexivity|].
  change (exec_from (Seq Bol r) (S n) (c :: s))
    with (exec_from (Seq Bol r) (S (S n)) s).
  apply IH.
Qed.

Lemma exec_bol r s : exec (Seq Bol r) s = match_here (Seq Bol r) 0 s.
Proof.
  unfold exec. destruct s as [|c s]; simpl.
  - now destruct (match_here (Seq Bol r) 0 []).
  - destruct (match_here (Seq Bol r) 0 (c :: s)); [reflexivity|].
    apply exec_from_bol.
Qed.

Lemma is_some_alt r1 r2 line :
  is_some (rmatch (Alt r1 r2) 0 line None (after_label line)) =
  is_some (rmatch r1 0 line None (after_label line)) ||
  is_some (rmatch r2 0 line None (after_label line)).
Proof.
  simpl. now destruct (rmatch r1 0 line None (after_label line)).
Qed.

Lemma is_some_label p line :
  is_some (rmatch (Lit p) 0 line None (after_label line)) =
  starts_with_ci (p ++ [0x3A]) line.
Proof.
  rewrite rmatch_Lit, starts_with_ci_snoc.
  destruct (starts_with_ci p line); [|reflexivity]. simpl.
  unfold after_label. simpl.
  destruct (skipn (length p) line) as [|c s']; [reflexivity|].
  now destruct (char_matches 58 c).
Qed.

(** The label pattern matches exactly the lines that start with one of
    the label prefixes, case-insensitively. *)
Lemma exec_label_re line :
  is_some (exec label_re line) = starts_with_label line.
Proof.
  unfold label_re. rewrite exec_bol.
  change (match_here _ 0 line)
    with (rmatch (Alt (Lit (js "Μουσική"))
                 (Alt (Lit (js "Στίχοι"))
                 (Alt (Lit (js "Music"))
                 (Alt (Lit (js "Lyrics"))
                      (Lit (js "Composer"))))))
                 0 line None (after_label line)).
  rewrite !is_some_alt, !is_some_label.
  unfold starts_with_label, label_prefixes. simpl existsb.
  now rewrite orb_false_r.
Qed.

Lemma title_loop_spec lines :
  first_or_empty title_candidate lines (title_loop lines).
Proof.
  induction lines as [|line rest IH]; simpl.
  - right. split; constructor.
  - assert (Hskip : title_candidate line = false ->
                    first_or_empty title_candidate (line :: rest) (title_loop rest)).
    { revert IH. generalize (title_loop rest). intros t IH Hc.
      destruct IH as [(pre & post & -> & Hpre & Hx) | (Hall & ->)].
      - left. exists (line :: pre), post. split; [reflexivity|]. split; auto.
      - right. split; auto. }
    assert (Ht : title_candidate line =
                 isCleanLine line && negb (is_some (exec label_re line)) &&
                 (length_of line >=? 4))
      by (unfold title_candidate; now rewrite exec_label_re).
    destruct (isCleanLine line); simpl in *; [|now apply Hskip].
    destruct (exec label_re line); simpl in *; [now apply Hskip|].
    destruct (length_of line >=? 4); [|now apply Hskip].
    left. exists [], rest. repeat split; auto.
Qed.

Lemma fallback_found lines t :
  first_or_empty (composer_candidate t) (filter isCleanLine lines)
                 (fallback_loop lines t true).
Proof.
  induction lines as [|line rest IH]; simpl.
  - right. split; constructor.
  - destruct (isCleanLine line); simpl; [|assumption].
    fold (composer_candidate t line).
    destruct (composer_candidate t line) eqn:Hc.
    + left. exists [], (filter isCleanLine rest). repeat split; auto.
    + revert IH. generalize (fallback_loop rest t true).
      generalize (filter isCleanLine rest). intros l x IH.
      destruct IH as [(pre & post & -> & Hpre & Hx) | (Hall & ->)].
      * left. exists (line :: pre), post. split; [reflexivity|]. split; auto.
      * right. split; auto.
Qed.

Lemma fallback_spec lines t :
  match filter isCleanLine lines with
  | [] => fallback_loop lines t false = []
  | _ :: rest =>
    first_or_empty (composer_candidate t) rest (fallback_loop lines t false)
  end.
Proof.
  induction lines as [|line rest IH]; simpl; [reflexivity|].
  destruct (isCleanLine line); simpl; [|assumption].
  apply fallback_found.
Qed.

(** The capture of a match of either composer pattern is set, and holds
    only code units of the name class. *)
Lemma music_capture line cap :
  exec music_re line = Some cap ->
  exists w, cap = Some w /\ w <> [] /\ name_only w.
Proof.
  intros H. apply exec_from_sound in H. destruct H as (p0 & s0 & p' & s' & Hm).
  unfold music_re in Hm. eapply matches_labelled; [|exact Hm]. reflexivity.
Qed.

Lemma lyrics_capture line cap :
  exec lyrics_re line = Some cap ->
  exists w, cap = Some w /\ w <> [] /\ name_only w.
Proof.
  intros H. apply exec_from_sound in H. destruct H as (p0 & s0 & p' & s' & Hm).
  unfold lyrics_re in Hm. eapply matches_labelled; [|exact Hm]. reflexivity.
Qed.

Lemma Forall_trimStart (P : Z -> Prop) s : Forall P s -> Forall P (trimStart s).
Proof.
  induction 1 as [|c s Hc Hs IH]; simpl; [constructor|].
  destruct (isWhiteSpace c); auto.
Qed.

Lemma Forall_trim (P : Z -> Prop) s : Forall P s -> Forall P (trim s).
Proof.
  intros H. unfold trim, trimEnd.
  apply Forall_rev, Forall_trimStart, Forall_rev, Forall_trimStart, H.
Qed.

(** [trim] leaves no white space at either end, so trimming again
    changes nothing. *)
Lemma trimStart_head s :
  trimStart s = s <->
  match s with [] => True | c :: _ => isWhiteSpace c = false end.
Proof.
  destruct s as [|c s]; simpl; [tauto|].
  destruct (isWhiteSpace c) eqn:E; split; try congruence; try discriminate.
  intros H. exfalso.
  assert (Hlen : (length (trimStart s) <= length s)%nat).
  { clear. induction s as [|a s IH]; simpl; [lia|].
    destruct (isWhiteSpace a); simpl; lia. }
  rewrite H in Hlen. simpl in Hlen. lia.
Qed.

Lemma trimStart_idem s : trimStart (trimStart s) = trimStart s.
Proof.
  induction s as [|c s IH]; simpl; [reflexivity|].
  destruct (isWhiteSpace c) eqn:E; [assumption|]. simpl. now rewrite E.
Qed.

Lemma trimStart_suffix s : exists p, s = p ++ trimStart s.
Proof.
  induction s as [|c s [p IH]]; simpl; [now exists []|].
  destruct (isWhiteSpace c).
  - exists (c :: p). simpl. now f_equal.
  - now exists [].
Qed.

Lemma trim_idem s : trim (trim s) = trim s.
Proof.
  unfold trim, trimEnd.
  set (a := trimStart s). set (b := trimStart (rev a)).
  assert (Hb : trimStart b = b) by apply trimStart_idem.
  assert (Ha : trimStart (rev b) = rev b).
  { apply trimStart_head.
    destruct (trimStart_suffix (rev a)) as [p Hp]. fold b in Hp.
    assert (Ea : a = rev b ++ rev p)
      by (rewrite <- rev_app_distr, <- Hp; now rewrite rev_involutive).
    assert (Hh : trimStart a = a) by apply trimStart_idem.
    apply trimStart_head in Hh.
    destruct (rev b) as [|c t]; [exact I|]. now rewrite Ea in Hh. }
  now rewrite Ha, rev_involutive, Hb.
Qed.

Lemma textLines_trimmed raw :
  Forall (fun l => l <> [] /\ trim l = l) (textLines raw).
Proof.
  apply Forall_forall. intros l H. unfold textLines in H.
  apply filter_In in H. destruct H as [H Hl].
  apply in_map_iff in H. destruct H as (p & <- & _).
  split; [|apply trim_idem]. intros E. rewrite E in Hl. discriminate.
Qed.

(** The second loop never throws, and what it leaves in [composer] is
    the initial value or a trimmed capture. *)
Lemma label_loop_normal lines : forall c0,
  name_only c0 ->
  exists c, label_loop lines c0 = Normal c /\ name_only c.
Proof.
  induction lines as [|line rest IH]; intros c0 H0; simpl.
  - eauto.
  - destruct (exec music_re line) as [m|] eqn:Hm.
    + apply music_capture in Hm. destruct Hm as (w & -> & _ & Hw).
      simpl. eexists. split; [reflexivity|]. now apply Forall_trim.
    + destruct (exec lyrics_re line) as [m|] eqn:Hl; [|now apply IH].
      destruct (truthy_str c0); simpl; [now apply IH|].
      apply lyrics_capture in Hl. destruct Hl as (w & -> & _ & Hw).
      simpl. apply IH. now apply Forall_trim.
Qed.

(** The extractor always returns, with the title of the first loop and
    the composer of the second loop, or of the third when the second
    left none. *)
Lemma extract_normal raw :
  exists c, label_loop (textLines raw) [] = Normal c /\ name_only c /\
  extract raw =
  Normal (if length_of (textLines raw) =? 0 then Metadata [] [] []
          else Metadata (title_loop (textLines raw))
                        (if negb (truthy_str c)
                         then fallback_loop (textLines raw)
                                            (title_loop (textLines raw)) false
                         else c)
                        raw).
Proof.
  destruct (label_loop_normal (textLines raw) (c0 := [])) as (c & Hc & Hn);
    [constructor|].
  exists c. repeat split; auto.
  unfold extract, processSmartMetadata. rewrite Hc.
  now destruct (length_of (textLines raw) =? 0).
Qed.

(* ================================================================== *)
(** ** Properties of the extractor *)

Lemma in_class_members cls c : in_class cls c = true -> In c (members cls).
Proof.
  unfold in_class, members. intros H.
  apply existsb_exists in H. destruct H as (r & Hr & Hc).
  apply andb_prop in Hc. destruct Hc as [Hlo Hhi].
  apply Z.leb_le in Hlo, Hhi.
  apply in_flat_map. exists r. split; [assumption|].
  apply in_map_iff. exists (Z.to_nat (c - fst r)). split; [lia|].
  apply in_seq. lia.
Qed.

Lemma ornaments_are_no_letters c :
  in_class ornaments c = true ->
  in_class greek_letters c = false /\ in_class latin_letters c = false /\
  class_matches name_chars c = false.
Proof.
  intros H. apply in_class_members in H.
  assert (Hall : forallb (fun a => negb (in_class greek_letters a) &&
                                   negb (in_class latin_letters a) &&
                                   negb (class_matches name_chars a))
                         (members ornaments) = true)
    by (vm_compute; reflexivity).
  rewrite forallb_forall in Hall. specialize (Hall c H).
  apply andb_prop in Hall. destruct Hall as [Hall Hn].
  apply andb_prop in Hall. destruct Hall as [Hg Hl].
  apply negb_true_iff in Hg, Hl, Hn. auto.
Qed.

Lemma count_matches_none cls s :
  Forall (fun c => in_class cls c = false) s -> count_matches cls s = 0.
Proof.
  unfold count_matches. induction 1 as [|c s Hc Hs IH]; simpl; [reflexivity|].
  now rewrite Hc.
Qed.

Lemma ornaments_not_clean line :
  only_ornaments line = true -> isCleanLine line = false.
Proof.
  unfold only_ornaments. intros H.
  assert (Hall : Forall (fun c => in_class ornaments c = true) line)
    by (apply Forall_forall; now apply forallb_forall).
  unfold isCleanLine.
  rewrite (@count_matches_none greek_letters line),
          (@count_matches_none latin_letters line); [reflexivity| |].
  - eapply Forall_impl; [|exact Hall]. intros c Hc.
    now apply ornaments_are_no_letters in Hc.
  - eapply Forall_impl; [|exact Hall]. intros c Hc.
    now apply ornaments_are_no_letters in Hc.
Qed.

Lemma first_or_empty_passes P l x :
  first_or_empty P l x -> x = [] \/ (In x l /\ P x = true).
Proof.
  intros [(pre & post & -> & _ & Hx) | (_ & ->)]; [right|now left].
  split; [|assumption]. apply in_or_app. right. now left.
Qed.

Lemma textLines_nonempty raw line : In line (textLines raw) -> line <> [].
Proof.
  unfold textLines. intros H. apply filter_In in H. destruct H as [_ H].
  intros ->. discriminate.
Qed.


(** C1: on the page "Symphony No. 5 / Ludwig van Beethoven / Music: L.
    Beethoven" the extractor returns the title "Symphony No. 5" and a
    composer that contains "Beethoven"; the label scan finds nothing (its
    patterns know the Greek labels only), so the composer is the second
    line, by the positional fallback. *)
Theorem extract_beethoven_page :
  exists md,
    extract beethoven_page = Normal md /\
    title md = js "Symphony No. 5" /\
    includes (js "Beethoven") (composer md) = true /\
    label_loop (textLines beethoven_page) [] = Normal [] /\
    composer md = js "Ludwig van Beethoven".
Proof.
  eexists. split; [vm_compute; reflexivity|].
  repeat split; vm_compute; reflexivity.
Qed.

(** C2: for every input the title is the first of the lines (each
    trimmed and not empty) that is clean, does not start
    (case-insensitively) with one of the label prefixes and has at least
    4 code units, and the empty string when there is no such line. *)
Theorem title_is_first_candidate (raw : jsstring) :
  exists md,
    extract raw = Normal md /\
    Forall (fun l => l <> [] /\ trim l = l) (textLines raw) /\
    first_or_empty title_candidate (textLines raw) (title md).
Proof.
  destruct (extract_normal raw) as (c & _ & _ & ->).
  eexists. split; [reflexivity|]. split; [apply textLines_trimmed|].
  destruct (length_of (textLines raw) =? 0) eqn:E; simpl.
  - right. split; [|reflexivity].
    destruct (textLines raw); [constructor | discriminate].
  - apply title_loop_spec.
Qed.

(** C3: when the label scan leaves no composer, the composer is found
    among the clean lines, in order: the first clean line is skipped,
    and the next one that differs from the title and has at least 3 code
    units is taken; it is the empty string when there is none. *)
Theorem composer_positional_fallback (raw : jsstring) :
  label_loop (textLines raw) [] = Normal [] ->
  exists md,
    extract raw = Normal md /\
    match filter isCleanLine (textLines raw) with
    | [] => composer md = []
    | _ :: rest =>
      first_or_empty (composer_candidate (title md)) rest (composer md)
    end.
Proof.
  intros H. destruct (extract_normal raw) as (c & Hc & _ & ->).
  rewrite H in Hc. injection Hc as <-.
  eexists. split; [reflexivity|].
  destruct (length_of (textLines raw) =? 0) eqn:E; simpl.
  - destruct (textLines raw); [reflexivity | discriminate].
  - apply fallback_spec.
Qed.

Lemma composer_positional_fallback_witness :
  label_loop (textLines beethoven_page) [] = Normal [] /\
  exists md,
    extract beethoven_page = Normal md /\
    match filter isCleanLine (textLines beethoven_page) with
    | [] => composer md = []
    | _ :: rest =>
      first_or_empty (composer_candidate (title md)) rest (composer md)
    end.
Proof.
  split.
  - vm_compute. reflexivity.
  - apply (composer_positional_fallback beethoven_page). vm_compute. reflexivity.
Defined.

(** C8: a line made only of dashes, bullets and underline characters
    fails the clean-line test, and on any input that contains it it is
    neither the title nor the composer. *)
Theorem ornament_line_never_selected (raw line : jsstring) :
  In line (textLines raw) ->
  only_ornaments line = true ->
  isCleanLine line = false /\
  exists md, extract raw = Normal md /\ title md <> line /\ composer md <> line.
Proof.
  intros Hin Horn.
  pose proof (ornaments_not_clean line Horn) as Hdirty.
  pose proof (textLines_nonempty raw Hin) as Hne.
  split; [assumption|].
  destruct (extract_normal raw) as (c & _ & Hname & ->).
  eexists. split; [reflexivity|].
  destruct (length_of (textLines raw) =? 0); simpl; [split; congruence|].
  split.
  - intros E.
    destruct (first_or_empty_passes (title_loop_spec (textLines raw)))
      as [E0 | [_ Hc]]; [congruence|].
    rewrite E in Hc. unfold title_candidate in Hc. rewrite Hdirty in Hc.
    discriminate.
  - destruct (truthy_str c) eqn:Ht; simpl.
    + intros ->. destruct line as [|a line]; [discriminate|].
      inversion Hname as [|? ? Ha _]; subst.
      simpl in Horn. apply andb_prop in Horn. destruct Horn as [Horn _].
      apply ornaments_are_no_letters in Horn. destruct Horn as (_ & _ & Hn).
      congruence.
    + intros E. pose proof (fallback_spec (textLines raw)
                                          (title_loop (textLines raw))) as Hf.
      destruct (filter isCleanLine (textLines raw)) as [|l0 rest] eqn:Hfil;
        [congruence|].
      apply first_or_empty_passes in Hf. destruct Hf as [E0 | [Hx _]];
        [congruence|].
      assert (Hx' : In line (filter isCleanLine (textLines raw)))
        by (rewrite Hfil; right; now rewrite <- E).
      apply filter_In in Hx'. destruct Hx' as [_ Hx']. congruence.
Qed.

Lemma ornament_line_never_selected_witness :
  In (js "-----") (textLines ruled_page) /\
  only_ornaments (js "-----") = true /\
  isCleanLine (js "-----") = false /\
  exists md, extract ruled_page = Normal md /\
             title md <> js "-----" /\ composer md <> js "-----".
Proof.
  assert (Hin : In (js "-----") (textLines ruled_page)) by (vm_compute; tauto).
  assert (Horn : only_ornaments (js "-----") = true) by (vm_compute; reflexivity).
  split; [exact Hin|]. split; [exact Horn|].
  exact (ornament_line_never_selected ruled_page (js "-----") Hin Horn).
Defined.

(** C9: the extractor returns on every input, a record of three strings
    (the text itself, or the empty string when the text has no line),
    and never throws; on the empty string all three are empty. *)
Theorem extract_never_throws :
  (forall raw, exists t c,
      extract raw =
      Normal (Metadata t c (if length_of (textLines raw) =? 0 then [] else raw)))
  /\ extract [] = Normal (Metadata [] [] []).
Proof.
  split; [|reflexivity].
  intros raw. destruct (extract_normal raw) as (c & _ & _ & ->).
  destruct (length_of (textLines raw) =? 0); eauto.
Qed.




(* ================================================================== *)
(** ** The compositor only ever adds drawings *)

Section CompositorFacts.
Context {num Color : Type} {N : JsNumber num} {L : PdfLib num Color}.

#[local] Abbreviation canvas := (list (drawing num Color)).
#[local] Abbreviation comp := (@M num Color).

(** A computation that returns at once leaves the canvas as it is. *)
Ltac nothing_drawn := unfold ret, lift; simpl; now rewrite app_nil_r.

Lemma appends_ret (A : Type) (a : A) : appends (ret a : comp A).
Proof. intros cv. nothing_drawn. Qed.

Lemma appends_throw (A : Type) : appends (throw A : comp A).
Proof. intros cv. unfold throw. simpl. now rewrite app_nil_r. Qed.

Lemma appends_lift (A : Type) (c : completion A) : appends (lift c : comp A).
Proof. intros cv. nothing_drawn. Qed.

Lemma appends_bind (A B : Type) (m : comp A) (f : A -> comp B) :
  appends m -> (forall a, appends (f a)) -> appends (bind m f).
Proof.
  intros Hm Hf cv. unfold bind.
  rewrite (Hm cv). destruct (m []) as [[a|] cv1]; simpl.
  - rewrite (Hf a (cv ++ cv1)), (Hf a cv1). simpl. now rewrite app_assoc.
  - reflexivity.
Qed.

Lemma appends_try_catch (m : comp unit) : appends m -> appends (try_catch m).
Proof.
  intros Hm cv. unfold try_catch. rewrite (Hm cv).
  now destruct (m []) as [[a|] cv1].
Qed.

Lemma appends_forEach (A : Type) (f : A -> comp unit) l :
  (forall a, appends (f a)) -> appends (forEach l f).
Proof.
  intros Hf. induction l as [|a l IH]; simpl.
  - apply appends_ret.
  - apply appends_bind; auto.
Qed.

Lemma appends_drawLine i (o : line_options num Color) : appends (drawLine i o).
Proof.
  intros cv. unfold drawLine. destruct (drawLine_accepts o); simpl; [reflexivity|].
  now rewrite app_nil_r.
Qed.

Lemma appends_drawText i text (o : text_options num Color) :
  appends (drawText i text o).
Proof.
  intros cv. unfold drawText. destruct (drawText_accepts text o); simpl;
    [reflexivity|]. now rewrite app_nil_r.
Qed.

Lemma appends_draw_segments i thickness colorObj opacity pathPoints :
  appends (draw_segments i pathPoints thickness colorObj opacity).
Proof.
  induction pathPoints as [|p rest IH]; simpl; [apply appends_ret|].
  destruct rest as [|q rest]; [apply appends_ret|].
  apply appends_bind; [apply appends_lift|]. intros c.
  apply appends_bind; [apply appends_drawLine|]. intros _. exact IH.
Qed.

Lemma appends_draw_annotation i w h (ann : annotation num) :
  appends (draw_annotation i w h ann).
Proof.
  destruct ann as [points color opacity strokeWidth | text x y size color | |];
    simpl.
  - destruct (length_of points >? 1); [|apply appends_ret].
    apply appends_bind; [apply appends_lift|]. intros pathPoints.
    apply appends_draw_segments.
  - destruct (truthy_str text); [|apply appends_ret].
    apply appends_bind; [apply appends_lift|]. intros c.
    apply appends_drawText.
  - apply appends_ret.
  - apply appends_throw.
Qed.

(** One annotation inside its [try]: never an exception, and on the
    canvas what the annotation draws on its own. *)
Lemma try_draw_annotation i w h (ann : annotation num) (cv : canvas) :
  try_catch (draw_annotation i w h ann) cv =
  (Normal tt, cv ++ annotation_drawings i w h ann).
Proof.
  unfold try_catch. rewrite (appends_draw_annotation i w h ann cv).
  unfold annotation_drawings.
  now destruct (draw_annotation i w h ann []) as [[[]|] cv1].
Qed.

Lemma forEach_annotations i w h (anns : list (annotation num)) : forall cv : canvas,
  forEach anns (fun ann => try_catch (draw_annotation i w h ann)) cv =
  (Normal tt, cv ++ flat_map (annotation_drawings i w h) anns).
Proof.
  induction anns as [|ann anns IH]; intros cv; simpl.
  - nothing_drawn.
  - unfold bind. rewrite try_draw_annotation, IH. now rewrite app_assoc.
Qed.

(** A page number in range names a page. *)
Lemma in_range_page (pages : list (page num)) pageNum :
  (pageNum >=? 1) && (pageNum <=? length_of pages) = true ->
  exists pg, nth_error pages (Z.to_nat (pageNum - 1)) = Some pg.
Proof.
  intros H. apply andb_prop in H. destruct H as [H1 H2].
  apply Z.geb_le in H1. apply Z.leb_le in H2. unfold length_of in H2.
  destruct (nth_error pages (Z.to_nat (pageNum - 1))) eqn:E; [eauto|].
  apply nth_error_None in E. lia.
Qed.

(** One key of the map: its drawings, and an exception exactly when
    it is in range with a value that is no array. *)
Lemma annotate_page_outcome pages entry (cv : canvas) :
  annotate_page pages entry cv =
  (if breaks pages entry then Throw else Normal tt,
   cv ++ page_drawings pages entry).
Proof.
  unfold annotate_page, page_drawings, breaks, in_range.
  destruct (parseInt (fst entry)) as [pageNum|];
    [|nothing_drawn].
  destruct ((pageNum >=? 1) && (pageNum <=? length_of pages)) eqn:E;
    [|nothing_drawn].
  destruct (in_range_page pages pageNum E) as (pg & ->).
  unfold bind, lift. destruct (snd entry) as [|pageAnns|]; cbn [annotations_of andb].
  - nothing_drawn.
  - apply forEach_annotations.
  - now rewrite app_nil_r.
Qed.

Lemma applyAnnotations_outcome pages m : forall cv : canvas,
  applyAnnotations pages m cv =
  (if existsb (breaks pages) m then Throw else Normal tt,
   cv ++ flat_map (page_drawings pages) (reached pages m)).
Proof.
  unfold applyAnnotations.
  induction m as [|entry m IH]; intros cv; cbn [forEach existsb reached].
  - nothing_drawn.
  - unfold bind. rewrite annotate_page_outcome.
    destruct (breaks pages entry) eqn:Eb; cbn [orb flat_map].
    + assert (Ed : page_drawings pages entry = []).
      { unfold breaks in Eb. unfold page_drawings.
        destruct (parseInt (fst entry)); [|reflexivity].
        destruct (in_range pages (fst entry)); [|reflexivity].
        destruct (snd entry); try discriminate Eb.
        now destruct (nth_error pages _). }
      now rewrite Ed.
    + rewrite IH. now rewrite app_assoc.
Qed.

Lemma reached_all pages (m : list (jsstring * page_value num)) :
  existsb (breaks pages) m = false -> reached pages m = m.
Proof.
  induction m as [|entry m IH]; cbn [existsb reached]; [reflexivity|].
  intros H. apply orb_false_iff in H. destruct H as [-> H].
  now rewrite IH.
Qed.

Lemma reached_app pages (pre m : list (jsstring * page_value num)) :
  existsb (breaks pages) pre = false ->
  reached pages (pre ++ m) = pre ++ reached pages m.
Proof.
  induction pre as [|entry pre IH]; cbn [existsb reached app]; [reflexivity|].
  intros H. apply orb_false_iff in H. destruct H as [-> H].
  now rewrite IH.
Qed.

(** A map in which every key in range holds an array, or a falsy
    value, is gone through to the end. *)
Lemma applyAnnotations_drawings pages m (cv : canvas) :
  existsb (breaks pages) m = false ->
  applyAnnotations pages m cv
  = (Normal tt, cv ++ flat_map (page_drawings pages) m).
Proof.
  intros H. rewrite applyAnnotations_outcome, H. now rewrite reached_all.
Qed.

(** The drawings of a key in range that holds an array. *)
Lemma page_drawings_array (pages : list (page num)) key n pg pageAnns :
  parseInt key = Some n -> 1 <= n ->
  nth_error pages (Z.to_nat (n - 1)) = Some pg ->
  in_range pages key = true /\
  page_drawings pages (key, Annotations pageAnns)
  = flat_map (annotation_drawings (Z.to_nat (n - 1)) (width pg) (height pg))
             pageAnns.
Proof.
  intros Hk Hn Hpg.
  assert (Hr : in_range pages key = true).
  { unfold in_range. rewrite Hk.
    assert (Hlt : (Z.to_nat (n - 1) < length pages)%nat)
      by (apply nth_error_Some; congruence).
    apply andb_true_intro. split.
    - rewrite Z.geb_leb. apply Z.leb_le. lia.
    - apply Z.leb_le. unfold length_of. lia. }
  split; [exact Hr|].
  unfold page_drawings. cbn [fst snd]. now rewrite Hk, Hr, Hpg.
Qed.

Lemma map_points_some w h (pts : list (point num)) :
  map_points w h (map Some pts) = Normal (map (to_page w h) pts).
Proof.
  induction pts as [|p pts IH]; simpl; [reflexivity|]. now rewrite IH.
Qed.

Lemma draw_segments_step i thickness colorObj opacity c
      (p q : point num) (rest : list (point num)) (cv : canvas) :
  rgb_of colorObj = Normal c ->
  drawLine_accepts (LineOptions p q thickness c opacity) = true ->
  draw_segments i (p :: q :: rest) thickness colorObj opacity cv =
  draw_segments i (q :: rest) thickness colorObj opacity
                (cv ++ [DrawLine i (LineOptions p q thickness c opacity)]).
Proof.
  intros Hc Ho.
  change (draw_segments i (p :: q :: rest) thickness colorObj opacity)
    with (bind (lift (rgb_of colorObj)) (fun c0 =>
          bind (drawLine i (LineOptions p q thickness c0 opacity)) (fun _ =>
          draw_segments i (q :: rest) thickness colorObj opacity))).
  unfold bind, lift. rewrite Hc. unfold drawLine. now rewrite Ho.
Qed.

Lemma draw_segments_all i w h thickness colorObj opacity c (pts : list (point num)) :
  rgb_of colorObj = Normal c ->
  Forall (fun o => drawLine_accepts o = true) (polyline w h pts thickness c opacity) ->
  forall cv : canvas,
    draw_segments i (map (to_page w h) pts) thickness colorObj opacity cv =
    (Normal tt, cv ++ map (DrawLine i) (polyline w h pts thickness c opacity)).
Proof.
  intros Hc. unfold polyline.
  induction pts as [|p rest IH]; intros Hacc cv.
  - nothing_drawn.
  - destruct rest as [|q rest].
    + nothing_drawn.
    + cbn [tl combine map fst snd] in Hacc |- *.
      inversion Hacc as [|o os Ho Hos]; subst.
      rewrite (@draw_segments_step i thickness colorObj opacity c
                 (to_page w h p) (to_page w h q) (map (to_page w h) rest)
                 cv Hc Ho).
      cbn [tl map] in IH. rewrite (IH Hos). now rewrite <- app_assoc.
Qed.

End CompositorFacts.
(* ================================================================== *)
(** ** Properties of the compositor *)

Section ExactArithmetic.
Context {num : Type} {N : JsNumber num}.
Variables (zero one : num) (opp : num -> num).
Hypothesis exact : ring_theory zero one add mul sub opp (@eq num).

Add Ring exact_ring : exact.

(** In exact arithmetic the two ways of writing the vertical position
    of a text agree; in doubles they need not. *)
Lemma text_shift_regroup (a fontSize two : num) :
  add (sub a fontSize) two = sub a (sub fontSize two).
Proof. ring. Qed.

End ExactArithmetic.

Section CompositorClaims.
Context {num Color : Type} {N : JsNumber num} {L : PdfLib num Color}.

#[local] Abbreviation canvas := (list (drawing num Color)).

(** What the loop has drawn when it is done with a map in which the
    key [key], in range, holds an array and no earlier key ends the
    loop: the drawings of the earlier keys, those of each annotation of
    the array, and those of the later keys it gets to. *)
Lemma applyAnnotations_at (pages : list (page num))
      (pre post : list (jsstring * page_value num)) (key : jsstring) (n : Z)
      (pg : page num) (pageAnns : list (annotation num)) (cv : canvas) :
  parseInt key = Some n -> 1 <= n ->
  nth_error pages (Z.to_nat (n - 1)) = Some pg ->
  existsb (breaks pages) pre = false ->
  snd (applyAnnotations pages (pre ++ (key, Annotations pageAnns) :: post) cv)
  = cv ++ flat_map (page_drawings pages) pre
       ++ flat_map (annotation_drawings (Z.to_nat (n - 1)) (width pg) (height pg))
                   pageAnns
       ++ flat_map (page_drawings pages) (reached pages post).
Proof.
  intros Hk Hn Hpg Hpre.
  destruct (page_drawings_array pages key pageAnns Hk Hn Hpg) as [Hr Hd].
  rewrite applyAnnotations_outcome. cbn [snd].
  rewrite reached_app by exact Hpre. cbn [reached].
  replace (breaks pages (key, Annotations pageAnns)) with false
    by (unfold breaks; cbn [fst snd]; now rewrite andb_false_r).
  rewrite flat_map_app. cbn [flat_map]. now rewrite Hd.
Qed.

(** A stroke of at least two points whose colour and segments are
    accepted: the segments, in order. *)
Lemma path_drawings (pageIndex : nat) (w h : num)
      (pts : list (point num)) (color : option jsstring)
      (opacity strokeWidth : option num) (c : Color) :
  (2 <= length pts)%nat ->
  rgb_of (parse_color (PValue (Some (lit 1)) (Some (lit 1)) (Some (lit 0))) color)
  = Normal c ->
  Forall (fun o => drawLine_accepts o = true)
         (polyline w h pts (or_default strokeWidth (lit 5)) c
                   (match opacity with Some o => o | None => lit (1#2) end)) ->
  forall cv : canvas,
    draw_annotation pageIndex w h
                    (PathAnn (map Some pts) color opacity strokeWidth) cv
    = (Normal tt,
       cv ++ map (DrawLine pageIndex)
                 (polyline w h pts (or_default strokeWidth (lit 5)) c
                           (match opacity with Some o => o | None => lit (1#2) end))).
Proof.
  intros Hlen Hc Hacc cv. unfold draw_annotation.
  replace (length_of (map Some pts) >? 1) with true
    by (symmetry; unfold length_of; rewrite length_map; apply Z.gtb_lt; lia).
  unfold bind at 1. unfold lift. rewrite map_points_some.
  now apply draw_segments_all.
Qed.

Lemma short_path_drawings (pageIndex : nat) (w h : num)
      (short : list (option (point num))) (color : option jsstring)
      (opacity strokeWidth : option num) (cv : canvas) :
  (length short < 2)%nat ->
  draw_annotation pageIndex w h (PathAnn short color opacity strokeWidth) cv
  = (Normal tt, cv).
Proof.
  intros Hs. unfold draw_annotation.
  replace (length_of short >? 1) with false; [reflexivity|].
  symmetry. unfold length_of. rewrite Z.gtb_ltb. apply Z.ltb_ge. lia.
Qed.


(** C4, amended: when the loop gets to a page key in range that holds
    an array, a path annotation of that array with at least 2 points,
    none of them [null], whose colour [rgb] accepts and whose segments
    [drawLine] accepts, has each point [(x, y)] taken to [(x *
    pageWidth, pageHeight - y * pageHeight)] and one segment drawn
    between each pair of adjacent points, in order, between the
    drawings of the annotations before it and after it; with fewer
    than 2 points it draws nothing and raises no error. *)
Theorem path_annotation_segments (pages : list (page num))
        (pre post : list (jsstring * page_value num))
        (key : jsstring) (n : Z) (pg : page num)
        (before after : list (annotation num))
        (pts : list (point num)) (color : option jsstring)
        (opacity strokeWidth : option num) (c : Color) (cv : canvas) :
  parseInt key = Some n -> 1 <= n ->
  nth_error pages (Z.to_nat (n - 1)) = Some pg ->
  existsb (breaks pages) pre = false ->
  (2 <= length pts)%nat ->
  rgb_of (parse_color (PValue (Some (lit 1)) (Some (lit 1)) (Some (lit 0))) color)
  = Normal c ->
  Forall (fun o => drawLine_accepts o = true)
         (polyline (width pg) (height pg) pts (or_default strokeWidth (lit 5)) c
                   (match opacity with Some o => o | None => lit (1#2) end)) ->
  snd (applyAnnotations pages
         (pre ++ (key, Annotations
                         (before ++ PathAnn (map Some pts) color opacity
                                            strokeWidth :: after)) :: post) cv)
  = cv ++ flat_map (page_drawings pages) pre
       ++ flat_map (annotation_drawings (Z.to_nat (n - 1)) (width pg) (height pg))
                   before
       ++ map (DrawLine (Z.to_nat (n - 1)))
              (polyline (width pg) (height pg) pts
                        (or_default strokeWidth (lit 5)) c
                        (match opacity with Some o => o | None => lit (1#2) end))
       ++ flat_map (annotation_drawings (Z.to_nat (n - 1)) (width pg) (height pg))
                   after
       ++ flat_map (page_drawings pages) (reached pages post)
  /\ length (polyline (width pg) (height pg) pts
                      (or_default strokeWidth (lit 5)) c
                      (match opacity with Some o => o | None => lit (1#2) end))
     = (length pts - 1)%nat
  /\ (forall short col op sw,
         (length short < 2)%nat ->
         draw_annotation (Z.to_nat (n - 1)) (width pg) (height pg)
                         (PathAnn short col op sw) cv = (Normal tt, cv)
         /\ snd (applyAnnotations pages
                   (pre ++ (key, Annotations
                                   (before ++ PathAnn short col op sw :: after))
                        :: post) cv)
            = cv ++ flat_map (page_drawings pages) pre
                 ++ flat_map (annotation_drawings (Z.to_nat (n - 1))
                                                  (width pg) (height pg)) before
                 ++ flat_map (annotation_drawings (Z.to_nat (n - 1))
                                                  (width pg) (height pg)) after
                 ++ flat_map (page_drawings pages) (reached pages post)).
Proof.
  intros Hk Hn Hpg Hpre Hlen Hc Hacc.
  split; [|split].
  - rewrite (applyAnnotations_at pages pre post key _ cv Hk Hn Hpg Hpre).
    rewrite flat_map_app. cbn [flat_map].
    unfold annotation_drawings at 2.
    rewrite (path_drawings _ _ _ pts color opacity strokeWidth Hlen Hc Hacc).
    cbn [snd app]. now rewrite <- !app_assoc.
  - unfold polyline. rewrite length_map, length_combine.
    destruct pts as [|p pts]; cbn [length tl]; [reflexivity|].
    rewrite Nat.min_r; lia.
  - intros short col op sw Hs. split; [now apply short_path_drawings|].
    rewrite (applyAnnotations_at pages pre post key _ cv Hk Hn Hpg Hpre).
    rewrite flat_map_app. cbn [flat_map].
    unfold annotation_drawings at 2.
    rewrite short_path_drawings by exact Hs.
    cbn [snd app]. now rewrite <- !app_assoc.
Qed.


(** C6: a key whose page number is outside [1, page count] (and a key
    that is no number at all) is skipped, whatever its value: nothing
    is drawn for it, no exception is raised, and the other keys are
    processed as if it were not there: the loop goes on through them up
    to the first key in range whose value is no array, if there is one,
    and where there is none each of them adds its drawings. *)
Theorem out_of_range_keys_skipped (pages : list (page num))
        (pre post : list (jsstring * page_value num))
        (key : jsstring) (value : page_value num) (cv : canvas) :
  (forall n, parseInt key = Some n -> n < 1 \/ length_of pages < n) ->
  annotate_page pages (key, value) cv = (Normal tt, cv)
  /\ applyAnnotations pages (pre ++ (key, value) :: post) cv
     = applyAnnotations pages (pre ++ post) cv
  /\ applyAnnotations pages (pre ++ post) cv
     = (if existsb (breaks pages) (pre ++ post) then Throw else Normal tt,
        cv ++ flat_map (page_drawings pages) (reached pages (pre ++ post)))
  /\ (existsb (breaks pages) (pre ++ post) = false ->
      applyAnnotations pages (pre ++ post) cv
      = (Normal tt,
         cv ++ flat_map (page_drawings pages) pre
            ++ flat_map (page_drawings pages) post)).
Proof.
  intros Hout.
  assert (Hr : in_range pages key = false).
  { unfold in_range. destruct (parseInt key) as [n|] eqn:E; [|reflexivity].
    destruct (Hout n eq_refl) as [Hn | Hn].
    - replace (n >=? 1) with false; [reflexivity|].
      symmetry. rewrite Z.geb_leb. apply Z.leb_gt. lia.
    - replace (n <=? length_of pages) with false;
        [now rewrite andb_false_r|].
      symmetry. apply Z.leb_gt. lia. }
  assert (Hskip : page_drawings pages (key, value) = []).
  { unfold page_drawings. cbn [fst]. rewrite Hr.
    now destruct (parseInt key). }
  assert (Hb : breaks pages (key, value) = false).
  { unfold breaks. cbn [fst]. now rewrite Hr. }
  split; [|split; [|split]].
  - rewrite annotate_page_outcome, Hb, Hskip. now rewrite app_nil_r.
  - rewrite !applyAnnotations_outcome, !existsb_app. cbn [existsb].
    rewrite Hb. cbn [orb]. f_equal. f_equal.
    destruct (existsb (breaks pages) pre) eqn:Ep.
    + clear - Ep. induction pre as [|e pre IH]; [discriminate Ep|].
      cbn [existsb app reached] in *.
      destruct (breaks pages e); [reflexivity|].
      cbn [orb] in Ep. cbn [flat_map]. now rewrite (IH Ep).
    + rewrite !reached_app by exact Ep. cbn [reached]. rewrite Hb.
      rewrite !flat_map_app. cbn [flat_map]. now rewrite Hskip.
  - apply applyAnnotations_outcome.
  - intros Hall. rewrite applyAnnotations_drawings by exact Hall.
    rewrite flat_map_app. now rewrite app_assoc.
Qed.

(** C7, amended: a failure inside the [try] of one annotation does not
    reach the other annotations: on each page the loop adds what every
    annotation draws on its own, and a colour that [JSON.parse] rejects
    leaves the default colour.  The loop over the map raises exactly
    when a key in range holds a value that is neither falsy nor an
    array; the keys after it are not drawn.  The caller is reached by
    that, and by a failure to load the document, to embed the font or
    to save the result, and by nothing else. *)
Theorem annotation_failures_contained (pages : list (page num))
        (m : list (jsstring * page_value num)) (cv : canvas) :
  applyAnnotations pages m cv
  = (if existsb (breaks pages) m then Throw else Normal tt,
     cv ++ flat_map (page_drawings pages) (reached pages m))
  /\ (existsb (breaks pages) m = false -> failures_contained pages m)
  /\ (forall i w h before ann after,
         forEach (before ++ ann :: after)
                 (fun a => try_catch (draw_annotation i w h a)) cv
         = (Normal tt,
            cv ++ flat_map (annotation_drawings i w h) before
               ++ annotation_drawings i w h ann
               ++ flat_map (annotation_drawings i w h) after))
  /\ (forall dflt c, JSON_parse c = Throw -> parse_color dflt (Some c) = dflt)
  /\ (forall (A : Type) load font (save : canvas -> completion A),
         annotated_pdf load font save m = Throw <->
         load = Throw \/ font = Throw \/
         exists pgs, load = Normal pgs /\
                     (existsb (breaks pgs) m = true \/
                      save (flat_map (page_drawings pgs) m) = Throw)).
Proof.
  split; [apply applyAnnotations_outcome|]. split; [|split; [|split]].
  - intros Hall cv'. now apply applyAnnotations_drawings.
  - intros i w h before ann after.
    rewrite forEach_annotations, flat_map_app. reflexivity.
  - intros dflt c Hc. unfold parse_color. rewrite Hc.
    now destruct (truthy_str c).
  - intros A load font save. unfold annotated_pdf.
    destruct load as [pgs|]; [|intuition].
    destruct font as [u|]; [|intuition].
    rewrite applyAnnotations_outcome. cbn [app].
    destruct (existsb (breaks pgs) m) eqn:Eb.
    + split; [|reflexivity]. intros _. right. right. exists pgs.
      split; [reflexivity|now left].
    + rewrite (reached_all pgs m Eb). split.
      * intros H. right. right. exists pgs. split; [reflexivity|now right].
      * intros [H | [H | (pgs' & H & [Hs | Hs])]]; try discriminate.
        -- injection H as <-. congruence.
        -- injection H as <-. exact Hs.
Qed.

End CompositorClaims.

(* ================================================================== *)
(** ** The compositor on an A4 page *)

Lemma path_annotation_segments_witness :
  snd (applyAnnotations [a4]
         ([] ++ (js "1", Annotations ([sample_note] ++ sample_path :: []))
             :: [(js "7", NotArray)]) [])
  = [] ++ flat_map (page_drawings [a4]) []
       ++ flat_map (annotation_drawings (Z.to_nat (1 - 1)) (width a4) (height a4))
                   [sample_note]
       ++ map (DrawLine (Z.to_nat (1 - 1)))
              (polyline (width a4) (height a4) sample_stroke
                        (or_default None (lit 5)) yellow (lit (1#2)))
       ++ flat_map (annotation_drawings (Z.to_nat (1 - 1)) (width a4) (height a4))
                   []
       ++ flat_map (page_drawings [a4]) (reached [a4] [(js "7", NotArray)])
  /\ length (polyline (width a4) (height a4) sample_stroke
                      (or_default None (lit 5)) yellow (lit (1#2))) = 2%nat.
Proof.
  assert (H1 : parseInt (js "1") = Some 1) by (vm_compute; reflexivity).
  assert (H2 : 1 <= 1) by lia.
  assert (H3 : nth_error [a4] (Z.to_nat (1 - 1)) = Some a4) by reflexivity.
  assert (H4 : existsb (breaks [a4]) [] = false) by reflexivity.
  assert (H5 : (2 <= length sample_stroke)%nat) by (simpl; lia).
  assert (H6 : rgb_of (parse_color (PValue (Some (lit 1)) (Some (lit 1))
                                           (Some (lit 0))) None)
               = Normal yellow) by reflexivity.
  assert (H7 : Forall (fun o => drawLine_accepts o = true)
                      (polyline (width a4) (height a4) sample_stroke
                                (or_default None (lit 5)) yellow (lit (1#2))))
    by (repeat constructor).
  destruct (@path_annotation_segments _ _ _ _ [a4] [] [(js "7", NotArray)]
              (js "1") 1 a4 [sample_note] [] sample_stroke None None None
              yellow [] H1 H2 H3 H4 H5 H6 H7) as (Hd & Hl & _).
  split; [exact Hd|exact Hl].
Defined.

(** C4, as stated, fails: a stroke of two points whose colour is the
    JSON text [null], or whose opacity is 3/2, and a stroke of three
    entries one of which is [null], draw no segment (the other
    annotations of the page are drawn); a stroke of the second page is
    not drawn when the first key holds a value that is no array, nor is
    a stroke under the key 7 of a document of one page. *)
Lemma path_claim_fails :
  ~ path_drawn_as_claimed 0 (width a4) (height a4) (map Some short_stroke)
                          (Some (js "null")) None None
  /\ ~ path_drawn_as_claimed 0 (width a4) (height a4) (map Some short_stroke)
                             None (Some (Q2Qc (3#2))) None
  /\ ~ path_drawn_as_claimed 0 (width a4) (height a4)
                             [ Some (Point (Q2Qc (1#10)) (Q2Qc (1#5))); None;
                               Some (Point (Q2Qc 1) (Q2Qc 1)) ] None None None
  /\ applyAnnotations [a4]
       [(js "1", Annotations [null_colour_path; opaque_path; broken_path;
                              sample_note])] []
     = (Normal tt,
        [DrawText 0 (js "rit.")
                  (TextOptions (Q2Qc 0) (Q2Qc 832) (Q2Qc 12) black)])
  /\ applyAnnotations [a4; a4]
       [(js "1", NotArray); (js "2", Annotations [sample_path])] []
     = (Throw, [])
  /\ applyAnnotations [a4] [(js "7", Annotations [sample_path])] []
     = (Normal tt, []).
Proof.
  assert (E1 : annotation_drawings 0 (width a4) (height a4) null_colour_path = [])
    by (vm_compute; reflexivity).
  assert (E2 : annotation_drawings 0 (width a4) (height a4) opaque_path = [])
    by (vm_compute; reflexivity).
  assert (E3 : annotation_drawings 0 (width a4) (height a4) broken_path = [])
    by (vm_compute; reflexivity).
  assert (Hno : forall (points : list (option (point Qc))) color opacity sw,
             (2 <= length points)%nat ->
             annotation_drawings 0 (width a4) (height a4)
                                 (PathAnn points color opacity sw) = [] ->
             ~ path_drawn_as_claimed 0 (width a4) (height a4) points
                                     color opacity sw).
  { intros points color opacity sw Hlen E (pts & t & c & o & Hl & _ & H).
    rewrite E in H. rewrite <- Hl in Hlen.
    destruct pts as [|p [|q pts]]; cbn [length] in Hlen; try lia.
    discriminate H. }
  split; [|split; [|split; [|split; [|split]]]].
  - apply Hno; [cbn; lia|exact E1].
  - apply Hno; [cbn; lia|exact E2].
  - apply Hno; [cbn; lia|exact E3].
  - rewrite applyAnnotations_outcome. vm_compute. reflexivity.
  - rewrite applyAnnotations_outcome. reflexivity.
  - rewrite applyAnnotations_outcome. reflexivity.
Qed.



Lemma out_of_range_keys_skipped_witness :
  (forall n, parseInt (js "0") = Some n -> n < 1 \/ length_of [a4] < n) /\
  (annotate_page [a4] (js "0", NotArray) [] = (Normal tt, [])
   /\ applyAnnotations [a4] ([(js "1", Annotations [sample_note])]
                               ++ (js "0", NotArray)
                               :: [(js "7", Annotations [sample_note])]) []
      = applyAnnotations [a4] ([(js "1", Annotations [sample_note])]
                                 ++ [(js "7", Annotations [sample_note])]) []
   /\ applyAnnotations [a4] ([(js "1", Annotations [sample_note])]
                               ++ [(js "7", Annotations [sample_note])]) []
      = (Normal tt,
         [] ++ flat_map (page_drawings [a4])
                        [(js "1", Annotations [sample_note])]
            ++ flat_map (page_drawings [a4])
                        [(js "7", Annotations [sample_note])])).
Proof.
  assert (H : forall n, parseInt (js "0") = Some n -> n < 1 \/ length_of [a4] < n).
  { intros n E. vm_compute in E. injection E as <-. left. lia. }
  split; [exact H|].
  destruct (@out_of_range_keys_skipped _ _ _ _ [a4]
              [(js "1", Annotations [sample_note])]
              [(js "7", Annotations [sample_note])] (js "0") NotArray [] H)
    as (H1 & H2 & _ & H3).
  split; [exact H1|]. split; [exact H2|]. apply H3.
  vm_compute. reflexivity.
Defined.

Lemma annotation_failures_contained_witness :
  failures_contained [a4]
    [(js "1", Annotations [null_colour_path; Malformed; sample_note]);
     (js "7", NotArray)].
Proof.
  apply (proj1 (proj2
           (@annotation_failures_contained _ _ _ _ [a4]
              [(js "1", Annotations [null_colour_path; Malformed; sample_note]);
               (js "7", NotArray)] []))).
  vm_compute. reflexivity.
Defined.

(** C7, as stated, fails: in a document of two pages whose first key
    holds a value that is no array, the loop raises, the text of the
    second page is not drawn, and the caller is reached although the
    document was loaded, the font embedded and nothing was saved. *)
Lemma page_value_failure_not_contained :
  ~ failures_contained [a4; a4]
      [(js "1", NotArray); (js "2", Annotations [sample_note])]
  /\ applyAnnotations [a4; a4]
       [(js "1", NotArray); (js "2", Annotations [sample_note])] []
     = (Throw, [])
  /\ annotated_pdf (Normal [a4; a4]) (Normal tt)
                   (fun cv : list (drawing Qc (Qc * Qc * Qc)) => Normal cv)
                   [(js "1", NotArray); (js "2", Annotations [sample_note])]
     = Throw.
Proof.
  assert (E : applyAnnotations [a4; a4]
                [(js "1", NotArray); (js "2", Annotations [sample_note])] []
              = (Throw, [])).
  { rewrite applyAnnotations_outcome. reflexivity. }
  split; [|split].
  - intros H. specialize (H []). rewrite E in H. discriminate H.
  - exact E.
  - unfold annotated_pdf. now rewrite E.
Qed.

(** The document of one page with keys 1, 0 and 7: the text of key 1 is
    drawn 10 points below the top edge, the other keys draw nothing. *)
Example one_page_document :
  applyAnnotations [a4] [ (js "1", Annotations [sample_note]);
                          (js "0", Annotations [sample_path]);
                          (js "7", Annotations [sample_note]) ] []
  = (Normal tt,
     [DrawText 0 (js "rit.")
               (TextOptions (Q2Qc 0) (Q2Qc 832) (Q2Qc 12) black)]).
Proof.
  rewrite applyAnnotations_outcome. reflexivity.
Qed.

(* ================================================================== *)
(** ** The text-layer strategy and the OCR route: properties *)

Lemma textLines_truthy raw line :
  In line (textLines raw) -> truthy_str line = true.
Proof.
  intros H. apply textLines_nonempty in H. now destruct line.
Qed.

Lemma in_class_bounds cls lo hi c :
  Forall (fun r => lo <= fst r /\ snd r <= hi) cls ->
  in_class cls c = true -> lo <= c <= hi.
Proof.
  intros Hall H. unfold in_class in H.
  apply existsb_exists in H. destruct H as (r & Hr & Hc).
  rewrite Forall_forall in Hall. specialize (Hall r Hr).
  apply andb_prop in Hc. destruct Hc as [H1 H2].
  apply Z.leb_le in H1, H2. lia.
Qed.

Lemma letters_disjoint c :
  in_class greek_letters c && in_class latin_letters c = false.
Proof.
  destruct (in_class greek_letters c) eqn:G;
    destruct (in_class latin_letters c) eqn:La; try reflexivity.
  apply (@in_class_bounds greek_letters 0x391 0x3CE) in G;
    [|repeat constructor; simpl; lia].
  apply (@in_class_bounds latin_letters 0x41 0x7A) in La;
    [|repeat constructor; simpl; lia].
  lia.
Qed.

Lemma letters_le_length s :
  count_matches greek_letters s + count_matches latin_letters s
  <= Z.of_nat (length s).
Proof.
  unfold count_matches. induction s as [|c s IH]; [simpl; lia|].
  pose proof (letters_disjoint c) as D. cbn [filter].
  destruct (in_class greek_letters c); destruct (in_class latin_letters c);
    try discriminate D; cbn [length]; lia.
Qed.

(** A clean line has at least three code units. *)
Lemma clean_line_length line :
  isCleanLine line = true -> (length_of line >=? 3) = true.
Proof.
  unfold isCleanLine, length_of. intros H.
  apply andb_prop in H. destruct H as [H _]. apply Z.geb_le in H.
  apply Z.geb_le. pose proof (letters_le_length line). lia.
Qed.

Lemma pdf_strategy_fields (text : jsstring) :
  rawText (extractMetadataFromPdf text) = text /\
  title (extractMetadataFromPdf text) = nth 0 (textLines text) [] /\
  composer (extractMetadataFromPdf text) = nth 1 (textLines text) [].
Proof.
  unfold extractMetadataFromPdf. simpl.
  pose proof (@textLines_truthy text) as T.
  destruct (textLines text) as [|l1 [|l2 rest]]; simpl.
  - repeat split.
  - rewrite (T l1) by (now left). repeat split.
  - rewrite (T l1) by (now left). rewrite (T l2) by (right; now left).
    repeat split.
Qed.

(** X1. The text-layer strategy returns the text itself, the first
    trimmed non-empty line as title and the second as composer, each the
    empty string when the text has no such line; so the title is empty
    exactly when the text has no non-blank line, and a composer is never
    returned without a title. *)
Theorem pdf_strategy_first_two_lines (text : jsstring) :
  rawText (extractMetadataFromPdf text) = text /\
  title (extractMetadataFromPdf text) = nth 0 (textLines text) [] /\
  composer (extractMetadataFromPdf text) = nth 1 (textLines text) [] /\
  (title (extractMetadataFromPdf text) = [] <-> textLines text = []) /\
  (composer (extractMetadataFromPdf text) <> [] ->
   title (extractMetadataFromPdf text) <> []).
Proof.
  unfold extractMetadataFromPdf. simpl.
  pose proof (@textLines_truthy text) as T.
  destruct (textLines text) as [|l1 [|l2 rest]]; simpl.
  - repeat split; congruence.
  - rewrite (T l1) by (now left).
    assert (l1 <> []) by (intros ->; specialize (T [] (or_introl eq_refl));
                          discriminate).
    repeat split; try congruence; intros; congruence.
  - rewrite (T l1) by (now left). rewrite (T l2) by (right; now left).
    assert (l1 <> []) by (intros ->; specialize (T [] (or_introl eq_refl));
                          discriminate).
    repeat split; try congruence; intros; congruence.
Qed.

(** X2. On a text whose first line is a title candidate, whose second
    line is clean and differs from the first, and in which no line
    carries a Μουσική or Στίχοι label, the OCR heuristic and the
    text-layer strategy return the same record. *)
Theorem strategies_agree (text l1 l2 : jsstring) (rest : list jsstring) :
  textLines text = l1 :: l2 :: rest ->
  title_candidate l1 = true ->
  isCleanLine l2 = true ->
  l2 <> l1 ->
  label_loop (textLines text) [] = Normal [] ->
  extract text = Normal (extractMetadataFromPdf text) /\
  extractMetadataFromPdf text = Metadata l1 l2 text.
Proof.
  intros Hl Ht Hc Hne Hlab.
  assert (Hpdf : extractMetadataFromPdf text = Metadata l1 l2 text).
  { unfold extractMetadataFromPdf. rewrite Hl. simpl.
    rewrite (@textLines_truthy text l1), (@textLines_truthy text l2);
      rewrite ?Hl; simpl; auto. }
  split; [|exact Hpdf]. rewrite Hpdf.
  destruct (extract_normal text) as (c & Hc0 & _ & ->).
  rewrite Hlab in Hc0. injection Hc0 as <-.
  rewrite Hl. simpl negb. cbv iota.
  unfold title_candidate in Ht.
  apply andb_prop in Ht. destruct Ht as [Ht Hlen].
  apply andb_prop in Ht. destruct Ht as [Hclean Hnolabel].
  rewrite <- exec_label_re in Hnolabel.
  assert (Htitle : title_loop (l1 :: l2 :: rest) = l1).
  { simpl. rewrite Hclean. simpl.
    destruct (exec label_re l1); [discriminate|]. now rewrite Hlen. }
  rewrite Htitle. f_equal. f_equal.
  simpl. rewrite Hclean, Hc. simpl.
  replace (str_eqb l2 l1) with false
    by (unfold str_eqb; now destruct (list_eq_dec Z.eq_dec l2 l1)).
  now rewrite (clean_line_length l2 Hc).
Qed.

Lemma strategies_agree_witness :
  textLines beethoven_page =
    js "Symphony No. 5" :: js "Ludwig van Beethoven" :: [js "Music: L. Beethoven"] /\
  title_candidate (js "Symphony No. 5") = true /\
  isCleanLine (js "Ludwig van Beethoven") = true /\
  js "Ludwig van Beethoven" <> js "Symphony No. 5" /\
  label_loop (textLines beethoven_page) [] = Normal [] /\
  extract beethoven_page = Normal (extractMetadataFromPdf beethoven_page) /\
  extractMetadataFromPdf beethoven_page =
    Metadata (js "Symphony No. 5") (js "Ludwig van Beethoven") beethoven_page.
Proof.
  assert (H1 : textLines beethoven_page =
               js "Symphony No. 5" :: js "Ludwig van Beethoven"
                  :: [js "Music: L. Beethoven"]) by (vm_compute; reflexivity).
  assert (H2 : title_candidate (js "Symphony No. 5") = true)
    by (vm_compute; reflexivity).
  assert (H3 : isCleanLine (js "Ludwig van Beethoven") = true)
    by (vm_compute; reflexivity).
  assert (H4 : js "Ludwig van Beethoven" <> js "Symphony No. 5")
    by (vm_compute; discriminate).
  assert (H5 : label_loop (textLines beethoven_page) [] = Normal [])
    by (vm_compute; reflexivity).
  repeat (split; [assumption|]).
  exact (@strategies_agree beethoven_page _ _ _ H1 H2 H3 H4 H5).
Defined.

(** X3. For an uploaded PDF whose text was read, the route answers the
    "no embedded text" warning exactly when that text is the empty
    string; a text of blank lines only is answered with its metadata,
    title and composer empty, and no warning. *)
Theorem pdf_warning_iff_empty_text (text : jsstring)
        (ocrText : completion jsstring) (unlink : completion unit) :
  (fst (ocr_route (Some (js "application/pdf")) (Normal text) ocrText unlink)
   = Warning no_text_warning <-> text = []) /\
  (text <> [] -> textLines text = [] ->
   ocr_route (Some (js "application/pdf")) (Normal text) ocrText (Normal tt)
   = (Found (Metadata [] [] text), true)).
Proof.
  unfold ocr_route.
  replace (str_eqb (js "application/pdf") (js "application/pdf")) with true
    by reflexivity.
  destruct (pdf_strategy_fields text) as (Hr & Ht & Hc).
  split.
  - split.
    + intros H.
      destruct (negb (truthy_str (title (extractMetadataFromPdf text))) &&
                negb (truthy_str (composer (extractMetadataFromPdf text))) &&
                negb (truthy_str (rawText (extractMetadataFromPdf text)))) eqn:E.
      * apply andb_prop in E. destruct E as [_ E]. rewrite Hr in E.
        now destruct text.
      * unfold cleanup_and_answer in H. destruct unlink; discriminate H.
    + intros ->. reflexivity.
  - intros Hne Hl. rewrite Ht, Hc, Hr.
    unfold extractMetadataFromPdf. rewrite Hl. simpl.
    destruct text; [congruence | reflexivity].
Qed.

Lemma pdf_warning_iff_empty_text_witness :
  [0x20; 0x0A] <> [] /\ textLines [0x20; 0x0A] = [] /\
  ocr_route (Some (js "application/pdf")) (Normal [0x20; 0x0A]) Throw (Normal tt)
  = (Found (Metadata [] [] [0x20; 0x0A]), true).
Proof.
  assert (H1 : [0x20; 0x0A] <> ([] : jsstring)) by discriminate.
  assert (H2 : textLines [0x20; 0x0A] = []) by reflexivity.
  split; [exact H1|]. split; [exact H2|].
  exact (proj2 (pdf_warning_iff_empty_text [0x20; 0x0A] Throw (Normal tt)) H1 H2).
Defined.

(** X4. The uploaded temporary file is removed exactly on the path that
    answers with the metadata: whenever the route answers 400, a warning
    or 500, the file is left in place. *)
Theorem upload_removed_only_with_metadata (mimetype : option jsstring)
        (pdfText ocrText : completion jsstring) (unlink : completion unit) :
  snd (ocr_route mimetype pdfText ocrText unlink) = true <->
  exists md, fst (ocr_route mimetype pdfText ocrText unlink) = Found md.
Proof.
  unfold ocr_route, cleanup_and_answer.
  destruct mimetype as [m|]; [|split; [discriminate | intros [? H]; discriminate H]].
  destruct (str_eqb m (js "application/pdf")).
  - destruct pdfText as [text|];
      [|split; [discriminate | intros [? H]; discriminate H]].
    destruct (negb (truthy_str (title (extractMetadataFromPdf text))) &&
              negb (truthy_str (composer (extractMetadataFromPdf text))) &&
              negb (truthy_str (rawText (extractMetadataFromPdf text))));
      [split; [discriminate | intros [? H]; discriminate H]|].
    destruct unlink; simpl; split; eauto; try discriminate.
    intros [? H]; discriminate H.
  - destruct (startsWith (js "image/") m);
      [|split; [discriminate | intros [? H]; discriminate H]].
    destruct ocrText as [text|];
      [|split; [discriminate | intros [? H]; discriminate H]].
    destruct (processSmartMetadata text);
      [|split; [discriminate | intros [? H]; discriminate H]].
    destruct unlink; simpl; split; eauto; try discriminate.
    intros [? H]; discriminate H.
Qed.

(** X5. For an uploaded image the route answers 500 only when the OCR
    engine or the removal of the temporary file throws: the heuristic
    itself never fails, and the answer is the record it extracts. *)
Theorem image_route_answers_extract (mimetype text : jsstring) :
  str_eqb mimetype (js "application/pdf") = false ->
  startsWith (js "image/") mimetype = true ->
  (forall pdfText,
      exists md, extract text = Normal md /\
                 ocr_route (Some mimetype) pdfText (Normal text) (Normal tt)
                 = (Found md, true)) /\
  (forall pdfText ocrText unlink,
      fst (ocr_route (Some mimetype) pdfText ocrText unlink) = OcrFailed ->
      ocrText = Throw \/ unlink = Throw).
Proof.
  intros Hpdf Himg. split.
  - intros pdfText. destruct (extract_normal text) as (c & _ & _ & Hmd).
    eexists. split; [exact Hmd|].
    unfold ocr_route. rewrite Hpdf, Himg.
    unfold extract in Hmd. now rewrite Hmd.
  - intros pdfText ocrText unlink. unfold ocr_route. rewrite Hpdf, Himg.
    destruct ocrText as [txt|]; [|now left].
    destruct (extract_normal txt) as (c & _ & _ & Hmd).
    unfold extract in Hmd. rewrite Hmd.
    unfold cleanup_and_answer. destruct unlink; [discriminate | now right].
Qed.

Lemma image_route_answers_extract_witness :
  str_eqb (js "image/png") (js "application/pdf") = false /\
  startsWith (js "image/") (js "image/png") = true /\
  (forall pdfText,
      exists md, extract beethoven_page = Normal md /\
                 ocr_route (Some (js "image/png")) pdfText
                           (Normal beethoven_page) (Normal tt)
                 = (Found md, true)) /\
  (forall pdfText ocrText unlink,
      fst (ocr_route (Some (js "image/png")) pdfText ocrText unlink) = OcrFailed ->
      ocrText = Throw \/ unlink = Throw).
Proof.
  assert (H1 : str_eqb (js "image/png") (js "application/pdf") = false)
    by reflexivity.
  assert (H2 : startsWith (js "image/") (js "image/png") = true) by reflexivity.
  split; [exact H1|]. split; [exact H2|].
  exact (@image_route_answers_extract (js "image/png") beethoven_page H1 H2).
Defined.

(* ================================================================== *)
(** ** The download handler: properties *)

Lemma replace_unsafe_kept s :
  Forall (fun c => in_class kept_chars c = true) (replace_unsafe s).
Proof.
  unfold replace_unsafe. induction s as [|c s IH]; cbn [map]; constructor; auto.
  destruct (in_class kept_chars c) eqn:E; [exact E | reflexivity].
Qed.

Lemma replace_unsafe_id s :
  Forall (fun c => in_class kept_chars c = true) s -> replace_unsafe s = s.
Proof.
  unfold replace_unsafe. induction 1 as [|c s Hc Hs IH]; cbn [map]; [reflexivity|].
  now rewrite Hc, IH.
Qed.

Lemma Forall_firstn (A : Type) (P : A -> Prop) n (l : list A) :
  Forall P l -> Forall P (firstn n l).
Proof.
  intros H. revert n. induction H; intros [|n]; simpl; auto.
Qed.

Lemma or_str_truthy a b : b <> [] -> or_str a b <> [].
Proof.
  intros Hb. unfold or_str. destruct a as [[|c s]|]; simpl; congruence.
Qed.

Lemma safeTitle_nonempty title : safeTitle title <> [].
Proof.
  unfold safeTitle, substring_from_0, replace_unsafe.
  pose proof (@or_str_truthy title (js "sheet")) as H.
  destruct (or_str title (js "sheet")); [exfalso; apply H; [discriminate|reflexivity]|].
  discriminate.
Qed.

Lemma safeTitle_kept title :
  (length (safeTitle title) <= 50)%nat /\
  Forall (fun c => in_class kept_chars c = true) (safeTitle title).
Proof.
  split; [apply firstn_le_length | apply Forall_firstn, replace_unsafe_kept].
Qed.

(** X6. The file name offered for the annotated PDF is never empty, has
    at most 50 code units, and is made of ASCII letters, digits,
    underscores, white space, dots and hyphens only; so it holds no
    double quote, backslash or slash, and the quotes of the
    Content-Disposition header are exactly the two that delimit it. *)
Theorem safeTitle_is_safe (title : option jsstring) :
  safeTitle title <> [] /\
  (length (safeTitle title) <= 50)%nat /\
  Forall (fun c => in_class kept_chars c = true) (safeTitle title) /\
  ~ In 0x22 (safeTitle title) /\
  ~ In 0x5C (safeTitle title) /\
  ~ In 0x2F (safeTitle title) /\
  count_occ Z.eq_dec (content_disposition (safeTitle title)) 0x22 = 2%nat.
Proof.
  destruct (safeTitle_kept title) as [_ Hk].
  assert (Hno : forall q, in_class kept_chars q = false -> ~ In q (safeTitle title)).
  { intros q Hq Hin. rewrite Forall_forall in Hk. specialize (Hk q Hin).
    congruence. }
  split; [apply safeTitle_nonempty|]. split; [apply firstn_le_length|].
  split; [exact Hk|].
  split; [now apply Hno|]. split; [now apply Hno|]. split; [now apply Hno|].
  unfold content_disposition. rewrite !count_occ_app.
  rewrite (proj1 (count_occ_not_In Z.eq_dec (safeTitle title) 0x22));
    [reflexivity | now apply Hno].
Qed.

(** X7. Sanitizing is idempotent, and a title that is already safe, not
    empty and of at most 50 code units is offered unchanged. *)
Theorem safeTitle_idempotent (title : option jsstring) :
  safeTitle (Some (safeTitle title)) = safeTitle title /\
  (forall t, t <> [] -> (length t <= 50)%nat ->
             Forall (fun c => in_class kept_chars c = true) t ->
             safeTitle (Some t) = t).
Proof.
  assert (Hid : forall t, t <> [] -> (length t <= 50)%nat ->
                          Forall (fun c => in_class kept_chars c = true) t ->
                          safeTitle (Some t) = t).
  { intros t Hne Hlen Hk. unfold safeTitle, substring_from_0, or_str.
    destruct t as [|c t]; [congruence|]. cbn [truthy_str].
    rewrite (replace_unsafe_id Hk). now apply firstn_all2. }
  split; [|exact Hid].
  destruct (safeTitle_kept title) as (Hlen & Hk).
  apply Hid; auto using safeTitle_nonempty.
Qed.

Lemma kept_header_chars c :
  in_class kept_chars c = true ->
  in_class header_chars c = negb (in_class header_breaking c).
Proof.
  intros H. apply in_class_members in H.
  assert (E : forallb (fun c => Bool.eqb (in_class header_chars c)
                                         (negb (in_class header_breaking c)))
                      (members kept_chars) = true)
    by (vm_compute; reflexivity).
  rewrite forallb_forall in E. apply Bool.eqb_prop. now apply E.
Qed.

Lemma valid_content_disposition title :
  valid_header_value (content_disposition (safeTitle title))
  = negb (existsb (in_class header_breaking) (safeTitle title)).
Proof.
  unfold valid_header_value, content_disposition.
  rewrite !forallb_app.
  replace (forallb (in_class header_chars) (js "attachment; filename="))
    with true by (vm_compute; reflexivity).
  replace (forallb (in_class header_chars) [34]) with true
    by (vm_compute; reflexivity).
  replace (forallb (in_class header_chars) (js "_annotated.pdf"))
    with true by (vm_compute; reflexivity).
  cbn [andb]. rewrite !andb_true_r.
  destruct (safeTitle_kept title) as [_ Hk].
  induction Hk as [|c t Hc Ht IH]; [reflexivity|].
  cbn [forallb existsb]. rewrite IH, (kept_header_chars c Hc).
  now destruct (in_class header_breaking c).
Qed.

Section DownloadFacts.
Context {num Color : Type} {N : JsNumber num} {L : PdfLib num Color}.

(** X8. When the sheet has a file, the original PDF was fetched and
    loaded, the font embedded, and saving does not fail, the handler
    redirects to the file unless [annotated] is exactly "true" and the
    annotation map has a key; else it answers 500 in two cases and no
    other: a key in range holds a value that is neither falsy nor an
    array, or the sanitized title holds a line break or a white space
    beyond Latin-1, which [\s] keeps and a header may not hold; else it
    sends the document with what every annotation drew, under the
    sanitized file name. *)
Theorem download_failures (A : Type)
        (sheet : sheet_row num) (others : list (sheet_row num))
        (url : jsstring) (annotated : option jsstring)
        (pages : list (page num))
        (render : list (drawing num Color) -> A) :
  sheet_file_url sheet = Some url -> url <> [] ->
  download (Normal (sheet :: others)) annotated (Normal true)
           (Normal pages) (Normal tt) (fun cv => Normal (render cv))
  = match sheet_annotations sheet, annotated with
    | Some (entry :: m), Some a =>
      if str_eqb a (js "true")
      then
        if existsb (breaks pages) (entry :: m)
           || existsb (in_class header_breaking) (safeTitle (sheet_title sheet))
        then DownloadFailed
        else Attachment (content_disposition (safeTitle (sheet_title sheet)))
                        (render (flat_map (page_drawings pages) (entry :: m)))
      else Redirect url
    | _, _ => Redirect url
    end.
Proof.
  intros Hurl Hne. unfold download. rewrite Hurl.
  unfold or_str. destruct url as [|c url]; [congruence|]. cbn [truthy_str negb].
  remember (js "true") as T eqn:HT. clear HT.
  destruct (sheet_annotations sheet) as [[|entry m]|].
  - destruct annotated as [a|]; [|reflexivity].
    simpl. rewrite orb_true_r. now destruct (str_eqb a T).
  - destruct annotated as [a|]; [|reflexivity].
    unfold length_of. cbn [length].
    replace (Z.of_nat (S (length m)) >? 0) with true
      by (symmetry; apply Z.gtb_lt; lia).
    destruct (str_eqb a T); [|reflexivity].
    cbn [negb orb]. unfold annotated_pdf.
    rewrite applyAnnotations_outcome, valid_content_disposition.
    destruct (existsb (breaks pages) (entry :: m)) eqn:Eb; [reflexivity|].
    rewrite (reached_all pages (entry :: m) Eb). cbn [orb].
    now destruct (existsb (in_class header_breaking) _).
  - destruct annotated as [a|]; [|reflexivity].
    simpl. rewrite orb_true_r. now destruct (str_eqb a T).
Qed.

End DownloadFacts.

Lemma download_failures_witness :
  download (Normal [two_line_title_sheet]) (Some (js "true")) (Normal true)
           (Normal [a4]) (Normal tt)
           (fun cv : list (drawing Qc (Qc * Qc * Qc)) => Normal (length cv))
  = DownloadFailed.
Proof.
  assert (H1 : sheet_file_url two_line_title_sheet = Some (js "https://x/y.pdf"))
    by reflexivity.
  assert (H2 : js "https://x/y.pdf" <> []) by discriminate.
  rewrite (@download_failures _ _ _ _ nat two_line_title_sheet [] _
             (Some (js "true")) [a4] (fun cv => length cv) H1 H2).
  vm_compute. reflexivity.
Defined.

(** A sheet without a title is sent as [sheet_annotated.pdf]; the key 9
    of a document of one page is skipped. *)
Example untitled_sheet_downloads :
  download (Normal [SheetRow (Some (js "https://x/y.pdf")) None
                             (Some [(js "1", Annotations [sample_note]);
                                    (js "9", Annotations [sample_path])])])
           (Some (js "true")) (Normal true) (Normal [a4]) (Normal tt)
           (fun cv : list (drawing Qc (Qc * Qc * Qc)) => Normal (length cv))
  = Attachment (content_disposition (js "sheet")) 1%nat.
Proof. vm_compute. reflexivity. Qed.

(* ================================================================== *)
(** ** Case folding on ASCII *)

Ltac zbool :=
  repeat match goal with
         | H : (_ && _) = true |- _ => apply andb_prop in H; destruct H
         | H : (_ && _) = false |- _ => apply andb_false_iff in H; destruct H
         | H : (_ || _) = true |- _ => apply orb_prop in H; destruct H
         | H : (_ || _) = false |- _ => apply orb_false_iff in H; destruct H
         | H : (_ <=? _) = true |- _ => apply Z.leb_le in H
         | H : (_ <=? _) = false |- _ => apply Z.leb_gt in H
         | H : (_ <? _) = true |- _ => apply Z.ltb_lt in H
         | H : (_ <? _) = false |- _ => apply Z.ltb_ge in H
         | H : (_ =? _) = true |- _ => apply Z.eqb_eq in H
         | H : (_ =? _) = false |- _ => apply Z.eqb_neq in H
         end.

(** A code unit folds to an ASCII unit only if it is ASCII itself: a
    lower-case letter folds to its capital, any other to itself. *)
Lemma canonicalize_ascii c :
  canonicalize c < 0x80 ->
  (0x61 <= c <= 0x7A /\ canonicalize c = c - 0x20) \/
  (canonicalize c = c /\ c < 0x80 /\ ~ (0x61 <= c <= 0x7A)).
Proof.
  unfold canonicalize.
  repeat match goal with
         | |- context [if ?b then _ else _] => destruct b eqn:?
         end; intros; zbool; lia.
Qed.

Lemma canonicalize_lower c :
  0x61 <= c <= 0x7A -> canonicalize c = c - 0x20.
Proof.
  intros H. unfold canonicalize.
  replace ((0x61 <=? c) && (c <=? 0x7A)) with true; [reflexivity|].
  symmetry. apply andb_true_intro. split; apply Z.leb_le; lia.
Qed.

Lemma canonicalize_below_a c : c < 0x61 -> canonicalize c = c.
Proof.
  intros H. unfold canonicalize.
  repeat match goal with
         | |- context [if ?b then _ else _] => destruct b eqn:?
         end; zbool; lia.
Qed.

(** Under the [i] flag the class [[0-9a-f]] matches the hexadecimal
    digits of either case, and the hyphen only itself. *)
Lemma class_matches_hex c : class_matches hex_digits c = is_hex c.
Proof.
  apply eq_true_iff_eq. split.
  - intros H. unfold class_matches in H. apply existsb_exists in H.
    destruct H as (a & Ha & Hm). unfold char_matches in Hm.
    apply Z.eqb_eq in Hm.
    assert (Hc : canonicalize c < 0x80 /\
                 (0x30 <= canonicalize c <= 0x39 \/ 0x41 <= canonicalize c <= 0x46)).
    { rewrite <- Hm. clear Hm. vm_compute in Ha.
      repeat (destruct Ha as [<- | Ha]; [vm_compute; split; [reflexivity|];
                                         first [left; split; discriminate
                                               |right; split; discriminate]|]).
      destruct Ha. }
    destruct Hc as [Hlt Hr].
    unfold is_hex, in_class. simpl.
    destruct (canonicalize_ascii c Hlt) as [[Hl E] | [E [Hl Hn]]];
      rewrite E in Hr.
    + replace ((97 <=? c) && (c <=? 102)) with true;
        [now rewrite !orb_true_r|].
      symmetry. apply andb_true_intro. split; apply Z.leb_le; lia.
    + destruct Hr as [Hr | Hr].
      * replace ((48 <=? c) && (c <=? 57)) with true; [reflexivity|].
        symmetry. apply andb_true_intro. split; apply Z.leb_le; lia.
      * replace ((65 <=? c) && (c <=? 70)) with true;
          [now rewrite !orb_true_r|].
        symmetry. apply andb_true_intro. split; apply Z.leb_le; lia.
  - intros H. unfold is_hex, in_class in H. simpl in H.
    unfold class_matches. apply existsb_exists.
    rewrite orb_false_r in H.
    apply orb_prop in H. destruct H as [H | H]; [|apply orb_prop in H; destruct H as [H | H]];
      zbool.
    + exists c. split; [|apply Z.eqb_refl].
      apply in_class_members. unfold in_class, hex_digits. simpl.
      replace ((48 <=? c) && (c <=? 57)) with true; [reflexivity|].
      symmetry. apply andb_true_intro. split; apply Z.leb_le; lia.
    + exists (c + 0x20). split.
      * apply in_class_members. unfold in_class, hex_digits. simpl.
        replace ((97 <=? c + 32) && (c + 32 <=? 102)) with true;
          [now rewrite !orb_true_r|].
        symmetry. apply andb_true_intro. split; apply Z.leb_le; lia.
      * unfold char_matches. rewrite canonicalize_lower by lia.
        rewrite canonicalize_below_a by lia. apply Z.eqb_eq. lia.
    + exists c. split; [|apply Z.eqb_refl].
      apply in_class_members. unfold in_class, hex_digits. simpl.
      replace ((97 <=? c) && (c <=? 102)) with true;
        [now rewrite !orb_true_r|].
      symmetry. apply andb_true_intro. split; apply Z.leb_le; lia.
Qed.

Lemma char_matches_hyphen c : char_matches 0x2D c = (c =? 0x2D).
Proof.
  unfold char_matches. change (canonicalize 45) with 45.
  destruct (Z.eqb_spec 45 (canonicalize c)) as [E | E].
  - symmetry. apply Z.eqb_eq.
    destruct (canonicalize_ascii c) as [[Hl E'] | [E' _]]; lia.
  - symmetry. apply Z.eqb_neq. intros ->. apply E. reflexivity.
Qed.

(* ================================================================== *)
(** ** The UUID pattern *)

Lemma rmatch_any_of (R : Type) cls pos s cap (k : cont R) :
  rmatch (any_of cls) pos s cap k =
  match s with
  | c :: s' => if class_matches cls c then k (S pos) s' cap else None
  | [] => None
  end.
Proof.
  unfold any_of, class_matches. induction (members cls) as [|a l IH].
  - destruct s; reflexivity.
  - cbn [fold_right rmatch existsb]. rewrite IH.
    destruct s as [|c s']; [reflexivity|].
    destruct (char_matches a c); cbn [orb]; [|reflexivity].
    destruct (k (S pos) s' cap); [reflexivity|].
    now destruct (existsb (fun a0 => char_matches a0 c) l).
Qed.

Lemma rmatch_Times (R : Type) cls n : forall pos s cap (k : cont R),
  rmatch (Times n (any_of cls)) pos s cap k =
  if (n <=? length s)%nat && forallb (class_matches cls) (firstn n s)
  then k (pos + n)%nat (skipn n s) cap
  else None.
Proof.
  induction n as [|n IH]; intros pos s cap k.
  - cbn. now rewrite Nat.add_0_r.
  - cbn [Times rmatch]. rewrite rmatch_any_of.
    destruct s as [|c s']; [reflexivity|].
    cbn [length firstn skipn forallb Nat.leb].
    destruct (class_matches cls c); cbn [andb];
      [|now rewrite andb_false_r].
    rewrite IH. now replace (S pos + n)%nat with (pos + S n)%nat by lia.
Qed.

Lemma forallb_ext_in (A : Type) (f g : A -> bool) l :
  (forall a, f a = g a) -> forallb f l = forallb g l.
Proof.
  intros H. induction l as [|a l IH]; simpl; [reflexivity|].
  now rewrite H, IH.
Qed.

Lemma rmatch_hex_groups (R : Type) sizes : forall pos s cap (k : cont R),
  rmatch (hex_groups_re sizes) pos s cap k =
  if hex_groups sizes s then k (pos + length s)%nat [] cap else None.
Proof.
  induction sizes as [|n sizes IH]; intros pos s cap k.
  - destruct s; cbn; [now rewrite Nat.add_0_r | reflexivity].
  - cbn [hex_groups_re hex_groups rmatch]. rewrite rmatch_Times.
    rewrite (forallb_ext_in _ is_hex (firstn n s) class_matches_hex).
    destruct ((n <=? length s)%nat) eqn:Hn; cbn [andb]; [|reflexivity].
    apply Nat.leb_le in Hn.
    destruct (forallb is_hex (firstn n s)); cbn [andb]; [|reflexivity].
    assert (Hlen : length s = (n + length (skipn n s))%nat)
      by (rewrite length_skipn; lia).
    destruct sizes as [|m sizes].
    + cbn [rmatch]. destruct (skipn n s); [|reflexivity].
      simpl in Hlen. now rewrite Hlen, Nat.add_0_r.
    + cbn [rmatch]. destruct (skipn n s) as [|c s'] eqn:Hs; [reflexivity|].
      rewrite char_matches_hyphen. destruct (c =? 45); cbn [andb]; [|reflexivity].
      rewrite IH. cbn [length] in Hlen.
      now replace (S (pos + n) + length s')%nat with (pos + length s)%nat by lia.
Qed.

Lemma isValidUUID_groups s :
  isValidUUID s = hex_groups [8; 4; 4; 4; 12]%nat s.
Proof.
  unfold isValidUUID, test, uuid_re.
  change (Seq (Times 8 (any_of hex_digits)) _)
    with (hex_groups_re [8; 4; 4; 4; 12]%nat).
  rewrite exec_bol. unfold match_here. cbn [rmatch].
  rewrite rmatch_hex_groups. now destruct (hex_groups _ s).
Qed.

Lemma isValidUUID_length s : isValidUUID s = true -> length s = 36%nat.
Proof.
  rewrite isValidUUID_groups. cbn [hex_groups]. intros H.
  repeat match type of H with
         | (_ && _) = true => apply andb_prop in H; destruct H as [? H]
         end.
  repeat match goal with
         | H : (_ <=? _)%nat = true |- _ => apply Nat.leb_le in H
         | H : (match skipn ?n ?l with _ => _ end) = true |- _ =>
           let E := fresh "E" in
           let L := fresh "L" in
           destruct (skipn n l) eqn:E; [try discriminate H|try discriminate H];
           assert (L := f_equal (@length Z) E); rewrite length_skipn in L;
           cbn [length] in L
         | H : (_ && _) = true |- _ => apply andb_prop in H; destruct H
         end.
  lia.
Qed.

(** X9. [isValidUUID] accepts exactly the strings made of five groups of
    8, 4, 4, 4 and 12 hexadecimal digits, of either case, separated by
    hyphens: every accepted string has 36 code units, and nothing may
    precede or follow the groups (a trailing line break is refused). *)
Theorem isValidUUID_shape (str : jsstring) :
  isValidUUID str = hex_groups [8; 4; 4; 4; 12]%nat str /\
  (isValidUUID str = true -> length str = 36%nat) /\
  (forall tail, tail <> [] -> isValidUUID str = true ->
                isValidUUID (str ++ tail) = false).
Proof.
  split; [apply isValidUUID_groups|]. split; [apply isValidUUID_length|].
  intros tail Hne Hv. destruct (isValidUUID (str ++ tail)) eqn:Hv'; [|reflexivity].
  apply isValidUUID_length in Hv. apply isValidUUID_length in Hv'.
  rewrite length_app in Hv'.
  destruct tail; [congruence|]. simpl in Hv'. lia.
Qed.

Example uuid_accepted :
  isValidUUID (js "123e4567-E89B-12d3-a456-426614174000") = true.
Proof. vm_compute. reflexivity. Qed.

Example uuid_line_break_refused :
  isValidUUID (js "123e4567-e89b-12d3-a456-426614174000" ++ [0x0A]) = false.
Proof. vm_compute. reflexivity. Qed.

Example uuid_braces_refused :
  isValidUUID (js "{123e4567-e89b-12d3-a456-426614174000}") = false.
Proof. vm_compute. reflexivity. Qed.

(* ================================================================== *)
(** ** Tags *)

Lemma split_no_separator sep s :
  Forall (fun piece => ~ In sep piece) (split sep s).
Proof.
  induction s as [|c s IH]; cbn [split].
  - constructor; [intros []|constructor].
  - destruct (Z.eqb_spec c sep) as [->|Hc].
    + constructor; [intros []|exact IH].
    + destruct (split sep s) as [|piece pieces].
      * constructor; [|constructor]. intros [E|[]]. congruence.
      * inversion IH as [|? ? Hp Hps]; subst. constructor; [|exact Hps].
        intros [E|Hin]; [congruence | now apply Hp].
Qed.

Lemma In_trimStart c s : In c (trimStart s) -> In c s.
Proof.
  destruct (trimStart_suffix s) as [p Hp]. intros H. rewrite Hp.
  apply in_or_app. now right.
Qed.

Lemma In_trim c s : In c (trim s) -> In c s.
Proof.
  unfold trim, trimEnd. intros H.
  apply In_trimStart. apply in_rev. apply In_trimStart. now apply in_rev in H.
Qed.

(** X10. Every tag that [POST /api/sheets] stores is non-empty, has no
    white space at either end and holds no comma; an absent or empty
    field gives no tag. *)
Theorem parseTags_well_formed (tags : option jsstring) :
  Forall well_formed_tag (parseTags tags) /\
  parseTags None = [] /\ parseTags (Some []) = [].
Proof.
  split; [|split; reflexivity].
  unfold parseTags. destruct tags as [t|]; [|constructor].
  destruct (truthy_str t); [|constructor].
  apply Forall_forall. intros x Hx.
  apply filter_In in Hx. destruct Hx as [Hx Ht].
  apply in_map_iff in Hx. destruct Hx as (p & <- & Hp).
  split; [|split].
  - intros E. rewrite E in Ht. discriminate.
  - apply trim_idem.
  - intros Hin. apply In_trim in Hin.
    pose proof (split_no_separator 0x2C t) as Hs.
    rewrite Forall_forall in Hs. exact (Hs p Hp Hin).
Qed.

Lemma split_single sep s : ~ In sep s -> split sep s = [s].
Proof.
  induction s as [|c s IH]; intros H; cbn [split]; [reflexivity|].
  destruct (Z.eqb_spec c sep) as [->|Hc]; [exfalso; apply H; now left|].
  rewrite IH by (intros Hin; apply H; now right). reflexivity.
Qed.

Lemma split_app_separator sep a r :
  ~ In sep a -> split sep (a ++ sep :: r) = a :: split sep r.
Proof.
  induction a as [|c a IH]; intros H; cbn [app split].
  - now rewrite Z.eqb_refl.
  - destruct (Z.eqb_spec c sep) as [->|Hc]; [exfalso; apply H; now left|].
    rewrite IH by (intros Hin; apply H; now right). reflexivity.
Qed.

Lemma split_join_tags l : forall a,
  Forall (fun t => ~ In 0x2C t) (a :: l) ->
  forall p, ~ In 0x2C p ->
  split 0x2C (p ++ join (js ", ") (a :: l)) = (p ++ a) :: map (cons 0x20) l.
Proof.
  induction l as [|b l IH]; intros a Hall p Hp.
  - cbn [join map]. apply split_single. intros Hin.
    apply in_app_or in Hin. inversion Hall; subst. tauto.
  - inversion Hall as [|? ? Ha Hrest]; subst.
    change (join (js ", ") (a :: b :: l))
      with (a ++ 0x2C :: ([0x20] ++ join (js ", ") (b :: l))).
    rewrite app_assoc, split_app_separator
      by (intros Hin; apply in_app_or in Hin; tauto).
    rewrite (IH b Hrest [0x20]) by (intros [E|[]]; discriminate E).
    reflexivity.
Qed.

Lemma trim_after_space t : trim (0x20 :: t) = trim t.
Proof. reflexivity. Qed.

(** X11. Tags joined with ", " are read back as they were: parsing the
    joined text of well-formed tags returns those tags, in order. *)
Theorem parseTags_join (l : list jsstring) :
  Forall well_formed_tag l ->
  parseTags (Some (join (js ", ") l)) = l.
Proof.
  intros H. destruct l as [|a l]; [reflexivity|].
  assert (Hnc : Forall (fun t => ~ In 0x2C t) (a :: l))
    by (eapply Forall_impl; [|exact H]; intros t (_ & _ & Ht); exact Ht).
  inversion H as [|? ? (Hne & Htrim & _) Hl]; subst.
  unfold parseTags.
  replace (truthy_str (join (js ", ") (a :: l))) with true
    by (destruct a; [congruence|]; now destruct l).
  assert (Es := @split_join_tags l a Hnc [] (fun x => x)).
  cbn [app] in Es. unfold jsstring in *. rewrite Es.
  cbn [app map filter]. rewrite Htrim.
  replace (truthy_str a) with true by (now destruct a).
  f_equal. clear - Hl. induction Hl as [|t l (Hne & Htrim & _) Hl IH];
    [reflexivity|].
  cbn [map filter]. rewrite trim_after_space, Htrim.
  replace (truthy_str t) with true by (now destruct t).
  now rewrite IH.
Qed.

Lemma parseTags_join_witness :
  Forall well_formed_tag [js "piano"; js "20th century"; js "jazz"] /\
  parseTags (Some (join (js ", ") [js "piano"; js "20th century"; js "jazz"]))
  = [js "piano"; js "20th century"; js "jazz"].
Proof.
  assert (H : Forall well_formed_tag [js "piano"; js "20th century"; js "jazz"]).
  { repeat constructor; try discriminate;
      vm_compute; intuition discriminate. }
  split; [exact H|]. exact (parseTags_join H).
Defined.

(* ================================================================== *)
(** ** Folder ids *)

Lemma filter_valid_ids l :
  Forall (fun v => isValidUUID (to_string v) = true) (filter isValidUUID_of l).
Proof.
  apply Forall_forall. intros v Hv. now apply filter_In in Hv.
Qed.

(** What [folderIds] gives on its own, in each of its forms. *)
Lemma createFolderIds_sent (parse : jsstring -> completion (list value))
      folderIds :
  createFolderIds parse folderIds None =
  match folderIds with
  | Items l => filter isValidUUID_of l
  | Text s =>
    match s, parse s with
    | _ :: _, Normal l => filter isValidUUID_of l
    | _, _ => []
    end
  | Absent => []
  | Other => []
  end.
Proof.
  unfold createFolderIds. destruct folderIds as [|s|l|]; try reflexivity.
  destruct s as [|c s]; [reflexivity|]. cbn [truthy_str].
  now destruct (parse (c :: s)).
Qed.

Lemma createFolderIds_legacy (parse : jsstring -> completion (list value))
      folderIds id :
  createFolderIds parse folderIds (Some id) =
  match createFolderIds parse folderIds None with
  | [] => if to_boolean id && isValidUUID_of id then [id] else []
  | first :: more => first :: more
  end.
Proof.
  unfold createFolderIds.
  set (parsed := match folderIds with
                 | Absent => []
                 | Text s => _
                 | Items l => _
                 | Other => []
                 end).
  destruct parsed as [|first more]; [|reflexivity].
  change (length_of (@nil value) =? 0) with true. reflexivity.
Qed.


(** X13. [PUT /api/sheets/:id] leaves the folders alone exactly when
    neither field is sent; every id it sets is a value whose conversion
    to a string is a UUID; and once [folderIds] is sent, in whatever
    form, the legacy [folderId] is not looked at: where [folderIds]
    gives no id, the update sets no folder, while the creation route
    falls back on a valid [folderId]. *)
Theorem updateFolderIds_valid (parse : jsstring -> completion (list value))
        (folderIds : list_field) (folderId : option value) :
  (updateFolderIds parse folderIds folderId = None <->
   folderIds = Absent /\ folderId = None) /\
  (forall ids, updateFolderIds parse folderIds folderId = Some ids ->
               Forall (fun v => isValidUUID (to_string v) = true) ids) /\
  (folderIds <> Absent ->
   updateFolderIds parse folderIds folderId
   = updateFolderIds parse folderIds None) /\
  (forall id,
     folderIds <> Absent ->
     updateFolderIds parse folderIds None = Some [] ->
     to_boolean id = true -> isValidUUID_of id = true ->
     updateFolderIds parse folderIds (Some id) = Some [] /\
     createFolderIds parse folderIds (Some id) = [id]).
Proof.
  split; [|split; [|split]].
  - unfold updateFolderIds. destruct folderIds as [|s|l|].
    + destruct folderId; split; try discriminate; try tauto.
      intros [_ H]. discriminate H.
    + destruct (parse s); split; try discriminate; intros [H _]; discriminate H.
    + split; try discriminate; intros [H _]; discriminate H.
    + split; try discriminate; intros [H _]; discriminate H.
  - intros ids. unfold updateFolderIds. destruct folderIds as [|s|l|].
    + destruct folderId as [id|]; [|discriminate].
      intros H. injection H as <-.
      destruct (to_boolean id && isValidUUID_of id) eqn:E; [|constructor].
      apply andb_prop in E. destruct E as [_ E]. now repeat constructor.
    + destruct (parse s); intros H; injection H as <-;
        [apply filter_valid_ids | constructor].
    + intros H. injection H as <-. apply filter_valid_ids.
    + intros H. injection H as <-. constructor.
  - intros Hsent. destruct folderIds; [contradiction|reflexivity..].
  - intros id Hsent Hnone Hb Hv. split.
    + destruct folderIds; [contradiction|exact Hnone..].
    + rewrite createFolderIds_legacy, Hb, Hv. cbn [andb].
      assert (E : createFolderIds parse folderIds None = []).
      { rewrite createFolderIds_sent. unfold updateFolderIds in Hnone.
        destruct folderIds as [|s|l|]; try reflexivity.
        - destruct s as [|c s]; [reflexivity|].
          destruct (parse (c :: s)); [now injection Hnone|reflexivity].
        - now injection Hnone. }
      now rewrite E.
Qed.

(* ================================================================== *)
(** ** Placeholders of the generated SQL *)

(** Reading the decimal digits of a number gives the number back. *)
Lemma parse_digits_units d : forall (acc : nat) rest,
  parse_digits 10 (uint_units d ++ rest) (Some (Z.of_nat acc)) =
  parse_digits 10 rest (Some (Z.of_nat (Nat.of_uint_acc d acc))).
Proof.
  induction d; intros acc rest; cbn [uint_units app Nat.of_uint_acc];
    [reflexivity|..];
    (cbn [parse_digits];
     match goal with
     | |- context [digit_value 10 ?c] =>
       let v := eval vm_compute in (digit_value 10 c) in
       change (digit_value 10 c) with v
     end;
     cbv iota; rewrite <- IHd; do 2 f_equal;
     rewrite Nat.tail_mul_spec; lia).
Qed.

Lemma to_uint_nonnil n : Nat.to_uint n <> Decimal.Nil.
Proof.
  intros E. pose proof (DecimalNat.Unsigned.of_to n) as H.
  rewrite E in H. cbn in H. subst n. discriminate E.
Qed.

Lemma parse_digits_stop s acc :
  starts_without_digit s -> parse_digits 10 s acc = acc.
Proof.
  destruct s as [|c s]; [reflexivity|]. cbn. now intros ->.
Qed.

Lemma parse_digits_decimal n rest :
  starts_without_digit rest ->
  parse_digits 10 (decimal n ++ rest) None = Some (Z.of_nat n).
Proof.
  intros Hr. unfold decimal.
  assert (H0 : parse_digits 10 (uint_units (Nat.to_uint n) ++ rest) None =
               parse_digits 10 (uint_units (Nat.to_uint n) ++ rest)
                            (Some (Z.of_nat 0))).
  { pose proof (to_uint_nonnil n) as Hn.
    destruct (Nat.to_uint n); [congruence|..]; reflexivity. }
  rewrite H0, parse_digits_units, parse_digits_stop by assumption.
  change (Nat.of_uint_acc (Nat.to_uint n) 0) with (Nat.of_uint (Nat.to_uint n)).
  now rewrite DecimalNat.Unsigned.of_to.
Qed.

Lemma uint_units_digits d :
  Forall (fun c => 0x30 <= c <= 0x39) (uint_units d).
Proof.
  induction d; cbn [uint_units]; constructor; auto; lia.
Qed.

Lemma placeholders_skip pre rest :
  ~ In 0x24 pre -> placeholders (pre ++ rest) = placeholders rest.
Proof.
  induction pre as [|c pre IH]; intros H; [reflexivity|].
  cbn [app placeholders].
  destruct (Z.eqb_spec c 0x24) as [->|_]; [exfalso; apply H; now left|].
  apply IH. intros Hin. apply H. now right.
Qed.

(** A literal text, a dollar sign, a number and a text that does not go
    on with a digit: the number is the next placeholder. *)
Lemma placeholders_interpolated pre n rest :
  ~ In 0x24 pre -> starts_without_digit rest ->
  placeholders (pre ++ 0x24 :: decimal n ++ rest) =
  Z.of_nat n :: placeholders rest.
Proof.
  intros Hpre Hrest. rewrite placeholders_skip by assumption.
  cbn [placeholders]. rewrite Z.eqb_refl, parse_digits_decimal by assumption.
  f_equal. apply placeholders_skip. unfold decimal. intros Hin.
  pose proof (uint_units_digits (Nat.to_uint n)) as Hd.
  rewrite Forall_forall in Hd. specialize (Hd _ Hin). lia.
Qed.

Lemma placeholders_item i tail :
  placeholders ((js "($1, $" ++ decimal (i + 2) ++ js ")") ++ tail) =
  [1; Z.of_nat i + 2] ++ placeholders tail.
Proof.
  rewrite <- !app_assoc.
  change (js "($1, $" ++ decimal (i + 2) ++ js ")" ++ tail)
    with ([40] ++ 0x24 :: decimal 1 ++
          ([44; 32] ++ 0x24 :: decimal (i + 2) ++ ([41] ++ tail))).
  rewrite (@placeholders_interpolated [40] 1)
    by (try exact I; try reflexivity; intros [E|[]]; discriminate E).
  rewrite (@placeholders_interpolated [44; 32] (i + 2))
    by (try exact I; try reflexivity; intros [E|[E|[]]]; discriminate E).
  rewrite placeholders_skip by (intros [E|[]]; discriminate E).
  cbn [app]. do 2 f_equal. lia.
Qed.

Lemma join_cons_map (A : Type) (f : A -> jsstring) sep a b l :
  join sep (a :: map f (b :: l)) = a ++ sep ++ join sep (map f (b :: l)).
Proof. reflexivity. Qed.

Lemma placeholders_values l : forall tail,
  placeholders
    (join (js ", ") (map (fun i => js "($1, $" ++ decimal (i + 2) ++ js ")") l)
     ++ tail) =
  flat_map (fun i => [1; Z.of_nat i + 2]) l ++ placeholders tail.
Proof.
  induction l as [|i l IH]; intros tail; [reflexivity|].
  destruct l as [|j l].
  - cbn [map join flat_map]. rewrite placeholders_item.
    now rewrite app_nil_r.
  - rewrite (map_cons _ i), join_cons_map.
    rewrite <- (app_assoc (js "($1, $" ++ decimal (i + 2) ++ js ")")).
    rewrite placeholders_item.
    rewrite <- (app_assoc (js ", ")).
    rewrite placeholders_skip by (intros [E|[E|[]]]; discriminate E).
    rewrite IH. cbn [flat_map]. now rewrite <- !app_assoc.
Qed.

(** X14. In the statement that links a sheet to its folders, the
    placeholders are [$1] and [$(i + 2)] for the folder of index [i]:
    each one names a parameter that is passed, and, when there is a
    folder, every parameter passed is named. *)
Theorem insert_sheet_folders_placeholders (sheetId : jsstring)
        (validFolderIds : list jsstring) :
  placeholders (fst (insert_sheet_folders sheetId validFolderIds)) =
    flat_map (fun i => [1; Z.of_nat i + 2]) (seq 0 (length validFolderIds)) /\
  Forall (fun k => 1 <= k <=
                   Z.of_nat (length (snd (insert_sheet_folders sheetId validFolderIds))))
         (placeholders (fst (insert_sheet_folders sheetId validFolderIds))) /\
  (validFolderIds <> [] ->
   forall k, 1 <= k <=
             Z.of_nat (length (snd (insert_sheet_folders sheetId validFolderIds))) ->
             In k (placeholders (fst (insert_sheet_folders sheetId validFolderIds)))).
Proof.
  assert (E : placeholders (fst (insert_sheet_folders sheetId validFolderIds)) =
              flat_map (fun i => [1; Z.of_nat i + 2])
                       (seq 0 (length validFolderIds))).
  { unfold insert_sheet_folders, folderValues. cbn [fst].
    rewrite placeholders_skip by (vm_compute; intuition discriminate).
    rewrite <- (app_nil_r (join _ _)), placeholders_values.
    now rewrite app_nil_r. }
  split; [exact E|]. rewrite E.
  change (snd (insert_sheet_folders sheetId validFolderIds))
    with (sheetId :: validFolderIds).
  cbn [length]. split.
  - apply Forall_forall. intros k Hk. apply in_flat_map in Hk.
    destruct Hk as (i & Hi & Hk). apply in_seq in Hi.
    destruct Hk as [<-|[<-|[]]]; lia.
  - intros Hne k Hk. apply in_flat_map.
    destruct validFolderIds as [|f l]; [congruence|]. cbn [length] in *.
    destruct (Z.eq_dec k 1) as [->|Hk1].
    + exists 0%nat. split; [apply in_seq; lia | now left].
    + exists (Z.to_nat (k - 2)). split; [apply in_seq; lia|].
      right. left. lia.
Qed.

Example insert_two_folders :
  fst (insert_sheet_folders (js "s") [js "a"; js "b"]) =
  js "INSERT INTO sheet_folders (sheet_id, folder_id) VALUES ($1, $2), ($1, $3)".
Proof. reflexivity. Qed.

(* ================================================================== *)
(** ** The query of the sheet list *)

Section ListingFacts.

Import Listing.

Lemma plain_start_spec t :
  plain_start t = true -> starts_without_digit t.
Proof.
  destruct t as [|c t]; cbn; [trivial|].
  destruct (digit_value 10 c); [discriminate|reflexivity].
Qed.

Lemma plain_start_app t tail :
  plain_start t = true -> starts_without_digit tail ->
  starts_without_digit (t ++ tail).
Proof.
  destruct t as [|c t]; intros Ht Htail; [exact Htail|].
  exact (plain_start_spec (c :: t) Ht).
Qed.

Lemma no_dollar_spec t :
  forallb (fun x => negb (x =? 0x24)) t = true -> ~ In 0x24 t.
Proof.
  intros H Hin. rewrite forallb_forall in H. specialize (H _ Hin).
  cbn in H. discriminate H.
Qed.

(** A template piece ending with [$], then an interpolated number. *)
Lemma placeholders_piece t n rest :
  one_dollar_last t = true -> starts_without_digit rest ->
  placeholders (t ++ decimal n ++ rest) = Z.of_nat n :: placeholders rest.
Proof.
  unfold one_dollar_last. intros Ht Hrest.
  destruct (rev t) as [|c before] eqn:E; [discriminate|].
  apply andb_prop in Ht. destruct Ht as [Hc Hb].
  apply Z.eqb_eq in Hc. subst c.
  assert (Et : t = rev before ++ [0x24]).
  { rewrite <- (rev_involutive t), E. reflexivity. }
  rewrite Et, <- app_assoc. cbn [app].
  apply placeholders_interpolated; [|assumption].
  intros Hin. apply in_rev in Hin. revert Hin. now apply no_dollar_spec.
Qed.

Lemma parse_digits_closed p c rest acc :
  digit_value 10 c = None ->
  parse_digits 10 ((p ++ [c]) ++ rest) acc = parse_digits 10 (p ++ [c]) acc.
Proof.
  intros Hc. revert acc. induction p as [|x p IH]; intros acc; cbn.
  - now rewrite Hc.
  - destruct (digit_value 10 x); [apply IH|reflexivity].
Qed.

Lemma placeholders_closed_last p c rest :
  c <> 0x24 -> digit_value 10 c = None ->
  placeholders ((p ++ [c]) ++ rest) = placeholders (p ++ [c]) ++ placeholders rest.
Proof.
  intros Hd Hc. induction p as [|x p IH].
  - cbn. destruct (Z.eqb_spec c 0x24); [contradiction|reflexivity].
  - cbn [app placeholders]. rewrite parse_digits_closed by assumption.
    rewrite IH.
    destruct (x =? 0x24); [|reflexivity].
    destruct (parse_digits 10 (p ++ [c]) None); reflexivity.
Qed.

Lemma placeholders_closed t rest :
  closed_text t = true ->
  placeholders (t ++ rest) = placeholders t ++ placeholders rest.
Proof.
  unfold closed_text. intros Ht.
  destruct (rev t) as [|c before] eqn:E; [discriminate|].
  apply andb_prop in Ht. destruct Ht as [Hc Hp].
  assert (Et : t = rev before ++ [c]).
  { rewrite <- (rev_involutive t), E. reflexivity. }
  rewrite Et. apply placeholders_closed_last.
  - intros ->. discriminate Hc.
  - exact (plain_start_spec [c] Hp).
Qed.

(** *** The builder stays numbered *)

Lemma numbered_start user_id : numbered (Builder select_sheets [user_id] 2).
Proof.
  split; [reflexivity|]. exists (placeholders select_sheets). split.
  - intros tail _. apply placeholders_closed. vm_compute. reflexivity.
  - intros k. cbn [params length].
    assert (E : placeholders select_sheets = [1; 1; 1; 1; 1; 1; 1])
      by (vm_compute; reflexivity).
    rewrite E. cbn [In]. lia.
Qed.

Lemma numbered_condition before after value b :
  plain_start before = true -> one_dollar_last before = true ->
  plain_start after = true ->
  forallb (fun x => negb (x =? 0x24)) after = true ->
  numbered b -> numbered (condition before after value b).
Proof.
  intros Hb1 Hb2 Ha1 Ha2 [Hi [l [Hl Hk]]]. split.
  - cbn [condition paramIndex params]. rewrite length_app, Hi. cbn. lia.
  - exists (l ++ [Z.of_nat (paramIndex b)]). split.
    + intros tail Htail. cbn [condition query].
      rewrite <- !app_assoc.
      assert (Hat : starts_without_digit (after ++ tail))
        by now apply plain_start_app.
      rewrite Hl.
      * rewrite placeholders_piece by assumption.
        rewrite placeholders_skip by now apply no_dollar_spec.
        reflexivity.
      * destruct before as [|c before']; [discriminate Hb2|].
        exact (plain_start_spec (c :: before') Hb1).
    + intros k. cbn [condition params]. rewrite in_app_iff, Hk, length_app, Hi.
      cbn [In length]. lia.
Qed.

Lemma plain_piece_app t rest :
  truthy_str t && plain_start t = true -> starts_without_digit (t ++ rest).
Proof.
  destruct t as [|c t]; [discriminate|]. intros H.
  exact (plain_start_spec (c :: t) H).
Qed.

Ltac piece := first [ apply plain_piece_app | idtac ]; vm_compute; reflexivity.

Lemma numbered_search value b : numbered b -> numbered (search value b).
Proof.
  intros [Hi [l [Hl Hk]]]. split.
  - cbn [search paramIndex params]. rewrite length_app, Hi. cbn. lia.
  - set (i := paramIndex b) in *.
    exists (l ++ [Z.of_nat i; Z.of_nat (i + 1); Z.of_nat (i + 1);
                  Z.of_nat (i + 1)]).
    split.
    + intros tail Htail. cbn [search query]. fold i.
      rewrite <- !app_assoc. rewrite Hl by piece. f_equal.
      rewrite !placeholders_piece by piece.
      rewrite placeholders_skip by (apply no_dollar_spec; piece).
      reflexivity.
    + intros k. cbn [search params]. rewrite in_app_iff, Hk, length_app.
      cbn [In length]. lia.
Qed.

Lemma numbered_when v body b :
  (forall x b', numbered b' -> numbered (body x b')) ->
  numbered b -> numbered (when v body b).
Proof.
  intros Hbody Hb. unfold when. destruct v as [x|]; [|exact Hb].
  destruct (truthy_q x); [now apply Hbody|exact Hb].
Qed.

Lemma numbered_filters r b : numbered b -> numbered (filters r b).
Proof.
  intros Hb. unfold filters.
  do 9 (apply numbered_when;
        [ intros x b' Hb'; apply numbered_condition; [piece..|exact Hb'] | ]).
  apply numbered_when; [|exact Hb].
  intros x b' Hb'. now apply numbered_search.
Qed.

(** *** Sorting *)

Lemma str_eqb_eq a b : str_eqb a b = true -> a = b.
Proof.
  unfold str_eqb. now destruct (list_eq_dec Z.eq_dec a b).
Qed.

Lemma sortColumn_allowed v : In (sortColumn v) allowedSorts.
Proof.
  assert (Hd : In (js "created_at") allowedSorts) by (cbn; tauto).
  destruct v as [[s|t]|]; cbn [sortColumn]; try exact Hd.
  destruct (existsb (str_eqb s) allowedSorts) eqn:E; [|exact Hd].
  apply existsb_exists in E. destruct E as [x [Hx E]].
  apply str_eqb_eq in E. now subst x.
Qed.

Lemma sortOrder_direction v o :
  sortOrder v = Normal o -> o = js "ASC" \/ o = js "DESC".
Proof.
  destruct v as [[s|t]|]; cbn [sortOrder]; intros E; try discriminate E;
    injection E as <-; [|now right].
  destruct (str_eqb _ _); [now left|now right].
Qed.

Lemma order_by_plain column direction :
  In column allowedSorts -> direction = js "ASC" \/ direction = js "DESC" ->
  starts_without_digit (js " ORDER BY " ++ column ++ js " " ++ direction) /\
  placeholders (js " ORDER BY " ++ column ++ js " " ++ direction) = [].
Proof.
  intros Hc Hd. split; [piece|].
  unfold allowedSorts in Hc. cbn [In] in Hc.
  repeat (destruct Hc as [<-|Hc]); try contradiction;
    destruct Hd as [->| ->]; vm_compute; reflexivity.
Qed.

Lemma starts_without_digit_app a b :
  starts_without_digit a -> starts_without_digit b ->
  starts_without_digit (a ++ b).
Proof.
  destruct a as [|c a]; intros Ha Hb; [exact Hb|exact Ha].
Qed.

Lemma extends_refl b : extends b b.
Proof.
  exists [], []. rewrite !app_nil_r. repeat split.
Qed.

Lemma extends_trans b1 b2 b3 : extends b1 b2 -> extends b2 b3 -> extends b1 b3.
Proof.
  intros [t1 [m1 [Q1 [P1 S1]]]] [t2 [m2 [Q2 [P2 S2]]]].
  exists (t1 ++ t2), (m1 ++ m2). rewrite Q2, P2, Q1, P1, !app_assoc.
  repeat split. now apply starts_without_digit_app.
Qed.

Lemma when_extends v body b :
  (forall x b', extends b' (body x b')) -> extends b (when v body b).
Proof.
  intros Hbody. unfold when. destruct v as [x|]; [|apply extends_refl].
  destruct (truthy_q x); [apply Hbody|apply extends_refl].
Qed.

Lemma condition_extends before after value b :
  truthy_str before && plain_start before = true ->
  extends b (condition before after value b).
Proof.
  intros Hb. eexists _, _. repeat split. now apply plain_piece_app.
Qed.

Lemma search_extends value b : extends b (search value b).
Proof.
  eexists _, _. repeat split.
Qed.

Ltac body_extends :=
  let x := fresh "x" in
  let c := fresh "c" in
  intros x c; cbv beta;
  lazymatch goal with
  | |- extends _ (search _ _) => apply search_extends
  | |- extends _ (condition _ _ _ _) => apply condition_extends; piece
  end.

Lemma filters_after_search r b : extends (when (q r) search b) (filters r b).
Proof.
  unfold filters. cbv zeta.
  do 9 (eapply extends_trans; [|apply when_extends; body_extends]).
  apply extends_refl.
Qed.

Lemma filters_extends r b : extends b (filters r b).
Proof.
  eapply extends_trans; [|apply filters_after_search].
  apply when_extends. body_extends.
Qed.

(** X15. The statement that [GET /api/sheets] sends names exactly the
    parameters it is sent with: its placeholders are [$1] to [$n] for
    the [n] parameters, none missing and none beyond, whatever filters
    the request sets; and the first parameter is the user's id. *)
Theorem sheets_query_placeholders user_id r sql ps :
  sheets_query user_id r = Normal (sql, ps) ->
  (forall k, In k (placeholders sql) <-> 1 <= k <= Z.of_nat (length ps)) /\
  nth_error ps 0 = Some user_id.
Proof.
  unfold sheets_query. intros E.
  destruct (sortOrder (order r)) as [o|] eqn:Eo; [|discriminate E].
  injection E as <- <-.
  destruct (order_by_plain (sortColumn_allowed (sort_by r))
                           (sortOrder_direction _ Eo)) as [Hs Hp].
  destruct (numbered_filters r (numbered_start user_id)) as [_ [l [Hl Hk]]].
  split.
  - intros k. rewrite <- Hk.
    change (In k (placeholders
                    (query (filters r (Builder select_sheets [user_id] 2)) ++
                     (js " ORDER BY " ++ sortColumn (sort_by r) ++
                      js " " ++ o))) <-> In k l).
    rewrite (Hl _ Hs), Hp, app_nil_r. reflexivity.
  - destruct (filters_extends r (Builder select_sheets [user_id] 2))
      as [text [more [_ [-> _]]]]. reflexivity.
Qed.

Lemma sheets_query_placeholders_witness :
  exists sql ps,
    sheets_query sample_user sample_request = Normal (sql, ps) /\
    (forall k, In k (placeholders sql) <-> 1 <= k <= Z.of_nat (length ps)) /\
    nth_error ps 0 = Some sample_user.
Proof.
  destruct (sheets_query sample_user sample_request) as [[sql ps]|] eqn:E;
    [|vm_compute in E; discriminate E].
  exists sql, ps. split; [reflexivity|].
  exact (@sheets_query_placeholders sample_user sample_request sql ps E).
Defined.

(** *** The text of the statement *)

Lemma same_text_when v v' body b b' :
  is_set v = is_set v' ->
  (forall x x' c c', same_text c c' -> same_text (body x c) (body x' c')) ->
  same_text b b' -> same_text (when v body b) (when v' body b').
Proof.
  intros Hv Hbody Hb. unfold when, is_set in *.
  destruct v as [x|], v' as [x'|].
  - rewrite <- Hv. destruct (truthy_q x); [now apply Hbody|exact Hb].
  - rewrite Hv. exact Hb.
  - rewrite <- Hv. exact Hb.
  - exact Hb.
Qed.

Lemma same_text_condition before after value value' c c' :
  same_text c c' ->
  same_text (condition before after value c) (condition before after value' c').
Proof.
  intros [Hq Hi]. unfold same_text, condition. cbn [query paramIndex].
  now rewrite Hq, Hi.
Qed.

Lemma same_text_search value value' c c' :
  same_text c c' -> same_text (search value c) (search value' c').
Proof.
  intros [Hq Hi]. unfold same_text, search. cbn [query paramIndex].
  now rewrite Hq, Hi.
Qed.

Lemma same_text_filters r r' b b' :
  set_filters r = set_filters r' -> same_text b b' ->
  same_text (filters r b) (filters r' b').
Proof.
  unfold set_filters. cbn [map]. intros H Hb.
  injection H as H1 H2 H3 H4 H5 H6 H7 H8 H9 H10.
  unfold filters. cbv zeta.
  do 9 (apply same_text_when;
        [ assumption
        | intros x x' c c' Hc; now apply same_text_condition | ]).
  apply same_text_when; [assumption| |exact Hb].
  intros x x' c c' Hc. now apply same_text_search.
Qed.

Lemma statement_sheets_query user_id r :
  statement (sheets_query user_id r) =
  match sortOrder (order r) with
  | Normal o =>
    Some (query (filters r (Builder select_sheets [user_id] 2)) ++
          js " ORDER BY " ++ sortColumn (sort_by r) ++ js " " ++ o)
  | Throw => None
  end.
Proof.
  unfold sheets_query. destruct (sortOrder (order r)); reflexivity.
Qed.

(** X16. The text of the statement does not depend on the values of
    the request: two requests (of any two users) that set the same
    filters and end in the same sort column and direction give the same
    text, or both give none. *)
Theorem sheets_query_text_by_shape user_id user_id' r r' :
  set_filters r = set_filters r' ->
  sortColumn (sort_by r) = sortColumn (sort_by r') ->
  sortOrder (order r) = sortOrder (order r') ->
  statement (sheets_query user_id r) = statement (sheets_query user_id' r').
Proof.
  intros Hf Hc Ho. rewrite !statement_sheets_query, <- Ho, <- Hc.
  assert (Hq : same_text (filters r (Builder select_sheets [user_id] 2))
                         (filters r' (Builder select_sheets [user_id'] 2))).
  { apply same_text_filters; [exact Hf|].
    split; cbn [query paramIndex]; reflexivity. }
  destruct Hq as [Hq _]. rewrite Hq. reflexivity.
Qed.

Lemma sheets_query_text_by_shape_witness :
  statement (sheets_query (QString (js "u1"))
               (QueryString None (Some (QString (js "Bach"))) None None None
                            None None None None (Some (QString (js "title")))
                            (Some (QString (js "ASC"))) None)) =
  statement (sheets_query (QString (js "u2"))
               (QueryString (Some (QString [])) (Some (QObject (js "a,b")))
                            None None None None None None None
                            (Some (QString (js "title")))
                            (Some (QString (js "asc"))) None)).
Proof.
  apply sheets_query_text_by_shape; vm_compute; reflexivity.
Defined.

(** X17. The statement always ends with an [ORDER BY] on one of the
    seven allowed columns, [ASC] or [DESC], whatever [sort_by] and
    [order] hold. *)
Theorem sheets_query_sort_allowed user_id r sql ps :
  sheets_query user_id r = Normal (sql, ps) ->
  exists column direction,
    sql = query (filters r (Builder select_sheets [user_id] 2)) ++
          js " ORDER BY " ++ column ++ js " " ++ direction /\
    In column allowedSorts /\
    (direction = js "ASC" \/ direction = js "DESC").
Proof.
  unfold sheets_query. intros E.
  destruct (sortOrder (order r)) as [o|] eqn:Eo; [|discriminate E].
  exists (sortColumn (sort_by r)), o. split; [|split].
  - now injection E as <- _.
  - apply sortColumn_allowed.
  - exact (sortOrder_direction _ Eo).
Qed.

Lemma sheets_query_sort_allowed_witness :
  exists sql ps,
    sheets_query sample_user sample_request = Normal (sql, ps) /\
    exists column direction,
      sql = query (filters sample_request
                           (Builder select_sheets [sample_user] 2)) ++
            js " ORDER BY " ++ column ++ js " " ++ direction /\
      In column allowedSorts /\
      (direction = js "ASC" \/ direction = js "DESC").
Proof.
  destruct (sheets_query sample_user sample_request) as [[sql ps]|] eqn:E;
    [|vm_compute in E; discriminate E].
  exists sql, ps. split; [reflexivity|].
  exact (@sheets_query_sort_allowed sample_user sample_request sql ps E).
Defined.

Lemma lower_unit_head c rest x out :
  lower_unit c ++ rest = x :: out ->
  0x61 <= x <= 0x7A -> x <> 0x69 -> x <> 0x6B ->
  (c = x \/ c = x - 32) /\ rest = out.
Proof.
  unfold lower_unit.
  destruct (Z.leb_spec 0x41 c), (Z.leb_spec c 0x5A); cbn [andb];
    try (destruct (Z.eqb_spec c 0x130); [|destruct (Z.eqb_spec c 0x212A)]);
    cbn [app]; intros E; injection E as E1 E2; intros; split; try lia; auto.
Qed.

Lemma lower_unit_nonempty c : lower_unit c <> [].
Proof.
  unfold lower_unit.
  destruct (_ && _); [discriminate|].
  destruct (_ =? _); [discriminate|]. destruct (_ =? _); discriminate.
Qed.

Lemma toLowerCase_asc s :
  toLowerCase s = js "asc" <->
  exists a b c, s = [a; b; c] /\ (a = 0x61 \/ a = 0x41) /\
                (b = 0x73 \/ b = 0x53) /\ (c = 0x63 \/ c = 0x43).
Proof.
  split.
  - unfold toLowerCase. change (js "asc") with [0x61; 0x73; 0x63].
    destruct s as [|a s]; [discriminate|]. cbn [flat_map]. intros E.
    apply lower_unit_head in E; [|lia..]. destruct E as [Ha E].
    destruct s as [|b s]; [discriminate|]. cbn [flat_map] in E.
    apply lower_unit_head in E; [|lia..]. destruct E as [Hb E].
    destruct s as [|c s]; [discriminate|]. cbn [flat_map] in E.
    apply lower_unit_head in E; [|lia..]. destruct E as [Hc E].
    destruct s as [|d s].
    + exists a, b, c. repeat split; lia.
    + cbn [flat_map] in E. apply app_eq_nil in E. destruct E as [E _].
      now apply lower_unit_nonempty in E.
  - intros [a [b [c [-> [Ha [Hb Hc]]]]]].
    destruct Ha as [-> | ->], Hb as [-> | ->], Hc as [-> | ->];
      vm_compute; reflexivity.
Qed.

(** X18. The list is in ascending order exactly for the eight
    spellings of [asc] in ASCII letters; any other [order], such as
    [ascending] or [asc] with a space, sorts in descending order. *)
Theorem sortOrder_ascending_iff s :
  sortOrder (Some (QString s)) = Normal (js "ASC") <->
  exists a b c, s = [a; b; c] /\ (a = 0x61 \/ a = 0x41) /\
                (b = 0x73 \/ b = 0x53) /\ (c = 0x63 \/ c = 0x43).
Proof.
  rewrite <- toLowerCase_asc. unfold sortOrder, str_eqb.
  destruct (list_eq_dec Z.eq_dec (toLowerCase s) (js "asc")) as [E|E].
  - split; [intros _; exact E|reflexivity].
  - split; [intros H; discriminate H|intros H; contradiction].
Qed.

(** *** The parameter of each condition *)

Lemma bound_app sql ps before after value text more :
  bound sql ps before after value -> starts_without_digit text ->
  bound (sql ++ text) (ps ++ more) before after value.
Proof.
  intros [k [pre [post [E [Hs Hn]]]]] Ht.
  exists k, pre, (post ++ text). split; [|split].
  - rewrite E, <- !app_assoc. reflexivity.
  - rewrite app_assoc. now apply starts_without_digit_app.
  - rewrite nth_error_app1; [exact Hn|].
    apply nth_error_Some. congruence.
Qed.

Lemma bound_extends b b' before after value :
  bound (query b) (params b) before after value -> extends b b' ->
  bound (query b') (params b') before after value.
Proof.
  intros Hb [text [more [-> [-> Ht]]]]. now apply bound_app.
Qed.

Lemma bound_condition before after value b :
  numbered b -> plain_start after = true ->
  bound (query (condition before after value b))
        (params (condition before after value b)) before after value.
Proof.
  intros [Hi _] Ha. exists (length (params b)), (query b), [].
  cbn [condition query params]. rewrite Hi, app_nil_r. split; [|split].
  - reflexivity.
  - now apply plain_start_spec.
  - rewrite nth_error_app2, Nat.sub_diag by apply Nat.le_refl. reflexivity.
Qed.

Lemma bound_when_here x before after (f : qvalue -> qvalue) b :
  truthy_q x = true -> numbered b -> plain_start after = true ->
  bound (query (when (Some x) (fun v => condition before after (f v)) b))
        (params (when (Some x) (fun v => condition before after (f v)) b))
        before after (f x).
Proof.
  intros Hx Hb Ha. unfold when. rewrite Hx. now apply bound_condition.
Qed.

Lemma bound_when_keep v body b before after value :
  (forall x c, extends c (body x c)) ->
  bound (query b) (params b) before after value ->
  bound (query (when v body b)) (params (when v body b)) before after value.
Proof.
  intros Hbody Hb. apply (bound_extends Hb). now apply when_extends.
Qed.

Ltac numbered_chain :=
  repeat lazymatch goal with
  | |- numbered (when _ search _) =>
    apply numbered_when;
    [ let x := fresh "x" in let c := fresh "c" in let Hc := fresh "Hc" in
      intros x c Hc; now apply numbered_search | ]
  | |- numbered (when _ _ _) =>
    apply numbered_when;
    [ let x := fresh "x" in let c := fresh "c" in let Hc := fresh "Hc" in
      intros x c Hc; apply numbered_condition; [piece..|exact Hc] | ]
  | |- numbered (Builder _ _ _) => apply numbered_start
  end.

Ltac find_bound Hv Hx :=
  lazymatch type of Hv with
  | ?field = Some ?x =>
    lazymatch goal with
    | |- bound (query (when field _ _)) _ _ _ _ =>
      rewrite Hv; apply bound_when_here; [exact Hx|numbered_chain|piece]
    | |- bound (query (when _ _ _)) _ _ _ _ =>
      apply bound_when_keep; [body_extends|find_bound Hv Hx]
    end
  end.

Lemma filters_bound user_id r v before after f x :
  In (v, before, after, f) (single_conditions r) ->
  v = Some x -> truthy_q x = true ->
  bound (query (filters r (Builder select_sheets [user_id] 2)))
        (params (filters r (Builder select_sheets [user_id] 2)))
        before after (f x).
Proof.
  unfold single_conditions. cbn [In]. intros Hin Hv Hx.
  unfold filters. cbv zeta.
  repeat (destruct Hin as [E|Hin];
          [injection E as <- <- <- <-; find_bound Hv Hx|]).
  contradiction.
Qed.

(** X19. Each filter of one parameter that the request sets is in
    the statement with the placeholder of its own value: the number
    after its condition is the position, in the parameters, of the
    value (between [%] signs for the [ILIKE] filters). *)
Theorem set_filter_bound user_id r sql ps v before after f x :
  sheets_query user_id r = Normal (sql, ps) ->
  In (v, before, after, f) (single_conditions r) ->
  v = Some x -> truthy_q x = true ->
  bound sql ps before after (f x).
Proof.
  unfold sheets_query. intros E Hin Hv Hx.
  destruct (sortOrder (order r)) as [o|] eqn:Eo; [|discriminate E].
  destruct (order_by_plain (sortColumn_allowed (sort_by r))
                           (sortOrder_direction _ Eo)) as [Hs _].
  pose proof (@filters_bound user_id r v before after f x Hin Hv Hx) as Hb.
  apply (@bound_app _ _ _ _ _ _ [] Hb) in Hs. rewrite app_nil_r in Hs.
  injection E as <- <-. exact Hs.
Qed.

Lemma set_filter_bound_witness :
  exists sql ps,
    sheets_query sample_user sample_request = Normal (sql, ps) /\
    bound sql ps (js " AND s.composer ILIKE $") []
          (QString (js "%Chopin%")).
Proof.
  destruct (sheets_query sample_user sample_request) as [[sql ps]|] eqn:E;
    [|vm_compute in E; discriminate E].
  exists sql, ps. split; [reflexivity|].
  apply (@set_filter_bound sample_user sample_request sql ps
           (composer sample_request) (js " AND s.composer ILIKE $") []
           like (QString (js "Chopin")) E);
    [left; reflexivity|reflexivity|reflexivity].
Defined.

(** X20. A search text is always parameters 2 and 3: the statement
    goes on, right after the selection, with the search condition on
    [$2] and [$3], and the parameters start with the user's id, the
    text, and the text between [%] signs. *)
Theorem search_parameters user_id r sql ps x :
  sheets_query user_id r = Normal (sql, ps) ->
  q r = Some x -> truthy_q x = true ->
  exists post more,
    sql = select_sheets ++
          js " AND (s.search_vector @@ plainto_tsquery('english', $2) OR s.title ILIKE $3 OR s.composer ILIKE $3 OR array_to_string(s.tags, ',') ILIKE $3)"
          ++ post /\
    ps = user_id :: x :: like x :: more.
Proof.
  unfold sheets_query. generalize select_sheets. intros base E Hq Hx.
  destruct (sortOrder (order r)) as [o|]; [|discriminate E].
  destruct (filters_after_search r (Builder base [user_id] 2))
    as [text [more [Eq [Ep _]]]].
  rewrite Hq in Eq, Ep. unfold when in Eq, Ep. rewrite Hx in Eq, Ep.
  cbn [search query params paramIndex] in Eq, Ep.
  exists (text ++ js " ORDER BY " ++ sortColumn (sort_by r) ++ js " " ++ o),
         more.
  assert (Ec : js " AND (s.search_vector @@ plainto_tsquery('english', $" ++
               decimal 2 ++
               js ") OR s.title ILIKE $" ++ decimal (2 + 1) ++
               js " OR s.composer ILIKE $" ++ decimal (2 + 1) ++
               js " OR array_to_string(s.tags, ',') ILIKE $" ++
               decimal (2 + 1) ++ js ")" =
               js " AND (s.search_vector @@ plainto_tsquery('english', $2) OR s.title ILIKE $3 OR s.composer ILIKE $3 OR array_to_string(s.tags, ',') ILIKE $3)")
    by (vm_compute; reflexivity).
  injection E as <- <-. rewrite Eq, Ep. split; [|reflexivity].
  rewrite <- Ec, <- !app_assoc. reflexivity.
Qed.

Lemma search_parameters_witness :
  exists sql ps post more,
    sheets_query sample_user sample_request = Normal (sql, ps) /\
    sql = select_sheets ++
          js " AND (s.search_vector @@ plainto_tsquery('english', $2) OR s.title ILIKE $3 OR s.composer ILIKE $3 OR array_to_string(s.tags, ',') ILIKE $3)"
          ++ post /\
    ps = sample_user :: QString (js "nocturne")
           :: like (QString (js "nocturne")) :: more.
Proof.
  destruct (sheets_query sample_user sample_request) as [[sql ps]|] eqn:E;
    [|vm_compute in E; discriminate E].
  destruct (@search_parameters sample_user sample_request sql ps
              (QString (js "nocturne")) E eq_refl eq_refl)
    as [post [more H]].
  exists sql, ps, post, more. split; [reflexivity|exact H].
Defined.

End ListingFacts.

(* ================================================================== *)
(** ** Deleting sheets *)

Section DeletionFacts.

Import Deletion.

Variable succeeds : history -> action -> bool.

Ltac events :=
  repeat (apply Forall_cons;
          [ cbn [fst]; first [ now left | right; eexists; split; reflexivity ]
          | ]);
  apply Forall_nil.

Lemma is_full_spec p : is_full p = true <-> p = Some (js "full").
Proof.
  unfold is_full, str_eqb. destruct p as [s|]; [|split; discriminate].
  destruct (list_eq_dec Z.eq_dec s (js "full")) as [->|N].
  - split; reflexivity.
  - split; [discriminate|]. intros E. injection E as E. contradiction.
Qed.

(** What [delete_stored] attempts: the file, if there is a key, then
    the row, and the row only if the file went. *)
Lemma delete_stored_events key i h :
  exists evs,
    snd (delete_stored succeeds key i h) = h ++ evs /\
    Forall (fun ev => fst ev = DeleteRow i \/
                      exists k, key = Some k /\ fst ev = DeleteFile k) evs /\
    (fst (delete_stored succeeds key i h) = Normal tt <->
     In (DeleteRow i, true) evs).
Proof.
  unfold delete_stored, perform.
  destruct key as [k|]; [destruct (truthy_str k)|]; cbn [fst snd].
  - destruct (succeeds h (DeleteFile k)) eqn:Ef; cbn [fst snd].
    + eexists [_; _]. rewrite <- app_assoc. split; [reflexivity|]. split.
      * events.
      * destruct (succeeds _ (DeleteRow i)); cbn; split; intros H;
          try reflexivity; try discriminate; intuition congruence.
    + eexists [_]. split; [reflexivity|]. split.
      * events.
      * cbn. split; [discriminate|]. intuition congruence.
  - eexists [_]. split; [reflexivity|]. split.
    + events.
    + destruct (succeeds _ (DeleteRow i)); cbn; split; intros H;
        try reflexivity; try discriminate; intuition congruence.
  - eexists [_]. split; [reflexivity|]. split.
    + events.
    + destruct (succeeds _ (DeleteRow i)); cbn; split; intros H;
        try reflexivity; try discriminate; intuition congruence.
Qed.

Lemma delete_all_spec sheets : forall deletedIds errors h,
  exists dn en evs,
    delete_all succeeds sheets deletedIds errors h =
    (deletedIds ++ dn, errors ++ en, h ++ evs) /\
    Forall (concerns sheets) evs /\
    (forall s, In s sheets -> In (id s) dn \/ In (id s) en) /\
    (length dn + length en = length sheets)%nat /\
    (forall i, In i dn -> In (DeleteRow i, true) evs) /\
    (sheets <> [] -> evs <> []).
Proof.
  induction sheets as [|sheet rest IH]; intros d e h.
  - exists [], [], []. cbn [delete_all]. rewrite !app_nil_r.
    repeat split; try constructor; try contradiction; congruence.
  - cbn [delete_all].
    destruct (delete_stored_events (storage_key sheet) (id sheet) h)
      as [evs [Eh [Hevs Hok]]].
    assert (Hc : Forall (concerns (sheet :: rest)) evs).
    { eapply Forall_impl; [|exact Hevs]. intros ev Hev. exists sheet.
      split; [now left|].
      destruct Hev as [-> | [k [Ek ->]]]; [reflexivity|exact Ek]. }
    assert (Hne : evs <> []).
    { unfold delete_stored, perform in Eh. intros ->. rewrite app_nil_r in Eh.
      apply (f_equal (@length _)) in Eh. revert Eh.
      destruct (storage_key sheet) as [k|]; [destruct (truthy_str k)|];
        cbn [fst snd]; try destruct (succeeds h (DeleteFile k));
        cbn [fst snd]; rewrite ?length_app; cbn [length]; lia. }
    rewrite Eh.
    destruct (fst (delete_stored succeeds (storage_key sheet) (id sheet) h))
      as [[]|] eqn:Ef.
    + destruct (IH (d ++ [id sheet]) e (h ++ evs))
        as [dn [en [evs' [E [H1 [H2 [H3 [H4 _]]]]]]]].
      exists (id sheet :: dn), en, (evs ++ evs').
      rewrite E, <- !app_assoc. split; [reflexivity|].
      split; [|split; [|split; [|split]]].
      * apply Forall_app. split; [exact Hc|].
        eapply Forall_impl; [|exact H1]. intros ev [s [Hs Hev]].
        exists s. split; [now right|exact Hev].
      * intros s [<-|Hs]; [left; now left|].
        destruct (H2 s Hs); [left; now right|now right].
      * cbn [length]. lia.
      * intros i [<-|Hi]; apply in_or_app;
          [left; now apply Hok|right; now apply H4].
      * intros _ E0. apply app_eq_nil in E0. now destruct E0.
    + destruct (IH d (e ++ [id sheet]) (h ++ evs))
        as [dn [en [evs' [E [H1 [H2 [H3 [H4 _]]]]]]]].
      exists dn, (id sheet :: en), (evs ++ evs').
      rewrite E, <- !app_assoc. split; [reflexivity|].
      split; [|split; [|split; [|split]]].
      * apply Forall_app. split; [exact Hc|].
        eapply Forall_impl; [|exact H1]. intros ev [s [Hs Hev]].
        exists s. split; [now right|exact Hev].
      * intros s [<-|Hs]; [right; now left|].
        destruct (H2 s Hs); [now left|right; now right].
      * cbn [length]. lia.
      * intros i Hi. apply in_or_app. right. now apply H4.
      * intros _ E0. apply app_eq_nil in E0. now destruct E0.
Qed.

Lemma may_delete_spec sheet :
  is_owner sheet || is_full (permission sheet) = true <->
  is_owner sheet = true \/ permission sheet = Some (js "full").
Proof.
  rewrite orb_true_iff, is_full_spec. reflexivity.
Qed.

Lemma concerns_permitted rows ev :
  concerns (filter (fun sheet => is_owner sheet || is_full (permission sheet))
                   rows) ev ->
  permitted rows (fst ev).
Proof.
  intros [s [Hs Hev]]. apply filter_In in Hs. destruct Hs as [Hs Hd].
  exists s. split; [exact Hs|]. split; [now apply may_delete_spec|exact Hev].
Qed.

(** X21. The batch route touches nothing it may not: whatever the
    storage and the database do, every file and every row it tries to
    delete belongs to a sheet of the access check that the user owns or
    has in full; when the access check fails it tries nothing. *)
Theorem batch_delete_only_permitted ids accessCheck h :
  exists evs,
    snd (batch_delete succeeds ids accessCheck h) = h ++ evs /\
    forall ev, In ev evs ->
      exists rows, accessCheck = Normal rows /\ permitted rows (fst ev).
Proof.
  assert (H0 : exists evs : history,
             h = h ++ evs /\
             forall ev, In ev evs ->
               exists rows, accessCheck = Normal rows /\
                            permitted rows (fst ev)).
  { exists []. rewrite app_nil_r. split; [reflexivity|contradiction]. }
  unfold batch_delete. destruct ids as [[|i ids]|]; try exact H0.
  destruct accessCheck as [rows|]; [|exact H0].
  destruct (length_of _ =? 0); [exact H0|]. cbn [snd].
  destruct (delete_all_spec
              (filter (fun sheet => is_owner sheet || is_full (permission sheet))
                      rows) [] [] h)
    as [dn [en [evs [E [Hc _]]]]].
  exists evs. rewrite E. cbn [snd]. split; [reflexivity|].
  intros ev Hev. exists rows. split; [reflexivity|].
  rewrite Forall_forall in Hc. now apply concerns_permitted, Hc.
Qed.

(** X22. The report of the batch route accounts for everything: each
    sheet of the access check is under [deleted], [errors] or
    [noPermission], and the three lists are as long together as the
    access check; [notFound] holds only ids the access check did not
    return, and each requested id is there or was returned; something
    was attempted, and each id under [deleted] had its row deleted. *)
Theorem batch_delete_report ids rows h deleted notFound noPermission errors
        message :
  fst (batch_delete succeeds ids (Normal rows) h) =
  Report deleted notFound noPermission errors message ->
  (forall s, In s rows ->
     In (id s) deleted \/ In (id s) errors \/ In (id s) noPermission) /\
  (length deleted + length errors + length noPermission = length rows)%nat /\
  (forall i, In i notFound -> ~ In i (map id rows)) /\
  (forall requested, ids = Some requested ->
     forall i, In i requested -> In i notFound \/ In i (map id rows)) /\
  (exists evs,
     snd (batch_delete succeeds ids (Normal rows) h) = h ++ evs /\
     evs <> [] /\
     forall i, In i deleted -> In (DeleteRow i, true) evs).
Proof.
  unfold batch_delete. destruct ids as [[|i0 ids]|]; try discriminate.
  remember (i0 :: ids) as requested eqn:Hr.
  set (deletable := filter _ rows).
  destruct (Z.eqb_spec (length_of deletable) 0) as [E0|N0]; [discriminate|].
  destruct (delete_all_spec deletable [] [] h)
    as [dn [en [evs [E [_ [H2 [H3 [H4 H5]]]]]]]].
  rewrite E. cbn [fst snd app]. intros R. injection R as <- <- <- <- _.
  assert (Hsplit : forall s, In s rows ->
            In s deletable \/
            In s (filter (fun s => negb (is_owner s)
                                   && negb (is_full (permission s))) rows)).
  { intros s Hs. unfold deletable.
    destruct (is_owner s || is_full (permission s)) eqn:Ed.
    - left. apply filter_In. now split.
    - right. apply filter_In. split; [exact Hs|].
      apply orb_false_iff in Ed. destruct Ed as [-> ->]. reflexivity. }
  split; [|split; [|split; [|split]]].
  - intros s Hs. destruct (Hsplit s Hs) as [Hd|Hn].
    + destruct (H2 s Hd); [now left|right; now left].
    + right. right. now apply in_map.
  - rewrite H3, length_map. unfold deletable.
    clear. induction rows as [|s rows IH]; [reflexivity|].
    cbn [filter]. destruct (is_owner s), (is_full (permission s));
      cbn [orb andb negb length]; lia.
  - intros i Hi. apply filter_In in Hi. destruct Hi as [_ Hi].
    apply negb_true_iff in Hi. intros Hin. apply in_map_iff in Hin.
    destruct Hin as [s [<- Hs]].
    assert (Ht : existsb (fun s0 => str_eqb (id s0) (id s)) rows = true).
    { apply existsb_exists. exists s. split; [exact Hs|].
      unfold str_eqb. now destruct (list_eq_dec Z.eq_dec (id s) (id s)). }
    congruence.
  - intros requested' Er i Hi. injection Er as <-.
    destruct (existsb (fun s => str_eqb (id s) i) rows) eqn:Ex.
    + right. apply existsb_exists in Ex. destruct Ex as [s [Hs Es]].
      apply in_map_iff. exists s. split; [|exact Hs].
      unfold str_eqb in Es. now destruct (list_eq_dec Z.eq_dec (id s) i).
    + left. apply filter_In. split; [exact Hi|]. now rewrite Ex.
  - exists evs. split; [reflexivity|]. split; [|exact H4].
    apply H5. intros Ed. apply N0. now rewrite Ed.
Qed.

(** X23. [DELETE /api/sheets/:id] answers 204 exactly when the row
    was deleted, and it attempts something only if the first row of the
    access check is owned or held in full; what it attempts is then the
    row, and the file of that first row. *)
Theorem delete_sheet_outcomes sheet_id accessCheck h :
  exists evs,
    snd (delete_sheet succeeds sheet_id accessCheck h) = h ++ evs /\
    (fst (delete_sheet succeeds sheet_id accessCheck h) = Status204 <->
     In (DeleteRow sheet_id, true) evs) /\
    (evs <> [] ->
     exists row rest,
       accessCheck = Normal (row :: rest) /\
       (is_owner row = true \/ permission row = Some (js "full")) /\
       Forall (fun ev => fst ev = DeleteRow sheet_id \/
                         exists k, storage_key row = Some k /\
                                   fst ev = DeleteFile k) evs).
Proof.
  assert (H0 : forall r, r <> Status204 ->
             exists evs : history,
               snd (r, h) = h ++ evs /\
               (fst (r, h) = Status204 <-> In (DeleteRow sheet_id, true) evs) /\
               (evs <> [] ->
                exists row rest,
                  accessCheck = Normal (row :: rest) /\
                  (is_owner row = true \/ permission row = Some (js "full")) /\
                  Forall (fun ev => fst ev = DeleteRow sheet_id \/
                                    exists k, storage_key row = Some k /\
                                              fst ev = DeleteFile k) evs)).
  { intros r Hr. exists []. cbn [fst snd]. rewrite app_nil_r.
    split; [reflexivity|]. split; [|congruence].
    split; [congruence|contradiction]. }
  unfold delete_sheet. destruct accessCheck as [[|row rest]|];
    try (apply H0; discriminate).
  destruct (negb (is_owner row) && negb (is_full (permission row))) eqn:Ed;
    [apply H0; discriminate|].
  destruct (delete_stored_events (storage_key row) sheet_id h)
    as [evs [Eh [Hevs Hok]]].
  exists evs. split; [|split].
  - now destruct (fst (delete_stored _ _ _ _)).
  - rewrite <- Hok.
    destruct (fst (delete_stored _ _ _ _)) as [[]|]; cbn [fst];
      split; congruence.
  - intros _. exists row, rest. split; [reflexivity|]. split; [|exact Hevs].
    apply may_delete_spec.
    destruct (is_owner row), (is_full (permission row));
      cbn in Ed |- *; congruence.
Qed.

(** X24. For one sheet the two routes do the same to the storage and
    the database, and answer alike, but for a failure: where the single
    route answers 500, the batch route reports [Successfully deleted 0
    of 1 sheets] with the id under [errors]. *)
Theorem routes_agree_on_one_sheet sheet h :
  snd (batch_delete succeeds (Some [id sheet]) (Normal [sheet]) h) =
  snd (delete_sheet succeeds (id sheet) (Normal [sheet]) h) /\
  fst (batch_delete succeeds (Some [id sheet]) (Normal [sheet]) h) =
  match fst (delete_sheet succeeds (id sheet) (Normal [sheet]) h) with
  | Status204 =>
    Report [id sheet] [] [] [] (js "Successfully deleted 1 of 1 sheets")
  | Status500 =>
    Report [] [] [] [id sheet] (js "Successfully deleted 0 of 1 sheets")
  | other => other
  end.
Proof.
  unfold batch_delete, delete_sheet. cbn [filter].
  assert (Ei : existsb (fun s => str_eqb (id s) (id sheet)) [sheet] = true).
  { cbn. unfold str_eqb.
    now destruct (list_eq_dec Z.eq_dec (id sheet) (id sheet)). }
  rewrite Ei. cbn [negb].
  destruct (is_owner sheet), (is_full (permission sheet));
    cbn [orb andb negb length_of length Z.of_nat Z.eqb map filter];
    try (split; reflexivity);
    cbn [delete_all];
    destruct (fst (delete_stored succeeds (storage_key sheet) (id sheet) h))
      as [[]|]; cbn [fst snd app]; split; reflexivity.
Qed.

(** X25. When the user may delete none of the sheets found, the batch
    route answers 403 and deletes nothing, also when no sheet is found
    at all; the single route answers 404 in that last case. *)
Theorem nothing_to_delete sheet_id ids rows h :
  (forall s, In s rows ->
     is_owner s = false /\ permission s <> Some (js "full")) ->
  batch_delete succeeds (Some (sheet_id :: ids)) (Normal rows) h =
  (Status403, h) /\
  delete_sheet succeeds sheet_id (Normal rows) h =
  (match rows with [] => Status404 | _ :: _ => Status403 end, h).
Proof.
  intros Hrows. split.
  - unfold batch_delete.
    assert (E : filter (fun sheet => is_owner sheet || is_full (permission sheet))
                       rows = []).
    { induction rows as [|s rest IH]; [reflexivity|]. cbn [filter].
      destruct (Hrows s (or_introl eq_refl)) as [Ho Hp].
      rewrite Ho. cbn [orb].
      destruct (is_full (permission s)) eqn:Ef;
        [apply is_full_spec in Ef; contradiction|].
      apply IH. intros s' Hs'. apply Hrows. now right. }
    rewrite E. reflexivity.
  - unfold delete_sheet. destruct rows as [|s rest]; [reflexivity|].
    destruct (Hrows s (or_introl eq_refl)) as [Ho Hp]. rewrite Ho.
    destruct (is_full (permission s)) eqn:Ef;
      [apply is_full_spec in Ef; contradiction|reflexivity].
Qed.

End DeletionFacts.

Section DeletionExamples.

Import Deletion.

Lemma batch_delete_report_witness :
  exists deleted notFound noPermission errors message,
    fst (batch_delete all_succeed
           (Some [id own_sheet; id shared_sheet; js "unknown"])
           (Normal [own_sheet; shared_sheet]) []) =
    Report deleted notFound noPermission errors message /\
    deleted = [id own_sheet] /\ notFound = [js "unknown"] /\
    noPermission = [id shared_sheet] /\ errors = [] /\
    (forall i, In i notFound ->
       ~ In i (map id [own_sheet; shared_sheet])).
Proof.
  eexists _, _, _, _, _. split; [vm_compute; reflexivity|].
  repeat (split; [reflexivity|]).
  refine (proj1 (proj2 (proj2
    (@batch_delete_report all_succeed
       (Some [id own_sheet; id shared_sheet; js "unknown"])
       [own_sheet; shared_sheet] [] _ _ _ _ _ _)))).
  vm_compute. reflexivity.
Defined.

Lemma nothing_to_delete_witness :
  batch_delete all_succeed (Some [id shared_sheet]) (Normal [shared_sheet]) []
  = (Status403, []).
Proof.
  refine (proj1 (@nothing_to_delete all_succeed (id shared_sheet) []
                   [shared_sheet] [] _)).
  intros s [<-|[]]. split; [reflexivity|discriminate].
Defined.

End DeletionExamples.

(* ================================================================== *)
(** ** The admin key, the log buffer and the middleware *)

Section AdminFacts.

Import Listing Admin.

Lemma ADMIN_KEY_truthy env : truthy_str (ADMIN_KEY env) = true.
Proof.
  unfold ADMIN_KEY, or_str. destruct env as [s|]; [|reflexivity].
  destruct (truthy_str s) eqn:E; [exact E|reflexivity].
Qed.

Lemma strict_eq_spec key s : strict_eq key s = true <-> key = Some (QString s).
Proof.
  unfold strict_eq, str_eqb. destruct key as [[k|t]|]; try (split; discriminate).
  destruct (list_eq_dec Z.eq_dec k s) as [->|N]; split; try reflexivity;
    try discriminate. intros E. injection E as E. contradiction.
Qed.

(** X26. The admin guard lets a request through exactly when its key
    is the admin key, the key being the one of the query string if
    there is a non-empty one and the [x-admin-key] header otherwise: a
    wrong key in the query string is refused even with the right
    header.  Whoever is shown the dashboard passes the guard with the
    same query string; an empty key never passes; and without
    [ADMIN_KEY] in the environment the key is [admin123]. *)
Theorem requireAdmin_iff env query_key header :
  (requireAdmin env query_key header = true <->
   query_key = Some (QString (ADMIN_KEY env)) \/
   (truthy_value query_key = false /\ header = Some (ADMIN_KEY env))) /\
  (dashboard env query_key = true ->
   requireAdmin env query_key header = true) /\
  requireAdmin env (Some (QString [])) (Some []) = false /\
  requireAdmin None None (Some (js "admin123")) = true.
Proof.
  pose proof (ADMIN_KEY_truthy env) as Hk.
  assert (Hq : forall v, v = QString (ADMIN_KEY env) -> truthy_q v = true)
    by (intros v ->; exact Hk).
  split; [|split; [|split]].
  - unfold requireAdmin, or_value.
    destruct query_key as [v|]; [destruct (truthy_q v) eqn:Ev|];
      cbn [truthy_value]; rewrite ?Ev; cbn [andb].
    + rewrite strict_eq_spec. split; [now left|].
      intros [E|[E _]]; [exact E|discriminate E].
    + destruct header as [hd|]; cbn [option_map truthy_value].
      * rewrite andb_true_iff, strict_eq_spec. split.
        -- intros [_ E]. right. split; [reflexivity|]. now injection E as ->.
        -- intros [E|[_ E]].
           ++ injection E as E. apply Hq in E. congruence.
           ++ injection E as ->. split; [exact Hk|reflexivity].
      * cbn [andb]. split; [discriminate|].
        intros [E|[_ E]]; [|discriminate E].
        injection E as E. apply Hq in E. congruence.
    + destruct header as [hd|]; cbn [option_map truthy_value].
      * rewrite andb_true_iff, strict_eq_spec. split.
        -- intros [_ E]. right. split; [reflexivity|]. now injection E as ->.
        -- intros [E|[_ E]]; [discriminate E|].
           injection E as ->. split; [exact Hk|reflexivity].
      * cbn [andb]. split; [discriminate|].
        intros [E|[_ E]]; discriminate E.
  - unfold dashboard, requireAdmin, or_value. intros H.
    apply negb_true_iff, orb_false_iff in H. destruct H as [H1 H2].
    apply negb_false_iff in H1, H2.
    destruct query_key as [v|]; [|discriminate H1].
    cbn [truthy_value] in H1. rewrite H1. cbn [truthy_value].
    now rewrite H1, H2.
  - reflexivity.
  - vm_compute. reflexivity.
Qed.

Lemma removelast_firstn_length (A : Type) (l : list A) :
  removelast l = firstn (length l - 1) l.
Proof.
  induction l as [|a l IH]; [reflexivity|].
  destruct l as [|b l]; [reflexivity|].
  change (removelast (a :: b :: l)) with (a :: removelast (b :: l)).
  rewrite IH. cbn [length]. rewrite !Nat.sub_succ, !Nat.sub_0_r. reflexivity.
Qed.

Lemma pushLog_firstn (entry : Type) (l : list entry) (e : entry) :
  pushLog (firstn LOG_BUFFER_SIZE l) e = firstn LOG_BUFFER_SIZE (e :: l).
Proof.
  unfold pushLog. generalize LOG_BUFFER_SIZE as n. intros n.
  pose proof (length_firstn n l) as Hl.
  destruct (Nat.ltb_spec n (length (e :: firstn n l))) as [Hlt|Hge];
    cbn [length] in *.
  - rewrite removelast_firstn_length. cbn [length].
    assert (En : length (firstn n l) = n) by lia.
    rewrite En, Nat.sub_succ, Nat.sub_0_r.
    destruct n as [|n]; [reflexivity|].
    change (firstn (S n) (e :: l)) with (e :: firstn n l).
    change (firstn (S n) (e :: firstn (S n) l))
      with (e :: firstn n (firstn (S n) l)).
    f_equal. rewrite firstn_firstn. now rewrite Nat.min_l by lia.
  - assert (El : firstn n l = l) by (apply firstn_all2; lia).
    rewrite El. symmetry. apply firstn_all2. cbn [length]. lia.
Qed.

(** X27. The log buffer holds the latest entries, newest first, and
    never more than 1000: after any sequence of [pushLog] from the
    empty buffer it is the first 1000 of the entries in reverse. *)
Theorem logBuffer_holds_latest (entry : Type) (entries : list entry) :
  fold_left (@pushLog entry) entries [] =
  firstn LOG_BUFFER_SIZE (rev entries) /\
  (length (fold_left (@pushLog entry) entries []) <= 1000)%nat.
Proof.
  assert (E : fold_left (@pushLog entry) entries [] =
              firstn LOG_BUFFER_SIZE (rev entries)).
  { induction entries as [|e entries IH] using rev_ind; [reflexivity|].
    rewrite fold_left_app, rev_app_distr, IH. cbn [fold_left rev app].
    apply pushLog_firstn. }
  split; [exact E|]. rewrite E. apply firstn_le_length.
Qed.

End AdminFacts.

Section AuthFacts.

Import Auth.

Variable verify : option jsstring -> verification.

Lemma split_before_space rest :
  exists pieces, split 0x20 rest = before_space rest :: pieces.
Proof.
  induction rest as [|c rest [pieces IH]]; cbn [split before_space].
  - now exists [].
  - destruct (c =? 0x20); [now eexists|]. rewrite IH. now eexists.
Qed.

Lemma bearer_token rest :
  nth_error (split 0x20 (js "Bearer " ++ rest)) 1 = Some (before_space rest).
Proof.
  change (js "Bearer " ++ rest) with (js "Bearer" ++ 0x20 :: rest).
  rewrite split_app_separator.
  - destruct (split_before_space rest) as [pieces ->]. reflexivity.
  - vm_compute. intuition discriminate.
Qed.

Lemma startsWith_app prefix rest : startsWith prefix (prefix ++ rest) = true.
Proof.
  induction prefix as [|a prefix IH]; [reflexivity|].
  cbn [app startsWith]. now rewrite Z.eqb_refl.
Qed.

(** X28. Of an [Authorization] header that starts with [Bearer ] the
    middleware verifies the text up to the next space, and nothing
    else: what follows a second space is ignored, and a token is always
    passed to [jwt.verify] (the empty one if a space follows
    directly). *)
Theorem authenticate_reads_first_word rest :
  authenticate verify (Some (js "Bearer " ++ rest)) =
  match verify (Some (before_space rest)) with
  | Verified userId email => Next (User userId email)
  | TokenExpiredError => Status401 (js "Token expired")
  | OtherError => Status401 (js "Invalid token")
  end.
Proof.
  unfold authenticate. rewrite startsWith_app, bearer_token. reflexivity.
Qed.

(** X29. The two middlewares let in the same users: [optionalAuth]
    attaches a user exactly when [authenticate] calls [next] with that
    user. *)
Theorem optionalAuth_agrees authHeader u :
  optionalAuth verify authHeader = Some u <->
  authenticate verify authHeader = Next u.
Proof.
  unfold optionalAuth, authenticate. destruct authHeader as [h|];
    [|split; discriminate].
  destruct (negb (truthy_str h) || negb (startsWith (js "Bearer ") h));
    [split; discriminate|].
  destruct (verify _); split; intros E; try discriminate E;
    now injection E as <-.
Qed.

End AuthFacts.

(* ================================================================== *)
(** ** Instances *)

Lemma safeTitle_idempotent_witness :
  safeTitle (Some (js "Nocturne op. 9")) = js "Nocturne op. 9".
Proof.
  apply (proj2 (safeTitle_idempotent None) (js "Nocturne op. 9")).
  - discriminate.
  - apply Nat.leb_le. vm_compute. reflexivity.
  - apply Forall_forall. intros c Hc. revert c Hc. apply forallb_forall.
    vm_compute. reflexivity.
Defined.

Lemma isValidUUID_shape_witness :
  isValidUUID (js "123e4567-e89b-12d3-a456-426614174000" ++ [0x0A]) = false.
Proof.
  apply (proj2 (proj2
           (isValidUUID_shape (js "123e4567-e89b-12d3-a456-426614174000")))
           [0x0A]).
  - discriminate.
  - vm_compute. reflexivity.
Defined.


Lemma updateFolderIds_valid_witness :
  updateFolderIds (fun _ => Normal [VOther (js "1") true]) (Text (js "[1]"))
                  (Some (VString (js "0a5b7c1d-3e2f-4a6b-8c9d-1e0f2a3b4c5d")))
  = Some [] /\
  createFolderIds (fun _ => Normal [VOther (js "1") true]) (Text (js "[1]"))
                  (Some (VString (js "0a5b7c1d-3e2f-4a6b-8c9d-1e0f2a3b4c5d")))
  = [VString (js "0a5b7c1d-3e2f-4a6b-8c9d-1e0f2a3b4c5d")].
Proof.
  apply (proj2 (proj2 (proj2
           (updateFolderIds_valid (fun _ => Normal [VOther (js "1") true])
                                  (Text (js "[1]")) None)))).
  - discriminate.
  - vm_compute. reflexivity.
  - reflexivity.
  - vm_compute. reflexivity.
Defined.

Lemma insert_sheet_folders_placeholders_witness :
  In 3 (placeholders
          (fst (insert_sheet_folders (js "s") [js "f1"; js "f2"]))).
Proof.
  apply (proj2 (proj2
           (insert_sheet_folders_placeholders (js "s") [js "f1"; js "f2"]))).
  - discriminate.
  - vm_compute. split; discriminate.
Defined.

Section RouteInstances.

Import Listing Admin Deletion.

Lemma batch_delete_only_permitted_witness :
  exists evs,
    snd (batch_delete all_succeed (Some [id own_sheet; id shared_sheet])
                      (Normal [own_sheet; shared_sheet]) []) = [] ++ evs /\
    evs <> [] /\
    forall ev, In ev evs -> permitted [own_sheet; shared_sheet] (fst ev).
Proof.
  destruct (@batch_delete_only_permitted all_succeed
              (Some [id own_sheet; id shared_sheet])
              (Normal [own_sheet; shared_sheet]) []) as [evs [E H]].
  exists evs. split; [exact E|]. split.
  - intros ->. vm_compute in E. discriminate E.
  - intros ev Hev. destruct (H ev Hev) as [rows [Er Hp]].
    injection Er as <-. exact Hp.
Defined.

Lemma delete_sheet_outcomes_witness :
  exists evs,
    snd (delete_sheet all_succeed (id own_sheet) (Normal [own_sheet]) []) =
    [] ++ evs /\
    exists row rest,
      Normal [own_sheet] = Normal (row :: rest) /\
      (is_owner row = true \/ permission row = Some (js "full")) /\
      Forall (fun ev => fst ev = DeleteRow (id own_sheet) \/
                        exists k, storage_key row = Some k /\
                                  fst ev = DeleteFile k) evs.
Proof.
  destruct (@delete_sheet_outcomes all_succeed (id own_sheet)
              (Normal [own_sheet]) []) as [evs [E [_ H]]].
  exists evs. split; [exact E|]. apply H.
  intros ->. vm_compute in E. discriminate E.
Defined.

Lemma requireAdmin_iff_witness :
  requireAdmin None (Some (QString (js "admin123"))) (Some (js "other")) = true.
Proof.
  apply (proj1 (proj2 (requireAdmin_iff None (Some (QString (js "admin123")))
                                        (Some (js "other"))))).
  vm_compute. reflexivity.
Defined.

End RouteInstances.
